(** * LC Global Enterprises: the page-behaviour controller of [assets/js/main.js]

    A shallow embedding of the [LCGlobalEnterprises] class: the document is a
    store of elements addressed by the selectors the script uses, every
    method is a computation in a small state-and-exception monad that also
    records the observable effects (DOM writes, network requests, frame and
    timer requests, uncaught errors), and the browser is a step function
    that dispatches events to the listeners the constructor registered. *)

From Stdlib Require Import ZArith Floats Lia Ascii String.
From stdpp Require Import base list strings gmap countable.

Local Open Scope Z_scope.
Local Open Scope string_scope.
Local Open Scope list_scope.

(** ** Elements *)

(** Values written into the DOM.  Template literals that interpolate a
    JavaScript number keep the number (an IEEE double) unformatted. *)
Inductive Value :=
| text (s : string)
| translate_px (x y : float)      (* `translate(${x}px, ${y}px)` *)
| rotateXY_deg (x y : float).     (* `rotateX(${x}deg) rotateY(${y}deg)` *)

Record Element := {
  attrs : gmap string string;      (* getAttribute / setAttribute / dataset *)
  classList : list string;         (* DOMTokenList, className *)
  style : gmap string Value;       (* inline style, custom properties *)
  textContent : string;
  value : string;                  (* form controls *)
  defaultValue : string;
  disabled : bool;
  offsetTop : Z;                   (* layout, read only *)
  offsetHeight : Z
}.

Definition set_attrs (v : gmap string string) (e : Element) : Element :=
  {| attrs := v; classList := classList e; style := style e;
     textContent := textContent e; value := value e;
     defaultValue := defaultValue e; disabled := disabled e;
     offsetTop := offsetTop e; offsetHeight := offsetHeight e |}.
Definition set_classList (v : list string) (e : Element) : Element :=
  {| attrs := attrs e; classList := v; style := style e;
     textContent := textContent e; value := value e;
     defaultValue := defaultValue e; disabled := disabled e;
     offsetTop := offsetTop e; offsetHeight := offsetHeight e |}.
Definition set_style (v : gmap string Value) (e : Element) : Element :=
  {| attrs := attrs e; classList := classList e; style := v;
     textContent := textContent e; value := value e;
     defaultValue := defaultValue e; disabled := disabled e;
     offsetTop := offsetTop e; offsetHeight := offsetHeight e |}.
Definition set_textContent (v : string) (e : Element) : Element :=
  {| attrs := attrs e; classList := classList e; style := style e;
     textContent := v; value := value e;
     defaultValue := defaultValue e; disabled := disabled e;
     offsetTop := offsetTop e; offsetHeight := offsetHeight e |}.
Definition set_value (v : string) (e : Element) : Element :=
  {| attrs := attrs e; classList := classList e; style := style e;
     textContent := textContent e; value := v;
     defaultValue := defaultValue e; disabled := disabled e;
     offsetTop := offsetTop e; offsetHeight := offsetHeight e |}.
Definition set_disabled (v : bool) (e : Element) : Element :=
  {| attrs := attrs e; classList := classList e; style := style e;
     textContent := textContent e; value := value e;
     defaultValue := defaultValue e; disabled := v;
     offsetTop := offsetTop e; offsetHeight := offsetHeight e |}.

(** DOMTokenList operations on a class list. *)
Definition has_class (c : string) (l : list string) : bool :=
  existsb (String.eqb c) l.
Definition add_class (c : string) (l : list string) : list string :=
  if has_class c l then l else l ++ [c].
Definition remove_class (c : string) (l : list string) : list string :=
  filter (fun x => x ≠ c) l.
Definition toggle_class (c : string) (l : list string) : list string :=
  if has_class c l then remove_class c l else l ++ [c].

(** ** The document

    Elements are addressed by the selector that finds them in the script.
    [Single] keys are the elements looked up one at a time
    ([getElementById], [querySelector]); [Multi] keys are the families the
    script iterates over ([querySelectorAll]), in document order.  Elements
    under different keys are different elements. *)
Inductive Single :=
| NavToggle     (* #navToggle *)
| NavMenu       (* #navMenu *)
| SiteHeader    (* .site-header *)
| ContactForm   (* #contactForm *)
| FormStatus    (* #form-status *)
| SubmitBtn     (* #contactForm .btn-submit *)
| Hero          (* .hero *)
| FounderImg.   (* .founder-image img *)

Inductive Multi :=
| Link          (* .nav-link and a[href^="#"] elements *)
| Section       (* section[id] *)
| Field         (* the controls of #contactForm *)
| ErrorMessage  (* .error-message *)
| Orb           (* .floating-orb *)
| Cube          (* .floating-cube *)
| Animated      (* .card, .service-card, .package, ... *)
| LazyImage.    (* img[data-src] *)

Inductive Node :=
| Body                             (* document.body *)
| Root                             (* document.documentElement *)
| One (s : Single)
| Nth (m : Multi) (i : nat).

#[export] Instance Single_eq_dec : EqDecision Single.
Proof. solve_decision. Defined.
#[export] Instance Multi_eq_dec : EqDecision Multi.
Proof. solve_decision. Defined.
#[export] Instance Node_eq_dec : EqDecision Node.
Proof. solve_decision. Defined.

Definition Single_code (s : Single) : nat :=
  match s with
  | NavToggle => 0 | NavMenu => 1 | SiteHeader => 2 | ContactForm => 3
  | FormStatus => 4 | SubmitBtn => 5 | Hero => 6 | FounderImg => 7
  end%nat.
Definition Single_decode (n : nat) : option Single :=
  match n with
  | 0 => Some NavToggle | 1 => Some NavMenu | 2 => Some SiteHeader
  | 3 => Some ContactForm | 4 => Some FormStatus | 5 => Some SubmitBtn
  | 6 => Some Hero | 7 => Some FounderImg | _ => None
  end%nat.
#[export] Instance Single_countable : Countable Single.
Proof.
  refine (inj_countable Single_code Single_decode _).
  intros []; reflexivity.
Defined.

Definition Multi_code (m : Multi) : nat :=
  match m with
  | Link => 0 | Section => 1 | Field => 2 | ErrorMessage => 3
  | Orb => 4 | Cube => 5 | Animated => 6 | LazyImage => 7
  end%nat.
Definition Multi_decode (n : nat) : option Multi :=
  match n with
  | 0 => Some Link | 1 => Some Section | 2 => Some Field
  | 3 => Some ErrorMessage | 4 => Some Orb | 5 => Some Cube
  | 6 => Some Animated | 7 => Some LazyImage | _ => None
  end%nat.
#[export] Instance Multi_countable : Countable Multi.
Proof.
  refine (inj_countable Multi_code Multi_decode _).
  intros []; reflexivity.
Defined.

Record Document := {
  body : Element;
  root : Element;
  single : gmap Single Element;
  multi : gmap Multi (list Element);
  (* field.parentElement.querySelector('.error-message'): for the field
     with a given index, the index of the error element found, if any.
     Two fields under one parent share their error element. *)
  errorMessageOf : gmap nat nat
}.

Definition family (m : Multi) (d : Document) : list Element :=
  default [] (multi d !! m).

Definition get_el (n : Node) (d : Document) : option Element :=
  match n with
  | Body => Some (body d)
  | Root => Some (root d)
  | One s => single d !! s
  | Nth m i => family m d !! i
  end.

Definition alter_el (f : Element -> Element) (n : Node) (d : Document)
  : Document :=
  match n with
  | Body => {| body := f (body d); root := root d; single := single d;
               multi := multi d; errorMessageOf := errorMessageOf d |}
  | Root => {| body := body d; root := f (root d); single := single d;
               multi := multi d; errorMessageOf := errorMessageOf d |}
  | One s => {| body := body d; root := root d;
                single := alter f s (single d);
                multi := multi d; errorMessageOf := errorMessageOf d |}
  | Nth m i => {| body := body d; root := root d; single := single d;
                  multi := alter (alter f i) m (multi d);
                  errorMessageOf := errorMessageOf d |}
  end.

(** A JavaScript value that is an element or [null]. *)
Definition Ref := option Node.

(** ** Listeners, callbacks and the rest of the page state *)

Inductive EventTarget := WindowT | DocumentT | NodeT (n : Node).
Inductive EventType :=
| click | keydown | scroll | load | resize | submit | blur | input
| mousemove | mouseenter | mouseleave.

#[export] Instance EventTarget_eq_dec : EqDecision EventTarget.
Proof. solve_decision. Defined.
#[export] Instance EventType_eq_dec : EqDecision EventType.
Proof. solve_decision. Defined.

(** The closures handed to [addEventListener].  A closure that captures
    [navToggle], [navMenu], [header], [contactForm] or [hero] is created
    only after the guard that checked them, so it holds the element itself;
    closures created in a [forEach] hold the element of their iteration. *)
Inductive Handler :=
| onLoad                       (* setupEventListeners *)
| onResize
| onToggleClick                (* setupMobileNavigation *)
| onNavLinkClick
| onOutsideClick
| onEscape
| onScroll                     (* setupHeaderScroll *)
| onAnchorClick (link : Node)  (* setupSmoothScrolling *)
| onSubmit                     (* setupFormHandling *)
| onBlur (field : Node)        (* setupFormValidation *)
| onInput (field : Node)
| handleMouseMove              (* setupParallaxEffect *)
| onMouseEnter
| onMouseLeave
| onToggleKeydown              (* setupFocusManagement *)
| onDocumentKeydown.           (* setupKeyboardNavigation *)

Record Listener := {
  target : EventTarget;
  type : EventType;
  handler : Handler
}.

(** Callbacks given to [requestAnimationFrame] and [setTimeout]. *)
Inductive FrameCallback := updateHeader | updateParallax.
Inductive TimerCallback :=
| resizeLater                   (* () => this.handleResize() *)
| hideStatus (element : Node).  (* () => element.className = 'form-status' *)

#[export] Instance FrameCallback_eq_dec : EqDecision FrameCallback.
Proof. solve_decision. Defined.

(** What [handleFormSubmission] holds on to across its [await]. *)
Record Continuation := {
  k_form : Ref;
  k_submitBtn : Ref;
  k_formStatus : Ref
}.

Inductive Observer := sectionObserver | revealObserver | imageObserver.

Record Window := {
  scrollY : float;
  innerWidth : Z;
  prefersReducedMotion : bool;  (* matchMedia('(prefers-reduced-motion: reduce)').matches *)
  documentURL : string;         (* the URL of the document *)
  parseURL : string -> string   (* the browser's URL parser, relative to the
                                   document's base URL: the serialised result,
                                   or the input itself when it does not parse *)
}.

(** The [let] variables the listeners close over. *)
Record Closure := {
  lastScrollY : float;          (* setupHeaderScroll *)
  ticking : bool;
  resizeTimeout : option nat;   (* setupEventListeners *)
  mouseX : float;               (* setupParallaxEffect *)
  mouseY : float;
  rafId : option nat
}.

(** Browser-side bookkeeping: frame and timer queues, pending fetches,
    registered listeners and observation targets. *)
Record Browser := {
  frames : list (nat * FrameCallback);
  nextFrame : nat;
  timers : list (nat * TimerCallback);
  nextTimer : nat;
  pending : list Continuation;
  listeners : list Listener;
  stopped : bool;               (* stopPropagation() during a dispatch *)
  sectionTargets : list Node;
  revealTargets : list Node;
  imageTargets : list Node
}.

Record Page := {
  doc : Document;
  win : Window;
  vars : Closure;
  browser : Browser
}.

Definition with_doc (f : Document -> Document) (p : Page) : Page :=
  {| doc := f (doc p); win := win p; vars := vars p; browser := browser p |}.
Definition with_win (f : Window -> Window) (p : Page) : Page :=
  {| doc := doc p; win := f (win p); vars := vars p; browser := browser p |}.
Definition with_vars (f : Closure -> Closure) (p : Page) : Page :=
  {| doc := doc p; win := win p; vars := f (vars p); browser := browser p |}.
Definition with_browser (f : Browser -> Browser) (p : Page) : Page :=
  {| doc := doc p; win := win p; vars := vars p; browser := f (browser p) |}.

Definition set_scrollY (v : float) (w : Window) : Window :=
  {| scrollY := v; innerWidth := innerWidth w;
     prefersReducedMotion := prefersReducedMotion w;
     documentURL := documentURL w; parseURL := parseURL w |}.
Definition set_innerWidth (v : Z) (w : Window) : Window :=
  {| scrollY := scrollY w; innerWidth := v;
     prefersReducedMotion := prefersReducedMotion w;
     documentURL := documentURL w; parseURL := parseURL w |}.

Definition set_lastScrollY (v : float) (c : Closure) : Closure :=
  {| lastScrollY := v; ticking := ticking c;
     resizeTimeout := resizeTimeout c; mouseX := mouseX c;
     mouseY := mouseY c; rafId := rafId c |}.
Definition set_ticking (v : bool) (c : Closure) : Closure :=
  {| lastScrollY := lastScrollY c; ticking := v;
     resizeTimeout := resizeTimeout c; mouseX := mouseX c;
     mouseY := mouseY c; rafId := rafId c |}.
Definition set_resizeTimeout (v : option nat) (c : Closure) : Closure :=
  {| lastScrollY := lastScrollY c; ticking := ticking c;
     resizeTimeout := v; mouseX := mouseX c;
     mouseY := mouseY c; rafId := rafId c |}.
Definition set_mouse (x y : float) (c : Closure) : Closure :=
  {| lastScrollY := lastScrollY c; ticking := ticking c;
     resizeTimeout := resizeTimeout c; mouseX := x;
     mouseY := y; rafId := rafId c |}.
Definition set_rafId (v : option nat) (c : Closure) : Closure :=
  {| lastScrollY := lastScrollY c; ticking := ticking c;
     resizeTimeout := resizeTimeout c; mouseX := mouseX c;
     mouseY := mouseY c; rafId := v |}.

Definition set_frames (fs : list (nat * FrameCallback)) (n : nat)
  (b : Browser) : Browser :=
  {| frames := fs; nextFrame := n; timers := timers b;
     nextTimer := nextTimer b; pending := pending b;
     listeners := listeners b; stopped := stopped b;
     sectionTargets := sectionTargets b;
     revealTargets := revealTargets b; imageTargets := imageTargets b |}.
Definition set_timers (ts : list (nat * TimerCallback)) (n : nat)
  (b : Browser) : Browser :=
  {| frames := frames b; nextFrame := nextFrame b; timers := ts;
     nextTimer := n; pending := pending b;
     listeners := listeners b; stopped := stopped b;
     sectionTargets := sectionTargets b;
     revealTargets := revealTargets b; imageTargets := imageTargets b |}.
Definition set_pending (v : list Continuation) (b : Browser) : Browser :=
  {| frames := frames b; nextFrame := nextFrame b; timers := timers b;
     nextTimer := nextTimer b; pending := v;
     listeners := listeners b; stopped := stopped b;
     sectionTargets := sectionTargets b;
     revealTargets := revealTargets b; imageTargets := imageTargets b |}.
Definition set_listeners (v : list Listener) (b : Browser) : Browser :=
  {| frames := frames b; nextFrame := nextFrame b; timers := timers b;
     nextTimer := nextTimer b; pending := pending b;
     listeners := v; stopped := stopped b;
     sectionTargets := sectionTargets b;
     revealTargets := revealTargets b; imageTargets := imageTargets b |}.
Definition set_stopped (v : bool) (b : Browser) : Browser :=
  {| frames := frames b; nextFrame := nextFrame b; timers := timers b;
     nextTimer := nextTimer b; pending := pending b;
     listeners := listeners b; stopped := v;
     sectionTargets := sectionTargets b;
     revealTargets := revealTargets b; imageTargets := imageTargets b |}.

Definition targets_of (o : Observer) (b : Browser) : list Node :=
  match o with
  | sectionObserver => sectionTargets b
  | revealObserver => revealTargets b
  | imageObserver => imageTargets b
  end.
Definition set_targets (o : Observer) (v : list Node) (b : Browser)
  : Browser :=
  {| frames := frames b; nextFrame := nextFrame b; timers := timers b;
     nextTimer := nextTimer b; pending := pending b;
     listeners := listeners b; stopped := stopped b;
     sectionTargets :=
       match o with sectionObserver => v | _ => sectionTargets b end;
     revealTargets :=
       match o with revealObserver => v | _ => revealTargets b end;
     imageTargets :=
       match o with imageObserver => v | _ => imageTargets b end |}.

(** ** Effects, exceptions and the monad of the script *)

(** The body of a request.  [new FormData(form)] is kept as the form's
    controls in the state they have when it is built: from them the
    browser constructs the entry list, leaving out the controls that are
    disabled, are buttons, are unchecked checkboxes or radio buttons, or
    have no name or an empty one. *)
Inductive Payload := FormData (controls : list Element).

(** The arguments of a call [fetch(url, { method, body, headers })]. *)
Record Request := {
  url : string;
  method : string;
  payload : Payload;
  headers : list (string * string)
}.

Inductive Exn :=
| TypeError (reading : string)   (* a property read or call on null *)
| Error (message : string)       (* new Error(message) *)
| NetworkError.                  (* a rejected fetch *)

Inductive Effect :=
| DomWrite (n : Node) (prop : string) (v : Value)
| PreventDefault
| StopPropagation
| ScrollTo (top : Z) (behavior : string)
| Fetch (r : Request)
| RequestFrame (id : nat) (cb : FrameCallback)
| CancelFrame (id : nat)
| SetTimeout (id : nat) (cb : TimerCallback) (delay : Z)
| ClearTimeout (id : option nat)
| Observe (o : Observer) (n : Node)
| Unobserve (o : Observer) (n : Node)
| Uncaught (e : Exn).            (* reported to the platform error surface *)

Record World := {
  page : Page;
  effects : list Effect            (* oldest first *)
}.

Inductive Outcome (A : Type) :=
| Ret (a : A)
| Throw (e : Exn).
Arguments Ret {A} a.
Arguments Throw {A} e.

Definition M (A : Type) : Type := World -> Outcome A * World.

#[export] Instance M_ret : MRet M := fun A a w => (Ret a, w).
#[export] Instance M_bind : MBind M := fun A B k m w =>
  match m w with
  | (Ret a, w') => k a w'
  | (Throw e, w') => (Throw e, w')
  end.

Definition throw {A} (e : Exn) : M A := fun w => (Throw e, w).
Definition get : M Page := fun w => (Ret (page w), w).
Definition modify (f : Page -> Page) : M unit := fun w =>
  (Ret tt, {| page := f (page w); effects := effects w |}).
Definition emit (e : Effect) : M unit := fun w =>
  (Ret tt, {| page := page w; effects := effects w ++ [e] |}).

(** [try { body } catch (error) { handler } finally { cleanup }] *)
Definition try_catch_finally {A} (body : M A) (handler : Exn -> M A)
  (cleanup : M unit) : M A := fun w =>
  let '(o, w1) :=
    match body w with
    | (Ret a, w1) => (Ret a, w1)
    | (Throw e, w1) => handler e w1
    end in
  match cleanup w1 with
  | (Ret _, w2) => (o, w2)
  | (Throw e, w2) => (Throw e, w2)
  end.

(** [xs.forEach((x, index) => f x index)] *)
Fixpoint forEach_from {A} (i : nat) (xs : list A) (f : A -> nat -> M unit)
  : M unit :=
  match xs with
  | [] => mret tt
  | x :: xs' => f x i ;; forEach_from (S i) xs' f
  end.
Definition forEach {A} (xs : list A) (f : A -> nat -> M unit) : M unit :=
  forEach_from 0 xs f.

(** A listener or callback run by the browser: an exception it throws is
    reported and does not stop the page. *)
Definition isolated (m : M unit) : M unit := fun w =>
  match m w with
  | (Ret _, w') => (Ret tt, w')
  | (Throw e, w') => emit (Uncaught e) w'
  end.

(** The world a browser-run callback leaves behind. *)
Definition exec (m : M unit) (w : World) : World := (isolated m w).2.

(** ** The DOM interface used by the script *)

Definition blank : Element :=
  {| attrs := ∅; classList := []; style := ∅; textContent := "";
     value := ""; defaultValue := ""; disabled := false;
     offsetTop := 0; offsetHeight := 0 |}.

(** Member access on a reference: [null.prop] throws a TypeError. *)
Definition deref (r : Ref) (prop : string) : M Node :=
  match r with
  | Some n => mret n
  | None => throw (TypeError prop)
  end.

Definition element (r : Ref) (prop : string) : M Element :=
  n ← deref r prop;
  p ← get;
  mret (default blank (get_el n (doc p))).

Definition write (r : Ref) (prop : string) (v : Value)
  (f : Element -> Element) : M unit :=
  n ← deref r prop;
  emit (DomWrite n prop v) ;;
  modify (with_doc (alter_el f n)).

Definition getAttribute (r : Ref) (name : string) : M (option string) :=
  e ← element r "getAttribute"; mret (attrs e !! name).
Definition setAttribute (r : Ref) (name v : string) : M unit :=
  write r name (text v)
    (fun e => set_attrs (<[name := v]> (attrs e)) e).
Definition classList_contains (r : Ref) (c : string) : M bool :=
  e ← element r "classList"; mret (has_class c (classList e)).
Definition classList_add (r : Ref) (c : string) : M unit :=
  write r "classList.add" (text c)
    (fun e => set_classList (add_class c (classList e)) e).
Definition classList_remove (r : Ref) (c : string) : M unit :=
  write r "classList.remove" (text c)
    (fun e => set_classList (remove_class c (classList e)) e).
Definition classList_toggle (r : Ref) (c : string) : M unit :=
  write r "classList.toggle" (text c)
    (fun e => set_classList (toggle_class c (classList e)) e).
Definition assign_className (r : Ref) (tokens : list string) : M unit :=
  write r "className" (text (String.concat " " tokens))
    (set_classList tokens).
Definition assign_style (r : Ref) (prop : string) (v : Value) : M unit :=
  write r ("style." +:+ prop) v
    (fun e => set_style (<[prop := v]> (style e)) e).
Definition assign_textContent (r : Ref) (s : string) : M unit :=
  write r "textContent" (text s) (set_textContent s).
Definition assign_disabled (r : Ref) (b : bool) : M unit :=
  write r "disabled" (text (if b then "true" else "false"))
    (set_disabled b).

(** Queries.  [document.getElementById] and [querySelector] for a fixed
    selector look up the corresponding [Single] key. *)
Definition query (s : Single) : M Ref :=
  p ← get;
  mret (match single (doc p) !! s with
        | Some _ => Some (One s)
        | None => None
        end).

Fixpoint select_from (m : Multi) (sel : Element -> bool) (i : nat)
  (es : list Element) : list Node :=
  match es with
  | [] => []
  | e :: es' =>
      (if sel e then [Nth m i] else []) ++ select_from m sel (S i) es'
  end.

Definition querySelectorAll (m : Multi) (sel : Element -> bool)
  : M (list Node) :=
  p ← get; mret (select_from m sel 0 (family m (doc p))).

Definition has_attr (name : string) (e : Element) : bool :=
  match attrs e !! name with Some _ => true | None => false end.

Definition sel_nav_link (e : Element) : bool :=          (* .nav-link *)
  has_class "nav-link" (classList e).
Definition sel_hash_anchor (e : Element) : bool :=       (* a[href^="#"] *)
  match attrs e !! "href" with
  | Some h => String.prefix "#" h
  | None => false
  end.
Definition sel_all (e : Element) : bool := true.

(** [document.querySelector(href)] for an in-page link: the element whose
    [id] is the text after the hash. *)
Definition querySelector_hash (href : string) : M Ref :=
  match href with
  | String c id =>
      if negb (Ascii.eqb c "#") then mret None
      else if String.eqb id "navToggle" then query NavToggle
      else if String.eqb id "navMenu" then query NavMenu
      else if String.eqb id "contactForm" then query ContactForm
      else if String.eqb id "form-status" then query FormStatus
      else
        p ← get;
        mret (head (select_from Section
                      (fun e => bool_decide (attrs e !! "id" = Some id))
                      0 (family Section (doc p))))
  | EmptyString => mret None
  end.

(** The event object a listener receives. *)
Record Rect := { r_left : float; r_top : float;
                 r_width : float; r_height : float }.
Record Event := {
  path : list Node;     (* e.target first, then its ancestors *)
  key : string;
  clientX : float;
  clientY : float;
  heroRect : Rect       (* hero.getBoundingClientRect() at this moment *)
}.

Definition contains (r : Ref) (e : Event) : M bool :=
  n ← deref r "contains"; mret (bool_decide (n ∈ path e)).

Definition preventDefault : M unit := emit PreventDefault.
Definition stopPropagation : M unit :=
  emit StopPropagation ;; modify (with_browser (set_stopped true)).

Definition addEventListener (t : EventTarget) (ty : EventType)
  (h : Handler) : M unit :=
  modify (with_browser (fun b =>
    set_listeners
      (listeners b ++ [{| target := t; type := ty; handler := h |}]) b)).

Definition requestAnimationFrame (cb : FrameCallback) : M nat :=
  p ← get;
  let id := nextFrame (browser p) in
  emit (RequestFrame id cb) ;;
  modify (with_browser
            (set_frames (frames (browser p) ++ [(id, cb)]) (S id))) ;;
  mret id.

Definition cancelAnimationFrame (id : nat) : M unit :=
  emit (CancelFrame id) ;;
  modify (with_browser (fun b =>
    set_frames (filter (fun f => f.1 ≠ id) (frames b)) (nextFrame b) b)).

Definition setTimeout (cb : TimerCallback) (delay : Z) : M nat :=
  p ← get;
  let id := nextTimer (browser p) in
  emit (SetTimeout id cb delay) ;;
  modify (with_browser
            (set_timers (timers (browser p) ++ [(id, cb)]) (S id))) ;;
  mret id.

Definition clearTimeout (id : option nat) : M unit :=
  emit (ClearTimeout id) ;;
  match id with
  | Some i =>
      modify (with_browser (fun b =>
        set_timers (filter (fun t => t.1 ≠ i) (timers b)) (nextTimer b) b))
  | None => mret tt
  end.

Definition observe (o : Observer) (n : Node) : M unit :=
  emit (Observe o n) ;;
  modify (with_browser (fun b =>
    set_targets o
      (if bool_decide (n ∈ targets_of o b) then targets_of o b
       else targets_of o b ++ [n]) b)).

Definition unobserve (o : Observer) (n : Node) : M unit :=
  emit (Unobserve o n) ;;
  modify (with_browser (fun b =>
    set_targets o (filter (fun x => x ≠ n) (targets_of o b)) b)).

(** * The methods of [LCGlobalEnterprises] *)

(** ** Navigation *)

Definition toggleMobileMenu (toggle menu : Ref) : M unit :=
  a ← getAttribute toggle "aria-expanded";
  let isExpanded := bool_decide (a = Some "true") in
  setAttribute toggle "aria-expanded"
    (if negb isExpanded then "true" else "false") ;;
  classList_toggle menu "active" ;;
  active ← classList_contains menu "active";
  assign_style (Some Body) "overflow"
    (text (if (active : bool) then "hidden" else "")).

Definition closeMobileMenu (toggle menu : Ref) : M unit :=
  setAttribute toggle "aria-expanded" "false" ;;
  classList_remove menu "active" ;;
  assign_style (Some Body) "overflow" (text "").

(** The four listeners of [setupMobileNavigation]; [navToggle] and
    [navMenu] are the elements the setup found. *)
Definition navToggle : Ref := Some (One NavToggle).
Definition navMenu : Ref := Some (One NavMenu).

Definition toggle_click : M unit :=
  stopPropagation ;;
  toggleMobileMenu navToggle navMenu.

Definition nav_link_click : M unit :=
  closeMobileMenu navToggle navMenu.

Definition outside_click (e : Event) : M unit :=
  inMenu ← contains navMenu e;
  if negb inMenu then
    inToggle ← contains navToggle e;
    if negb inToggle then
      active ← classList_contains navMenu "active";
      if (active : bool) then closeMobileMenu navToggle navMenu
      else mret tt
    else mret tt
  else mret tt.

Definition escape_keydown (e : Event) : M unit :=
  if String.eqb (key e) "Escape" then
    active ← classList_contains navMenu "active";
    if (active : bool) then closeMobileMenu navToggle navMenu
      else mret tt
  else mret tt.

Definition setupMobileNavigation : M unit :=
  toggle ← query NavToggle;
  menu ← query NavMenu;
  navLinks ← querySelectorAll Link sel_nav_link;
  match toggle, menu with
  | Some t, Some _ =>
      addEventListener (NodeT t) click onToggleClick ;;
      forEach navLinks (fun link _ =>
        addEventListener (NodeT link) click onNavLinkClick) ;;
      addEventListener DocumentT click onOutsideClick ;;
      addEventListener DocumentT keydown onEscape
  | _, _ => mret tt
  end.

(** ** Header scroll effect *)

Definition header : Ref := Some (One SiteHeader).

Definition run_updateHeader : M unit :=
  p ← get;
  (if PrimFloat.ltb 100 (scrollY (win p))
   then classList_add header "scrolled"
   else classList_remove header "scrolled") ;;
  p ← get;
  (if PrimFloat.ltb (lastScrollY (vars p)) (scrollY (win p))
      && PrimFloat.ltb 100 (scrollY (win p))
   then assign_style header "transform" (text "translateY(-100%)")
   else assign_style header "transform" (text "translateY(0)")) ;;
  p ← get;
  modify (with_vars (set_lastScrollY (scrollY (win p)))) ;;
  modify (with_vars (set_ticking false)).

Definition scroll_listener : M unit :=
  p ← get;
  if negb (ticking (vars p)) then
    requestAnimationFrame updateHeader ;;
    modify (with_vars (set_ticking true))
  else mret tt.

Definition setupHeaderScroll : M unit :=
  found ← query SiteHeader;
  match found with
  | None => mret tt
  | Some _ =>
      p ← get;
      modify (with_vars (set_lastScrollY (scrollY (win p)))) ;;
      modify (with_vars (set_ticking false)) ;;
      addEventListener WindowT scroll onScroll
  end.

(** ** Smooth scrolling *)

Definition scrollTo (top : Z) (behavior : string) : M unit :=
  emit (ScrollTo top behavior).

Definition anchor_click (link : Ref) : M unit :=
  href ← getAttribute link "href";
  match href with
  | None => mret tt
  | Some href =>
      if String.eqb href "#" then mret tt
      else
        target ← querySelector_hash href;
        match target with
        | None => mret tt
        | Some _ =>
            preventDefault ;;
            toggle ← query NavToggle;
            menu ← query NavMenu;
            active ← classList_contains menu "active";
            (if (active : bool) then closeMobileMenu toggle menu
             else mret tt) ;;
            found ← query SiteHeader;
            headerHeight ←
              match found with
              | Some _ => h ← element found "offsetHeight";
                          mret (offsetHeight h)
              | None => mret 0
              end;
            t ← element target "offsetTop";
            let targetPosition := offsetTop t - headerHeight - 20 in
            scrollTo targetPosition "smooth"
        end
  end.

Definition setupSmoothScrolling : M unit :=
  navLinks ← querySelectorAll Link sel_hash_anchor;
  forEach navLinks (fun link _ =>
    addEventListener (NodeT link) click (onAnchorClick link)).

(** ** Active navigation links *)

Definition section_entry (navLinks : list Node) (entry : Node * bool)
  : M unit :=
  if entry.2 then
    id ← getAttribute (Some entry.1) "id";
    forEach navLinks (fun link _ =>
      classList_remove (Some link) "active" ;;
      href ← getAttribute (Some link) "href";
      if bool_decide (href = Some ("#" +:+ default "null" id))
      then classList_add (Some link) "active"
      else mret tt)
  else mret tt.

Definition setupIntersectionObserver : M unit :=
  sections ← querySelectorAll Section (has_attr "id");
  navLinks ← querySelectorAll Link sel_nav_link;
  if bool_decide (sections = []) || bool_decide (navLinks = [])
  then mret tt
  else forEach sections (fun section _ => observe sectionObserver section).

(** ** Form handling *)

(** [field.validity], computed by the browser's constraint validation. *)
Record ValidityState := {
  valid : bool;
  valueMissing : bool;
  typeMismatch : bool
}.

Inductive FetchOutcome :=
| Resolved (status : Z)     (* a Response with this HTTP status *)
| Rejected.                 (* network or transport failure *)

(** [response.ok] *)
Definition response_ok (status : Z) : bool :=
  Z.leb 200 status && Z.leb status 299.

Section Controller.

(** The browser's constraint validation is left abstract. *)
Variable validity : Element -> ValidityState.

Definition sel_required (e : Element) : bool := has_attr "required" e.

(** [field.parentElement.querySelector('.error-message')] *)
Definition errorElementOf (field : Ref) : M Ref :=
  n ← deref field "parentElement";
  p ← get;
  mret (match n with
        | Nth Field i =>
            j ← errorMessageOf (doc p) !! i;
            _ ← family ErrorMessage (doc p) !! j;
            Some (Nth ErrorMessage j)
        | _ => None
        end).

Definition showFieldError (field : Ref) (message : string) : M unit :=
  errorElement ← errorElementOf field;
  match errorElement with
  | Some _ =>
      assign_textContent errorElement message ;;
      assign_style errorElement "opacity" (text "1")
  | None => mret tt
  end ;;
  setAttribute field "aria-invalid" "true".

Definition clearFieldError (field : Ref) : M unit :=
  errorElement ← errorElementOf field;
  match errorElement with
  | Some _ => assign_style errorElement "opacity" (text "0")
  | None => mret tt
  end ;;
  setAttribute field "aria-invalid" "false".

Definition validateField (field : Ref) : M bool :=
  _ ← errorElementOf field;
  f ← element field "validity";
  if negb (valid (validity f)) then
    let message :=
      if valueMissing (validity f) then "This field is required"
      else if typeMismatch (validity f) then
        if bool_decide (attrs f !! "type" = Some "email")
        then "Please enter a valid email address"
        else ""
      else "" in
    showFieldError field message ;;
    mret false
  else
    clearFieldError field ;;
    mret true.

(** The loop [fields.forEach(field => { if (!this.validateField(field))
    isValid = false; })]: every field is validated, none is skipped. *)
Fixpoint validate_all (fields : list Node) (isValid : bool) : M bool :=
  match fields with
  | [] => mret isValid
  | field :: rest =>
      ok ← validateField (Some field);
      validate_all rest (if negb ok then false else isValid)
  end.

Definition setupFormValidation (form : Ref) : M unit :=
  _ ← deref form "querySelectorAll";
  fields ← querySelectorAll Field sel_required;
  forEach fields (fun field _ =>
    addEventListener (NodeT field) blur (onBlur field) ;;
    addEventListener (NodeT field) input (onInput field)).

Definition setupFormHandling : M unit :=
  contactForm ← query ContactForm;
  match contactForm with
  | None => mret tt
  | Some f =>
      setupFormValidation contactForm ;;
      addEventListener (NodeT f) submit onSubmit
  end.

Definition setFormLoading (button : Ref) (loading : bool) : M unit :=
  if loading then
    classList_add button "loading" ;;
    assign_disabled button true
  else
    classList_remove button "loading" ;;
    assign_disabled button false.

Definition showFormStatus (element : Ref) (message type : string)
  : M unit :=
  match element with
  | None => mret tt
  | Some el =>
      assign_textContent element message ;;
      assign_className element ["form-status"; type] ;;
      if String.eqb type "success" then
        _ ← setTimeout (hideStatus el) 5000; mret tt
      else mret tt
  end.

(** [new FormData(form)] *)
Definition formData (d : Document) : Payload := FormData (family Field d).

(** [form.action]: the document's URL when the [action] attribute is
    missing or empty, and the attribute resolved against the document's
    base URL otherwise. *)
Definition form_action (w : Window) (form : Element) : string :=
  match attrs form !! "action" with
  | None => documentURL w
  | Some a => if String.eqb a "" then documentURL w else parseURL w a
  end.

(** [form.reset()] *)
Definition form_reset (form : Ref) : M unit :=
  n ← deref form "reset";
  emit (DomWrite n "reset" (text "")) ;;
  modify (with_doc (fun d =>
    {| body := body d; root := root d; single := single d;
       multi := alter (fmap (fun e => set_value (defaultValue e) e))
                  Field (multi d);
       errorMessageOf := errorMessageOf d |})).

Definition msg_fix_errors : string := "Please fix the errors above".
Definition msg_success : string :=
  "Thank you! Your message has been sent successfully. We will contact you shortly.".
Definition msg_failure : string :=
  "Sorry, there was an error sending your message. Please try again or email us directly at libertyengetelo@gmail.com.".

(** [handleFormSubmission] up to its [await]: either the function has
    returned ([None]), or it has called [fetch] and is suspended. *)
Definition handleFormSubmission (form : Ref)
  : M (option Continuation) :=
  _ ← deref form "querySelector";
  submitBtn ← query SubmitBtn;
  formStatus ← query FormStatus;
  fields ← querySelectorAll Field sel_required;
  isValid ← validate_all fields true;
  if negb isValid then
    showFormStatus formStatus msg_fix_errors "error" ;;
    mret None
  else
    setFormLoading submitBtn true ;;
    p ← get;
    f ← element form "action";
    emit (Fetch {| url := form_action (win p) f;
                   method := "POST";
                   payload := formData (doc p);
                   headers := [("Accept", "application/json")] |}) ;;
    mret (Some {| k_form := form; k_submitBtn := submitBtn;
                  k_formStatus := formStatus |}).

(** The rest of [handleFormSubmission], run when the fetch settles. *)
Definition handleFormSubmission_resume (k : Continuation)
  (o : FetchOutcome) : M unit :=
  try_catch_finally
    (match o with
     | Rejected => throw NetworkError
     | Resolved status =>
         if response_ok status then
           showFormStatus (k_formStatus k) msg_success "success" ;;
           form_reset (k_form k)
         else throw (Error "Form submission failed")
     end)
    (fun error => showFormStatus (k_formStatus k) msg_failure "error")
    (setFormLoading (k_submitBtn k) false).

Definition submit_listener : M unit :=
  preventDefault ;;
  k ← handleFormSubmission (Some (One ContactForm));
  match k with
  | Some k =>
      modify (with_browser (fun b => set_pending (pending b ++ [k]) b))
  | None => mret tt
  end.

(** ** 3D animations *)

(** An array index as a JavaScript number. *)
Definition js_number (n : nat) : float :=
  PrimFloat.of_uint63 (Uint63.of_Z (Z.of_nat n)).

(** Truthiness of a frame-request id: [null] and [0] are falsy. *)
Definition truthy (id : option nat) : bool :=
  match id with
  | Some (S _) => true
  | _ => false
  end.

Definition run_updateParallax : M unit :=
  orbs ← querySelectorAll Orb sel_all;
  cubes ← querySelectorAll Cube sel_all;
  forEach orbs (fun orb index =>
    p ← get;
    let speed := ((js_number index + 1) * 0.5)%float in
    assign_style (Some orb) "transform"
      (translate_px (mouseX (vars p) * speed)%float
                    (mouseY (vars p) * speed)%float)) ;;
  forEach cubes (fun cube index =>
    p ← get;
    let speed := ((js_number index + 1) * 2)%float in
    assign_style (Some cube) "transform"
      (rotateXY_deg (mouseY (vars p) * speed)%float
                    (mouseX (vars p) * speed)%float)) ;;
  id ← requestAnimationFrame updateParallax;
  modify (with_vars (set_rafId (Some id))).

Definition mouse_move (e : Event) : M unit :=
  let r := heroRect e in
  modify (with_vars (set_mouse
    (((clientX e - r_left r) / r_width r - 0.5) * 2)%float
    (((clientY e - r_top r) / r_height r - 0.5) * 2)%float)).

Definition mouse_enter : M unit :=
  p ← get;
  if negb (truthy (rafId (vars p))) then
    id ← requestAnimationFrame updateParallax;
    modify (with_vars (set_rafId (Some id)))
  else mret tt.

Definition mouse_leave : M unit :=
  p ← get;
  (if truthy (rafId (vars p)) then
     match rafId (vars p) with
     | Some id => cancelAnimationFrame id
     | None => mret tt
     end ;;
     modify (with_vars (set_rafId None))
   else mret tt) ;;
  orbs ← querySelectorAll Orb sel_all;
  cubes ← querySelectorAll Cube sel_all;
  forEach orbs (fun orb _ =>
    assign_style (Some orb) "transform" (text "")) ;;
  forEach cubes (fun cube _ =>
    assign_style (Some cube) "transform" (text "")).

Definition setupParallaxEffect : M unit :=
  hero ← query Hero;
  match hero with
  | None => mret tt
  | Some h =>
      modify (with_vars (set_mouse 0 0)) ;;
      modify (with_vars (set_rafId None)) ;;
      addEventListener (NodeT h) mousemove handleMouseMove ;;
      addEventListener (NodeT h) mouseenter onMouseEnter ;;
      addEventListener (NodeT h) mouseleave onMouseLeave
  end.

(** The callback of the reveal observer, for one entry
    [(entry.target, entry.isIntersecting)]. *)
Definition reveal_entry (entry : Node * bool) : M unit :=
  if entry.2 then
    assign_style (Some entry.1) "opacity" (text "1") ;;
    assign_style (Some entry.1) "transform" (text "translateY(0)") ;;
    unobserve revealObserver entry.1
  else mret tt.

Definition setupScrollAnimations : M unit :=
  animatedElements ← querySelectorAll Animated sel_all;
  forEach animatedElements (fun element _ =>
    assign_style (Some element) "opacity" (text "0") ;;
    assign_style (Some element) "transform" (text "translateY(30px)") ;;
    assign_style (Some element) "transition"
      (text "opacity 0.6s ease, transform 0.6s ease") ;;
    observe revealObserver element).

Definition setup3DAnimations : M unit :=
  setupParallaxEffect ;;
  setupScrollAnimations.

(** ** Image optimization *)

Definition image_entry (entry : Node * bool) : M unit :=
  if entry.2 then
    let img := Some entry.1 in
    e ← element img "dataset";
    setAttribute img "src" (default "undefined" (attrs e !! "data-src")) ;;
    classList_remove img "lazy" ;;
    unobserve imageObserver entry.1
  else mret tt.

Definition optimizeFounderImage : M unit :=
  founderImage ← query FounderImg;
  match founderImage with
  | Some _ => assign_style founderImage "objectPosition" (text "top center")
  | None => mret tt
  end.

Definition setupImageOptimization : M unit :=
  images ← querySelectorAll LazyImage (has_attr "data-src");
  forEach images (fun img _ => observe imageObserver img) ;;
  optimizeFounderImage.

(** ** Accessibility *)

Definition setupFocusManagement : M unit :=
  toggle ← query NavToggle;
  menu ← query NavMenu;
  match toggle, menu with
  | Some t, Some _ => addEventListener (NodeT t) keydown onToggleKeydown
  | _, _ => mret tt
  end.

Definition document_keydown (e : Event) : M unit :=
  if String.eqb (key e) "Escape" then
    mobileMenu ← query NavMenu;
    match mobileMenu with
    | Some _ =>
        active ← classList_contains mobileMenu "active";
        if (active : bool) then
          toggle ← query NavToggle;
          closeMobileMenu toggle mobileMenu
        else mret tt
    | None => mret tt
    end
  else mret tt.

Definition setupKeyboardNavigation : M unit :=
  addEventListener DocumentT keydown onDocumentKeydown.

Definition setupReducedMotion : M unit :=
  p ← get;
  if prefersReducedMotion (win p) then
    assign_style (Some Root) "--transition" (text "0.01s") ;;
    assign_style (Some Root) "--transition-fast" (text "0.01s") ;;
    assign_style (Some Root) "--transition-slow" (text "0.01s")
  else mret tt.

Definition setupAccessibility : M unit :=
  setupFocusManagement ;;
  setupKeyboardNavigation ;;
  setupReducedMotion.

(** ** Utility methods and the remaining listeners *)

Definition animateOnLoad : M unit :=
  classList_add (Some Body) "page-loaded".

Definition load_listener : M unit :=
  classList_add (Some Body) "loaded" ;;
  animateOnLoad.

Definition handleResize : M unit :=
  toggle ← query NavToggle;
  menu ← query NavMenu;
  p ← get;
  if Z.ltb 768 (innerWidth (win p)) then
    match menu with
    | Some _ => closeMobileMenu toggle menu
    | None => mret tt
    end
  else mret tt.

Definition resize_listener : M unit :=
  p ← get;
  clearTimeout (resizeTimeout (vars p)) ;;
  id ← setTimeout resizeLater 250;
  modify (with_vars (set_resizeTimeout (Some id))).

Definition setupEventListeners : M unit :=
  setupMobileNavigation ;;
  setupHeaderScroll ;;
  addEventListener WindowT load onLoad ;;
  addEventListener WindowT resize onResize.

Definition init : M unit :=
  setupEventListeners ;;
  setupIntersectionObserver ;;
  setupSmoothScrolling ;;
  setupFormHandling ;;
  setup3DAnimations ;;
  setupAccessibility ;;
  setupImageOptimization.

(** * The browser: event dispatch and scheduling *)

Definition listeners_on (t : EventTarget) (ty : EventType)
  (ls : list Listener) : list Handler :=
  handler <$> filter (fun l => target l = t ∧ type l = ty) ls.

(** Bubbling order for an event whose target chain is [path]. *)
Definition bubble (path : list Node) : list EventTarget :=
  (NodeT <$> path) ++ [DocumentT; WindowT].

(** Delivery of an event at one target of its path: the listeners
    registered there run in registration order, unless propagation was
    stopped before. *)
Definition deliver (run : Handler -> M unit) (ty : EventType) (w : World)
  (t : EventTarget) : World :=
  if stopped (browser (page w)) then w
  else foldl (fun w h => exec (run h) w) w
         (listeners_on t ty (listeners (browser (page w)))).

Fixpoint propagate (run : Handler -> M unit) (ty : EventType)
  (targets : list EventTarget) : M unit :=
  match targets with
  | [] => mret tt
  | t :: rest =>
      p ← get;
      if stopped (browser p) then mret tt
      else
        forEach (listeners_on t ty (listeners (browser p)))
          (fun h _ => isolated (run h)) ;;
        propagate run ty rest
  end.

(** Dispatch of one event object; the propagation flag belongs to the
    event, so a nested dispatch leaves the outer one's flag alone. *)
Definition dispatch_with (run : Handler -> Event -> M unit)
  (ty : EventType) (targets : list EventTarget) (e : Event) : M unit :=
  p ← get;
  let outer := stopped (browser p) in
  modify (with_browser (set_stopped false)) ;;
  propagate (fun h => run h e) ty targets ;;
  modify (with_browser (set_stopped outer)).

Fixpoint chain_from (n : Node) (path : list Node) : list Node :=
  match path with
  | [] => [n]
  | x :: rest => if bool_decide (x = n) then path else chain_from n rest
  end.

(** [element.click()]: a synchronous click dispatched at the element. *)
Definition element_click (run : Handler -> Event -> M unit) (r : Ref)
  (e : Event) : M unit :=
  n ← deref r "click";
  let chain := chain_from n (path e) in
  dispatch_with run click (bubble chain)
    {| path := chain; key := ""; clientX := 0; clientY := 0;
       heroRect := heroRect e |}.

(** The body of each listener.  The script nests dispatches one level
    deep ([navToggle.click()] inside the toggle's keydown listener);
    [depth] bounds the nesting. *)
Fixpoint run_handler (depth : nat) (h : Handler) (e : Event) : M unit :=
  match h with
  | onLoad => load_listener
  | onResize => resize_listener
  | onToggleClick => toggle_click
  | onNavLinkClick => nav_link_click
  | onOutsideClick => outside_click e
  | onEscape => escape_keydown e
  | onScroll => scroll_listener
  | onAnchorClick link => anchor_click (Some link)
  | onSubmit => submit_listener
  | onBlur field => _ ← validateField (Some field); mret tt
  | onInput field => clearFieldError (Some field)
  | handleMouseMove => mouse_move e
  | onMouseEnter => mouse_enter
  | onMouseLeave => mouse_leave
  | onToggleKeydown =>
      if String.eqb (key e) "Enter" || String.eqb (key e) " " then
        preventDefault ;;
        match depth with
        | O => mret tt
        | S d => element_click (run_handler d) navToggle e
        end
      else mret tt
  | onDocumentKeydown => document_keydown e
  end.

Definition dispatch (ty : EventType) (targets : list EventTarget)
  (e : Event) : M unit :=
  dispatch_with (run_handler 1) ty targets e.

Definition run_frame_callback (cb : FrameCallback) : M unit :=
  match cb with
  | updateHeader => run_updateHeader
  | updateParallax => run_updateParallax
  end.

Definition run_timer_callback (cb : TimerCallback) : M unit :=
  match cb with
  | resizeLater => handleResize
  | hideStatus element => assign_className (Some element) ["form-status"]
  end.

Definition run_observer_callback (o : Observer)
  (entries : list (Node * bool)) : M unit :=
  match o with
  | sectionObserver =>
      navLinks ← querySelectorAll Link sel_nav_link;
      forEach entries (fun entry _ => section_entry navLinks entry)
  | revealObserver => forEach entries (fun entry _ => reveal_entry entry)
  | imageObserver => forEach entries (fun entry _ => image_entry entry)
  end.

Definition zero_rect : Rect :=
  {| r_left := 0; r_top := 0; r_width := 0; r_height := 0 |}.
Definition plain_event (path : list Node) (key : string) : Event :=
  {| path := path; key := key; clientX := 0; clientY := 0;
     heroRect := zero_rect |}.

(** What the browser can do to the page. *)
Inductive BrowserEvent :=
| Click (path : list Node)
| Keydown (key : string) (path : list Node)
| Scroll (y : float)
| AnimationFrame
| Timeout (id : nat)
| Load
| Resize (width : Z)
| Blur (i : nat)
| Input (i : nat) (v : string)
| Submit
| FetchSettled (o : FetchOutcome)
| MouseEnter
| MouseMove (x y : float) (r : Rect)
| MouseLeave
| Intersection (o : Observer) (entries : list (Node * bool)).

Definition react (ev : BrowserEvent) : M unit :=
  match ev with
  | Click path => dispatch click (bubble path) (plain_event path "")
  | Keydown k path => dispatch keydown (bubble path) (plain_event path k)
  | Scroll y =>
      modify (with_win (set_scrollY y)) ;;
      dispatch scroll [WindowT] (plain_event [] "")
  | AnimationFrame =>
      p ← get;
      modify (with_browser (fun b => set_frames [] (nextFrame b) b)) ;;
      forEach (frames (browser p))
        (fun f _ => isolated (run_frame_callback f.2))
  | Timeout id =>
      p ← get;
      match filter (fun t => t.1 = id) (timers (browser p)) with
      | t :: _ =>
          modify (with_browser (fun b =>
            set_timers (filter (fun t => t.1 ≠ id) (timers b))
              (nextTimer b) b)) ;;
          isolated (run_timer_callback t.2)
      | [] => mret tt
      end
  | Load => dispatch load [WindowT] (plain_event [] "")
  | Resize width =>
      modify (with_win (set_innerWidth width)) ;;
      dispatch resize [WindowT] (plain_event [] "")
  | Blur i => dispatch blur [NodeT (Nth Field i)] (plain_event [Nth Field i] "")
  | Input i v =>
      modify (with_doc (alter_el (set_value v) (Nth Field i))) ;;
      dispatch input (bubble [Nth Field i]) (plain_event [Nth Field i] "")
  | Submit =>
      dispatch submit (bubble [One ContactForm])
        (plain_event [One ContactForm] "")
  | FetchSettled o =>
      p ← get;
      match pending (browser p) with
      | k :: rest =>
          modify (with_browser (set_pending rest)) ;;
          isolated (handleFormSubmission_resume k o)
      | [] => mret tt
      end
  | MouseEnter =>
      dispatch mouseenter [NodeT (One Hero)] (plain_event [One Hero] "")
  | MouseMove x y r =>
      dispatch mousemove (bubble [One Hero])
        {| path := [One Hero]; key := ""; clientX := x; clientY := y;
           heroRect := r |}
  | MouseLeave =>
      dispatch mouseleave [NodeT (One Hero)] (plain_event [One Hero] "")
  | Intersection o entries =>
      p ← get;
      isolated (run_observer_callback o
        (filter (fun en => en.1 ∈ targets_of o (browser p)) entries))
  end.

Definition step (ev : BrowserEvent) (w : World) : World := (react ev w).2.

Definition run (evs : list BrowserEvent) (w : World) : World :=
  foldl (fun w ev => step ev w) w evs.

(** [document.addEventListener('DOMContentLoaded', () => new
    LCGlobalEnterprises())]: the page as the browser delivers it, with no
    listener registered and nothing scheduled, and the constructor run on
    it. *)
Definition fresh (d : Document) (win : Window) : World :=
  {| page := {| doc := d; win := win;
                vars := {| lastScrollY := 0; ticking := false;
                           resizeTimeout := None; mouseX := 0;
                           mouseY := 0; rafId := None |};
                browser := {| frames := []; nextFrame := 1; timers := [];
                              nextTimer := 1; pending := [];
                              listeners := []; stopped := false;
                              sectionTargets := []; revealTargets := [];
                              imageTargets := [] |} |};
     effects := [] |}.

Definition boot (d : Document) (win : Window) : World :=
  (isolated init (fresh d win)).2.

End Controller.

(** * A sample page

    A concrete document with every element the script looks for, used to
    evaluate the model. *)
Module Sample.

Definition el (cls : list string) (ats : list (string * string))
  : Element :=
  {| attrs := list_to_map ats; classList := cls; style := ∅;
     textContent := ""; value := ""; defaultValue := "";
     disabled := false; offsetTop := 0; offsetHeight := 0 |}.

Definition sized (top height : Z) (e : Element) : Element :=
  {| attrs := attrs e; classList := classList e; style := style e;
     textContent := textContent e; value := value e;
     defaultValue := defaultValue e; disabled := disabled e;
     offsetTop := top; offsetHeight := height |}.

Definition has_at (s : string) : bool :=
  existsb (fun c => Ascii.eqb c "@"%char) (list_ascii_of_string s).

(** A small constraint validation: required controls must be non-empty,
    email controls must contain an [@]. *)
Definition validity (e : Element) : ValidityState :=
  let missing := has_attr "required" e && String.eqb (value e) "" in
  let mismatch :=
    bool_decide (attrs e !! "type" = Some "email")
    && negb (String.eqb (value e) "") && negb (has_at (value e)) in
  {| valid := negb missing && negb mismatch;
     valueMissing := missing; typeMismatch := mismatch |}.

Definition singles : list (Single * Element) :=
  [(NavToggle, el ["nav-toggle"] [("aria-expanded", "false")]);
   (NavMenu, el ["nav-menu"] []);
   (SiteHeader, sized 0 80 (el ["site-header"] []));
   (ContactForm, el [] [("action", "https://formspree.io/f/sample")]);
   (FormStatus, el ["form-status"] []);
   (SubmitBtn, el ["btn-submit"] []);
   (Hero, el ["hero"] []);
   (FounderImg, el [] [])].

Definition families : list (Multi * list Element) :=
  [(Link, [el ["nav-link"] [("href", "#about")];
           el ["nav-link"] [("href", "#contact")];
           el ["logo"] [("href", "#")]]);
   (Section, [sized 600 400 (el [] [("id", "about")]);
              sized 1000 400 (el [] [("id", "contact")])]);
   (Field, [el [] [("name", "name"); ("required", ""); ("type", "text")];
            el [] [("name", "email"); ("required", ""); ("type", "email")];
            el [] [("name", "message")]]);
   (ErrorMessage, [el ["error-message"] []; el ["error-message"] []]);
   (Orb, [el ["floating-orb"] []; el ["floating-orb"] []]);
   (Cube, [el ["floating-cube"] []]);
   (Animated, [el ["card"] []; el ["service-card"] []]);
   (LazyImage, [el ["lazy"] [("data-src", "team.png")]])].

Definition document : Document :=
  {| body := el [] []; root := el [] [];
     single := list_to_map singles;
     multi := list_to_map families;
     errorMessageOf := list_to_map [(0, 0); (1, 1)]%nat |}.

Definition without (s : Single) (d : Document) : Document :=
  {| body := body d; root := root d; single := delete s (single d);
     multi := multi d; errorMessageOf := errorMessageOf d |}.

(** The URL parser of the sample: an absolute https URL is itself, and
    anything else is a path below the base of the document. *)
Definition resolve (u : string) : string :=
  if String.prefix "https://" u then u
  else String.append "https://example.org/" u.

Definition window : Window :=
  {| scrollY := 0; innerWidth := 1024; prefersReducedMotion := false;
     documentURL := "https://example.org/";
     parseURL := resolve |}.

Definition world : World := boot document window.

End Sample.

(** * Vocabulary of the properties

    The predicates, relations and derived quantities in which the
    properties below are stated. *)

(** ** Frame conditions *)

(** [respects R m]: running [m] takes every world to one related to it
    by [R]. *)
Definition respects (R : relation World) {A} (m : M A) : Prop :=
  ∀ w, R w (m w).2.

(** [stable w w']: the same listeners are registered and the same
    elements exist in [w'] as in [w]. *)
Definition stable (w w' : World) : Prop :=
  listeners (browser (page w')) = listeners (browser (page w))
  ∧ ∀ n, is_Some (get_el n (doc (page w'))) ↔
         is_Some (get_el n (doc (page w))).

(** ** The listeners the constructor registers *)

(** A registration. *)
Definition L (t : EventTarget) (ty : EventType) (h : Handler) : Listener :=
  {| target := t; type := ty; handler := h |}.

(** Whether the document has the element a selector denotes. *)
Definition has (s : Single) (d : Document) : bool :=
  match single d !! s with Some _ => true | None => false end.

Definition nav_links (d : Document) : list Node :=
  select_from Link sel_nav_link 0 (family Link d).

Definition hash_anchors (d : Document) : list Node :=
  select_from Link sel_hash_anchor 0 (family Link d).

Definition required_fields (d : Document) : list Node :=
  select_from Field sel_required 0 (family Field d).

(** The listeners [init] registers on a document, in registration order. *)
Definition wiring (d : Document) : list Listener :=
  (if has NavToggle d && has NavMenu d then
     [L (NodeT (One NavToggle)) click onToggleClick]
     ++ (nav_links d ≫= fun link => [L (NodeT link) click onNavLinkClick])
     ++ [L DocumentT click onOutsideClick; L DocumentT keydown onEscape]
   else [])
  ++ (if has SiteHeader d then [L WindowT scroll onScroll] else [])
  ++ [L WindowT load onLoad; L WindowT resize onResize]
  ++ (hash_anchors d ≫= fun link =>
        [L (NodeT link) click (onAnchorClick link)])
  ++ (if has ContactForm d then
        (required_fields d ≫= fun field =>
           [L (NodeT field) blur (onBlur field);
            L (NodeT field) input (onInput field)])
        ++ [L (NodeT (One ContactForm)) submit onSubmit]
      else [])
  ++ (if has Hero d then
        [L (NodeT (One Hero)) mousemove handleMouseMove;
         L (NodeT (One Hero)) mouseenter onMouseEnter;
         L (NodeT (One Hero)) mouseleave onMouseLeave]
      else [])
  ++ (if has NavToggle d && has NavMenu d then
        [L (NodeT (One NavToggle)) keydown onToggleKeydown]
      else [])
  ++ [L DocumentT keydown onDocumentKeydown].

(** [keeps d d']: what the registrations depend on is the same in [d']. *)
Definition keeps (d d' : Document) : Prop :=
  (∀ s, has s d' = has s d)
  ∧ family Link d' = family Link d
  ∧ family Field d' = family Field d.

(** [registers m reg]: [m] returns normally and appends [reg d] to the
    listeners, where [d] is the document it starts from. *)
Definition registers (m : M unit) (reg : Document -> list Listener)
  : Prop :=
  ∀ w, (m w).1 = Ret tt
     ∧ listeners (browser (page (m w).2)) =
       listeners (browser (page w)) ++ reg (doc (page w))
     ∧ keeps (doc (page w)) (doc (page (m w).2)).

(** Computations that register nothing. *)
Definition quiet (w w' : World) : Prop :=
  listeners (browser (page w')) = listeners (browser (page w))
  ∧ keeps (doc (page w)) (doc (page w')).

Definition returns (m : M unit) : Prop := ∀ w, (m w).1 = Ret tt.

Definition reg_nav (d : Document) : list Listener :=
  if has NavToggle d && has NavMenu d then
    [L (NodeT (One NavToggle)) click onToggleClick]
    ++ (nav_links d ≫= fun link => [L (NodeT link) click onNavLinkClick])
    ++ [L DocumentT click onOutsideClick; L DocumentT keydown onEscape]
  else [].

(** Computations that always return. *)
Definition total {A} (m : M A) : Prop := ∀ w, ∃ a, (m w).1 = Ret a.

Definition reg_header (d : Document) : list Listener :=
  if has SiteHeader d then [L WindowT scroll onScroll] else [].

Definition reg_anchors (d : Document) : list Listener :=
  hash_anchors d ≫= fun link => [L (NodeT link) click (onAnchorClick link)].

Definition reg_form (d : Document) : list Listener :=
  if has ContactForm d then
    (required_fields d ≫= fun field =>
       [L (NodeT field) blur (onBlur field);
        L (NodeT field) input (onInput field)])
    ++ [L (NodeT (One ContactForm)) submit onSubmit]
  else [].

Definition reg_hero (d : Document) : list Listener :=
  if has Hero d then
    [L (NodeT (One Hero)) mousemove handleMouseMove;
     L (NodeT (One Hero)) mouseenter onMouseEnter;
     L (NodeT (One Hero)) mouseleave onMouseLeave]
  else [].

Definition reg_focus (d : Document) : list Listener :=
  if has NavToggle d && has NavMenu d then
    [L (NodeT (One NavToggle)) keydown onToggleKeydown]
  else [].

(** ** The mobile menu *)

Definition set_aria_expanded_false (e : Element) : Element :=
  set_attrs (<["aria-expanded" := "false"]> (attrs e)) e.

Definition remove_active (e : Element) : Element :=
  set_classList (remove_class "active" (classList e)) e.

Definition clear_overflow (e : Element) : Element :=
  set_style (<["overflow" := text ""]> (style e)) e.

(** The document after [closeMobileMenu(toggle, menu)] has run to its
    end on two elements. *)
Definition close_doc (toggle menu : Node) (d : Document) : Document :=
  alter_el clear_overflow Body
    (alter_el remove_active menu
       (alter_el set_aria_expanded_false toggle d)).

Definition closed_doc : Document -> Document :=
  close_doc (One NavToggle) (One NavMenu).

Definition closed_page (p : Page) : Page := with_doc closed_doc p.

(** The closed state of the menu. *)
Definition closed (d : Document) : Prop :=
  ∃ t m, single d !! NavToggle = Some t ∧ single d !! NavMenu = Some m
       ∧ attrs t !! "aria-expanded" = Some "false"
       ∧ has_class "active" (classList m) = false
       ∧ style (body d) !! "overflow" = Some (text "").

(** The open state of the menu: the panel has the class 'active'. *)
Definition menu_active (d : Document) : Prop :=
  ∃ m, single d !! NavMenu = Some m
       ∧ has_class "active" (classList m) = true.

(** A listener settles the menu when it either leaves the page as it is
    or leaves it as [closeMobileMenu] would. *)
Definition settles (w w' : World) : Prop :=
  page w' = page w ∨ page w' = closed_page (page w).

(** The listeners that can only dismiss the menu, for a given event. *)
Definition dismissing (e : Event) (h : Handler) : bool :=
  match h with
  | onNavLinkClick | onAnchorClick _ | onOutsideClick | onEscape
  | onDocumentKeydown => true
  | onToggleKeydown =>
      negb (String.eqb (key e) "Enter" || String.eqb (key e) " ")
  | _ => false
  end.

(** ** The contact form *)

Definition set_aria_invalid (v : string) (e : Element) : Element :=
  set_attrs (<["aria-invalid" := v]> (attrs e)) e.

Definition set_opacity (v : string) (e : Element) : Element :=
  set_style (<["opacity" := text v]> (style e)) e.

(** The network requests among the effects. *)
Definition fetches (fx : list Effect) : list Request :=
  omap (fun e => match e with Fetch r => Some r | _ => None end) fx.

(** [offline w w']: nothing was sent between [w] and [w']. *)
Definition offline (w w' : World) : Prop :=
  fetches (effects w') = fetches (effects w).

(** The element a reference denotes in a world. *)
Definition the (n : Node) (w : World) : Element :=
  default blank (get_el n (doc (page w))).

Definition field_message (validity : Element -> ValidityState)
  (f : Element) : string :=
  if valueMissing (validity f) then "This field is required"
  else if typeMismatch (validity f) then
    if bool_decide (attrs f !! "type" = Some "email")
    then "Please enter a valid email address"
    else ""
  else "".

(** What the validation loop computes: the conjunction of the fields'
    validities as they were when the loop started. *)
Definition all_valid (validity : Element -> ValidityState)
  (fields : list Node) (w : World) : bool :=
  forallb (fun n => valid (validity (the n w))) fields.

(** The status region shows [message] with the class of [type]. *)
Definition shows (message type : string) (d : Document) : Prop :=
  ∃ s, single d !! FormStatus = Some s
       ∧ textContent s = message ∧ classList s = ["form-status"; type].

(** The loading state of the submit button: its disabled flag and its
    'loading' class are both [b]. *)
Definition loading (b : bool) (d : Document) : Prop :=
  ∃ btn, single d !! SubmitBtn = Some btn
         ∧ disabled btn = b ∧ has_class "loading" (classList btn) = b.

(** A control after [form.reset()]. *)
Definition reset_value (e : Element) : Element :=
  set_value (defaultValue e) e.

(** The outcome-specific part of the continuation. *)
Definition settled (o : FetchOutcome) (w w' : World) : Prop :=
  match o with
  | Resolved status =>
      if response_ok status then
        (has FormStatus (doc (page w)) = true →
         shows msg_success "success" (doc (page w')))
        ∧ family Field (doc (page w')) =
          reset_value <$> family Field (doc (page w))
      else
        has FormStatus (doc (page w)) = true →
        shows msg_failure "error" (doc (page w'))
  | Rejected =>
      has FormStatus (doc (page w)) = true →
      shows msg_failure "error" (doc (page w'))
  end.

Definition entry (e : Element)
  : bool * option string * option string * string :=
  (disabled e, attrs e !! "name", attrs e !! "action", value e).

Definition keeps_data (w w' : World) : Prop :=
  ∀ n, n ≠ One SubmitBtn →
    entry <$> get_el n (doc (page w')) = entry <$> get_el n (doc (page w)).

(** The world in which the listeners of an event run, and the world the
    dispatch leaves. *)
Definition entering (w : World) : World :=
  {| page := with_browser (set_stopped false) (page w);
     effects := effects w |}.

Definition leaving (w w' : World) : World :=
  {| page := with_browser (set_stopped (stopped (browser (page w))))
               (page w');
     effects := effects w' |}.

(** [awaits w w']: the same requests are in flight in [w'] as in [w]. *)
Definition awaits (w w' : World) : Prop :=
  pending (browser (page w')) = pending (browser (page w)).

(** [keeps_pointer w w']: the stored pointer position is in [w'] what it
    is in [w]. *)
Definition keeps_pointer (w w' : World) : Prop :=
  mouseX (vars (page w')) = mouseX (vars (page w))
  ∧ mouseY (vars (page w')) = mouseY (vars (page w)).

Definition is_mouse_move (ev : BrowserEvent) : bool :=
  match ev with MouseMove _ _ _ => true | _ => false end.

(** [same_window w w']: the window is in [w'] as it is in [w]. *)
Definition same_window (w w' : World) : Prop :=
  win (page w') = win (page w).

(** A control after a validation that found every required field valid:
    a required control carries [aria-invalid] 'false', and nothing else
    has changed. *)
Definition validated (e : Element) : Element :=
  if sel_required e then set_aria_invalid "false" e else e.

(** The request a submission in world [w] sends: a POST to [form.action]
    whose body is the [FormData] of the form, built after the validation
    of its controls. *)
Definition submission_request (w : World) : Request :=
  {| url := form_action (win (page w)) (the (One ContactForm) w);
     method := "POST";
     payload := FormData (validated <$> family Field (doc (page w)));
     headers := [("Accept", "application/json")] |}.

(** What a submission leaves waiting for the response. *)
Definition submission_continuation (d : Document) : Continuation :=
  {| k_form := Some (One ContactForm);
     k_submitBtn := Some (One SubmitBtn);
     k_formStatus :=
       if has FormStatus d then Some (One FormStatus) else None |}.

(** A continuation is sound in a world when it holds the references
    [handleFormSubmission] obtained on a page with the same elements. *)
Definition sound (w : World) (k : Continuation) : Prop :=
  k_form k = Some (One ContactForm)
  ∧ k_submitBtn k = Some (One SubmitBtn)
  ∧ has SubmitBtn (doc (page w)) = true
  ∧ k_formStatus k = (if has FormStatus (doc (page w))
                      then Some (One FormStatus) else None).

Definition in_flight_sound (w : World) : Prop :=
  ∀ k, k ∈ pending (browser (page w)) → sound w k.

Definition flight (w w' : World) : Prop :=
  stable w w' ∧ (in_flight_sound w → in_flight_sound w').

(** ** Animation frames *)

Definition header_frames (fs : list (nat * FrameCallback))
  : list (nat * FrameCallback) :=
  filter (fun f => f.2 = updateHeader) fs.

Definition parallax_frames (fs : list (nat * FrameCallback))
  : list (nat * FrameCallback) :=
  filter (fun f => f.2 = updateParallax) fs.

(** The frame requests and the variables that guard them agree.  [batch]
    holds the callbacks of the current frame that have not run yet; between
    events it is empty. *)
Definition scheduled (batch : list (nat * FrameCallback)) (w : World)
  : Prop :=
  let b := browser (page w) in
  let v := vars (page w) in
  (1 ≤ nextFrame b)%nat
  ∧ (length (header_frames batch) + length (header_frames (frames b)) =
     if ticking v then 1 else 0)%nat
  ∧ (length (parallax_frames batch) + length (parallax_frames (frames b))
     ≤ 1)%nat
  ∧ (∀ f, f ∈ frames b → (f.1 < nextFrame b)%nat)
  ∧ (∀ id, rafId v = Some id → (1 ≤ id < nextFrame b)%nat)
  ∧ (∀ id cb, (id, cb) ∈ frames b →
       cb = updateParallax ↔ rafId v = Some id).

(** The part of the page [scheduled] reads. *)
Definition schedule (p : Page)
  : list (nat * FrameCallback) * nat * bool * option nat :=
  (frames (browser p), nextFrame (browser p), ticking (vars p),
   rafId (vars p)).

Definition keeps_schedule (w w' : World) : Prop :=
  scheduled [] w → scheduled [] w'.

Definition set_style_property (prop : string) (v : Value) (e : Element)
  : Element :=
  set_style (<[prop := v]> (style e)) e.

(** The document after [xs.forEach(x => x.style[prop] = v)]. *)
Definition restyled (prop : string) (v : Value) (xs : list Node)
  (d : Document) : Document :=
  foldl (fun d x => alter_el (set_style_property prop v) x d) d xs.

Definition orbs_of (d : Document) : list Node :=
  select_from Orb sel_all 0 (family Orb d).

Definition cubes_of (d : Document) : list Node :=
  select_from Cube sel_all 0 (family Cube d).

Definition same_schedule (w w' : World) : Prop :=
  schedule (page w') = schedule (page w).

(** The world in which the callbacks of a frame run: the queue has been
    taken. *)
Definition frame_start (w : World) : World :=
  {| page := with_browser
               (fun b => set_frames [] (nextFrame b) b) (page w);
     effects := effects w |}.

(** The constructor requests no frame and leaves the guards unset. *)
Definition idle (w w' : World) : Prop :=
  frames (browser (page w')) = frames (browser (page w))
  ∧ nextFrame (browser (page w')) = nextFrame (browser (page w))
  ∧ (ticking (vars (page w)) = false → ticking (vars (page w')) = false)
  ∧ (rafId (vars (page w)) = None → rafId (vars (page w')) = None).

(** [guarded w w']: a set guard is still set. *)
Definition guarded (w w' : World) : Prop :=
  ticking (vars (page w)) = true → ticking (vars (page w')) = true.

(** The writes of [updateHeader] to the header's transform, in an effect
    log. *)
Definition is_header_update (e : Effect) : bool :=
  match e with
  | DomWrite (One SiteHeader) prop _ => String.eqb prop "style.transform"
  | _ => false
  end.

Definition header_updates (fx : list Effect) : nat :=
  length (List.filter is_header_update fx).

Definition no_header_update (w w' : World) : Prop :=
  header_updates (effects w') = header_updates (effects w).

(** ** Reveal on scroll *)

(** The reveal writes to the [i]-th animated element, in an effect log. *)
Definition is_reveal (i : nat) (e : Effect) : bool :=
  match e with
  | DomWrite n prop (text v) =>
      (String.eqb prop "style.opacity" && String.eqb v "1")
      && bool_decide (n = Nth Animated i)
  | _ => false
  end.

Definition reveals (i : nat) (fx : list Effect) : nat :=
  length (List.filter (is_reveal i) fx).

(** An element in its revealed state: no longer observed, fully opaque and
    at its natural position. *)
Definition revealed (n : Node) (w : World) : Prop :=
  (n ∉ revealTargets (browser (page w)))
  ∧ ∀ e, get_el n (doc (page w)) = Some e →
         style e !! "opacity" = Some (text "1")
         ∧ style e !! "transform" = Some (text "translateY(0)").

(** An element in the state [setupScrollAnimations] gives it: transparent
    and shifted down, with the transition declared. *)
Definition concealed (n : Node) (w : World) : Prop :=
  ∀ e, get_el n (doc (page w)) = Some e →
       style e !! "opacity" = Some (text "0")
       ∧ style e !! "transform" = Some (text "translateY(30px)")
       ∧ style e !! "transition" =
         Some (text "opacity 0.6s ease, transform 0.6s ease").

(** The [i]-th animated element before its reveal: observed, concealed,
    and without a reveal write so far. *)
Definition unrevealed (i : nat) (w : World) : Prop :=
  Nth Animated i ∈ revealTargets (browser (page w))
  ∧ concealed (Nth Animated i) w
  ∧ reveals i (effects w) = 0%nat.

(** [quiet_reveal w w']: between [w] and [w'] the reveal observer's
    targets, the style of the [i]-th animated element and the reveal
    writes to it are the same. *)
Definition quiet_reveal (i : nat) (w w' : World) : Prop :=
  revealTargets (browser (page w')) = revealTargets (browser (page w))
  ∧ style <$> get_el (Nth Animated i) (doc (page w')) =
    style <$> get_el (Nth Animated i) (doc (page w))
  ∧ reveals i (effects w') = reveals i (effects w).

(** [no_replay w w']: an element that was unobserved in [w] is unobserved
    in [w'], with the same style and no further reveal; and an element
    still observed in [w'] was observed in [w] and has not been revealed in
    between. *)
Definition no_replay (i : nat) (w w' : World) : Prop :=
  (Nth Animated i ∉ revealTargets (browser (page w)) →
   (Nth Animated i ∉ revealTargets (browser (page w')))
   ∧ style <$> get_el (Nth Animated i) (doc (page w')) =
     style <$> get_el (Nth Animated i) (doc (page w))
   ∧ reveals i (effects w') = reveals i (effects w))
  ∧ (Nth Animated i ∈ revealTargets (browser (page w')) →
     Nth Animated i ∈ revealTargets (browser (page w))
     ∧ reveals i (effects w') = reveals i (effects w)).

(** What the reveal observer is handed: the entries of observed targets. *)
Definition delivered (entries : list (Node * bool)) (w : World)
  : list (Node * bool) :=
  filter (fun en => en.1 ∈ revealTargets (browser (page w))) entries.

(** The constructor reveals nothing: it hides the animated elements. *)
Definition same_reveals (i : nat) (w w' : World) : Prop :=
  reveals i (effects w') = reveals i (effects w).

(** ** Timers *)

#[export] Instance TimerCallback_eq_dec : EqDecision TimerCallback.
Proof. solve_decision. Defined.

(** The pending [handleResize] timers. *)
Definition resize_timers (ts : list (nat * TimerCallback))
  : list (nat * TimerCallback) :=
  filter (fun t => t.2 = resizeLater) ts.

(** The timer queue and the variable that guards it agree: ids are below
    the next id, every pending [handleResize] timer is the one stored in
    [resizeTimeout], there is at most one, and the status timers hide the
    status region. *)
Definition tidy (w : World) : Prop :=
  let b := browser (page w) in
  let v := vars (page w) in
  (∀ t, t ∈ timers b → (t.1 < nextTimer b)%nat)
  ∧ (∀ id, resizeTimeout v = Some id → (id < nextTimer b)%nat)
  ∧ (∀ id cb, (id, cb) ∈ timers b →
       cb = resizeLater ↔ resizeTimeout v = Some id)
  ∧ (length (resize_timers (timers b)) ≤ 1)%nat
  ∧ (∀ id el, (id, hideStatus el) ∈ timers b → el = One FormStatus).

(** The part of the page [tidy] reads. *)
Definition timer_state (p : Page)
  : list (nat * TimerCallback) * nat * option nat :=
  (timers (browser p), nextTimer (browser p), resizeTimeout (vars p)).

Definition keeps_tidy (w w' : World) : Prop := tidy w → tidy w'.

Definition same_timers (w w' : World) : Prop :=
  timer_state (page w') = timer_state (page w).

(** The world a timer's callback runs in: the timer has left the queue. *)
Definition timer_taken (id : nat) (w : World) : World :=
  {| page := with_browser
       (fun b => set_timers (filter (fun t => t.1 ≠ id) (timers b))
                   (nextTimer b) b) (page w);
     effects := effects w |}.

(** ** The status message *)

(** Whether a settled request counts as a success: a response whose status
    is in the 2xx range. *)
Definition succeeded (o : FetchOutcome) : bool :=
  match o with
  | Resolved status => response_ok status
  | Rejected => false
  end.

(** ** The state of the mobile menu *)

(** The three places the script keeps the menu's state in: the toggle's
    [aria-expanded] attribute, the panel's class 'active' and the body's
    inline [overflow]. *)
Definition menu_expanded (d : Document) : bool :=
  bool_decide
    (attrs (default blank (get_el (One NavToggle) d)) !! "aria-expanded"
     = Some "true").

Definition menu_shown (d : Document) : bool :=
  has_class "active" (classList (default blank (get_el (One NavMenu) d))).

Definition scroll_locked (d : Document) : bool :=
  match style (body d) !! "overflow" with
  | Some (text s) => String.eqb s "hidden"
  | _ => false
  end.

(** The three agree: the toggle reads as expanded and the page does not
    scroll exactly when the panel is shown. *)
Definition menu_consistent (d : Document) : Prop :=
  menu_expanded d = menu_shown d ∧ scroll_locked d = menu_shown d.

Definition menu_ready (d : Document) : Prop :=
  has NavToggle d = true ∧ has NavMenu d = true.

Definition keeps_menu (w w' : World) : Prop :=
  menu_ready (doc (page w)) ∧ menu_consistent (doc (page w)) →
  menu_ready (doc (page w')) ∧ menu_consistent (doc (page w')).

(** The document after [toggleMobileMenu(navToggle, navMenu)]. *)
Definition toggled_doc (d : Document) : Document :=
  let d1 :=
    alter_el
      (fun e => set_attrs
         (<["aria-expanded" := if menu_expanded d then "false" else "true"]>
            (attrs e)) e)
      (One NavToggle) d in
  let d2 :=
    alter_el (fun e => set_classList (toggle_class "active" (classList e)) e)
      (One NavMenu) d1 in
  alter_el
    (fun e => set_style
       (<["overflow" := text (if menu_shown d2 then "hidden" else "")]>
          (style e)) e)
    Body d2.

Definition toggle_writes (d : Document) : list Effect :=
  [DomWrite (One NavToggle) "aria-expanded"
     (text (if menu_expanded d then "false" else "true"));
   DomWrite (One NavMenu) "classList.toggle" (text "active");
   DomWrite Body "style.overflow"
     (text (if menu_shown d then "" else "hidden"))].

(** ** Calls of fetch *)

(** [sends n w w']: [fetch] was called at most [n] times between [w] and
    [w']. *)
Definition sends (n : nat) (w w' : World) : Prop :=
  ∃ rs, fetches (effects w') = fetches (effects w) ++ rs
        ∧ (length rs ≤ n)%nat.

(** The submit events of a history. *)
Definition is_submit (ev : BrowserEvent) : bool :=
  match ev with Submit => true | _ => false end.

Definition submits (evs : list BrowserEvent) : nat :=
  length (List.filter is_submit evs).

(** ** The header *)

(** What [updateHeader] reads and writes. *)
Definition header_view (w : World)
  : option Element * Window * float * bool :=
  (get_el (One SiteHeader) (doc (page w)), win (page w),
   lastScrollY (vars (page w)), ticking (vars (page w))).

Definition keeps_header (w w' : World) : Prop :=
  header_view w' = header_view w.

(** The header element after [updateHeader] has run at scroll position
    [y], the previous update having been at [last]. *)
Definition updated_header (y last : float) (e : Element) : Element :=
  let e1 :=
    set_classList
      ((if PrimFloat.ltb 100 y then add_class "scrolled"
        else remove_class "scrolled") (classList e)) e in
  set_style
    (<["transform" :=
        text (if PrimFloat.ltb last y && PrimFloat.ltb 100 y
              then "translateY(-100%)" else "translateY(0)")]>
       (style e1)) e1.

(** ** Scenarios on the sample page *)

(** The sample page with its menu opened by a click on the toggle. *)
Definition opened : list BrowserEvent := [Click [One NavToggle]].

(** The sample page with its two required fields filled in. *)
Definition filled : list BrowserEvent :=
  [Input 0 "Ann"; Input 1 "ann@example.org"].

(** The pointer has entered the sample page's hero and moved off centre. *)
Definition hovering : list BrowserEvent :=
  [MouseEnter;
   MouseMove 300 100
     {| r_left := 0; r_top := 0; r_width := 400; r_height := 400 |}].

(** The sample page, its menu opened, then resized to 1024 pixels: the
    pending timer has id 1. *)
Definition resized : list BrowserEvent :=
  [Click [One NavToggle]; Resize 1024].

(** A page with none of the elements the script looks for. *)
Definition bare : Document :=
  {| body := blank; root := blank; single := ∅; multi := ∅;
     errorMessageOf := ∅ |}.

(** * Properties *)

(** ** The element store *)

Lemma family_alter_el f n m d :
  family m (alter_el f n d) =
  match n with
  | Nth m' i => if decide (m' = m) then alter f i (family m d) else family m d
  | _ => family m d
  end.
Proof.
  destruct n as [| |s|m' i]; try reflexivity.
  unfold family, alter_el, multi. rewrite lookup_alter.
  destruct (decide (m' = m)) as [->|]; [|reflexivity].
  destruct (_ !! m); reflexivity.
Qed.

Lemma get_alter_el f n n' d :
  get_el n' (alter_el f n d) =
  if decide (n = n') then f <$> get_el n d else get_el n' d.
Proof.
  destruct n' as [| |s'|m' i']; unfold get_el at 1.
  - destruct n; case_decide; simplify_eq; reflexivity.
  - destruct n; case_decide; simplify_eq; reflexivity.
  - destruct n as [| |s|m i]; case_decide; simplify_eq; try reflexivity.
    + apply lookup_alter_eq.
    + apply lookup_alter_ne. congruence.
  - rewrite family_alter_el.
    destruct n as [| |s|m i]; repeat case_decide; simplify_eq;
      try reflexivity.
    + apply list_lookup_alter_eq.
    + apply list_lookup_alter_ne. congruence.
Qed.

Lemma get_alter_el_eq f n d : get_el n (alter_el f n d) = f <$> get_el n d.
Proof. rewrite get_alter_el. by rewrite decide_True. Qed.

Lemma get_alter_el_ne f n n' d :
  n ≠ n' → get_el n' (alter_el f n d) = get_el n' d.
Proof. intros. rewrite get_alter_el. by rewrite decide_False. Qed.

Lemma errorMessageOf_alter_el f n d :
  errorMessageOf (alter_el f n d) = errorMessageOf d.
Proof. destruct n; reflexivity. Qed.

Lemma alter_el_ext f g n d :
  (∀ e, f e = g e) → alter_el f n d = alter_el g n d.
Proof.
  intros E. destruct n as [| |s|m i]; unfold alter_el; f_equal; auto.
  - apply alter_ext; auto.
  - apply alter_ext. intros l _. apply list_alter_ext; auto.
Qed.

Lemma alter_el_twice f g n d :
  alter_el f n (alter_el g n d) = alter_el (f ∘ g) n d.
Proof.
  destruct n as [| |s|m i]; unfold alter_el; simpl; f_equal.
  - apply alter_alter_eq.
  - rewrite alter_alter_eq. apply alter_ext. intros l _.
    apply list_alter_alter_eq.
Qed.

Lemma alter_el_commute f g n n' d :
  (∀ e, f (g e) = g (f e)) →
  alter_el f n (alter_el g n' d) = alter_el g n' (alter_el f n d).
Proof.
  intros C.
  destruct n as [| |s|m i], n' as [| |s'|m' i']; unfold alter_el; simpl;
    f_equal; auto.
  - destruct (decide (s = s')) as [->|].
    + rewrite !alter_alter_eq. apply alter_ext. intros; apply C.
    + by apply alter_alter_ne.
  - destruct (decide (m = m')) as [->|]; [|by apply alter_alter_ne].
    rewrite !alter_alter_eq. apply alter_ext. intros l _. simpl.
    destruct (decide (i = i')) as [->|]; [|by apply list_alter_alter_ne].
    rewrite !list_alter_alter_eq.
    apply list_alter_ext; [intros; apply C | reflexivity].
Qed.

(** ** Reasoning about computations

    [respects R m] says that running [m] takes every world to one related
    to it by the preorder [R]; it is the shape of every frame condition
    below.  The rules follow the structure of the monad. *)

Section Respects.

Context (R : relation World) `{!PreOrder R}.

Lemma respects_ret {A} (a : A) : respects R (mret a).
Proof. intros w. reflexivity. Qed.

Lemma respects_throw {A} e : respects R (@throw A e).
Proof. intros w. reflexivity. Qed.

Lemma respects_get : respects R get.
Proof. intros w. reflexivity. Qed.

Lemma respects_bind {A B} (m : M A) (k : A -> M B) :
  respects R m →
  (∀ a, (∃ w, (m w).1 = Ret a) → respects R (k a)) →
  respects R (m ≫= k).
Proof.
  intros Hm Hk w. unfold mbind, M_bind.
  specialize (Hm w). destruct (m w) as [[a|e] w1] eqn:E; simpl in *.
  - etransitivity; [exact Hm|]. apply Hk. exists w. by rewrite E.
  - exact Hm.
Qed.

Lemma respects_forEach_from {A} (i : nat) (xs : list A) f :
  (∀ x j, x ∈ xs → respects R (f x j)) →
  respects R (forEach_from i xs f).
Proof.
  revert i. induction xs as [|x xs IH]; intros i H; simpl.
  - apply respects_ret.
  - apply respects_bind.
    + apply H. left.
    + intros _ _. apply IH. intros y j Hy. apply H. by right.
Qed.

Lemma respects_forEach {A} (xs : list A) f :
  (∀ x j, x ∈ xs → respects R (f x j)) → respects R (forEach xs f).
Proof. apply respects_forEach_from. Qed.

Lemma respects_isolated (m : M unit) :
  (∀ e, respects R (emit (Uncaught e))) → respects R m →
  respects R (isolated m).
Proof.
  intros He Hm w. unfold isolated.
  specialize (Hm w). destruct (m w) as [[a|e] w1]; simpl in *; [done|].
  etransitivity; [exact Hm|]. apply He.
Qed.

Lemma respects_try_catch_finally {A} (body : M A) handler cleanup :
  respects R body → (∀ e, respects R (handler e)) → respects R cleanup →
  respects R (try_catch_finally body handler cleanup).
Proof.
  intros Hb Hh Hc w. unfold try_catch_finally.
  specialize (Hb w). destruct (body w) as [[a|e] w1]; simpl in *.
  - specialize (Hc w1). destruct (cleanup w1) as [[?|?] w2]; simpl in *;
      by etransitivity.
  - specialize (Hh e w1). destruct (handler e w1) as [o w2]; simpl in *.
    specialize (Hc w2). destruct (cleanup w2) as [[?|?] w3]; simpl in *;
      (etransitivity; [exact Hb|]); by etransitivity.
Qed.

Lemma respects_propagate run ty targets :
  (∀ e, respects R (emit (Uncaught e))) → (∀ h, respects R (run h)) →
  respects R (propagate run ty targets).
Proof.
  intros He Hr. induction targets as [|t rest IH]; simpl.
  - apply respects_ret.
  - apply respects_bind; [apply respects_get|]. intros p _.
    destruct (stopped (browser p)); [apply respects_ret|].
    apply respects_bind; [|intros _ _; exact IH].
    apply respects_forEach. intros h _ _. by apply respects_isolated.
Qed.

Lemma respects_validate_all validity fields isValid :
  (∀ field, respects R (validateField validity (Some field))) →
  respects R (validate_all validity fields isValid).
Proof.
  intros H. revert isValid.
  induction fields as [|field rest IH]; intros isValid; simpl.
  - apply respects_ret.
  - apply respects_bind; [apply H|]. intros ok _. apply IH.
Qed.

End Respects.

(** Which values the queries can return. *)
Lemma deref_ret r prop n : (∃ w, (deref r prop w).1 = Ret n) → r = Some n.
Proof. intros [w H]. destruct r; simpl in H; congruence. Qed.

Lemma query_ret s a :
  (∃ w, (query s w).1 = Ret a) → a = None ∨ a = Some (One s).
Proof.
  intros [w H]. unfold query, mbind, M_bind, get, mret, M_ret in H.
  simpl in H. destruct (single _ !! s); simplify_eq; auto.
Qed.

Lemma select_from_kind m sel i es x :
  x ∈ select_from m sel i es → ∃ j, x = Nth m j.
Proof.
  revert i. induction es as [|e es IH]; intros i; simpl.
  - intros H. inversion H.
  - rewrite elem_of_app. intros [H|H]; [|by eapply IH].
    destruct (sel e); [|inversion H].
    apply list_elem_of_singleton in H. eauto.
Qed.

Lemma querySelectorAll_ret m sel xs :
  (∃ w, (querySelectorAll m sel w).1 = Ret xs) →
  ∀ x, x ∈ xs → ∃ j, x = Nth m j.
Proof.
  intros [w H] x Hx. unfold querySelectorAll, mbind, M_bind, get in H.
  simpl in H. simplify_eq. by eapply select_from_kind.
Qed.

Lemma errorElementOf_ret field a :
  (∃ w, (errorElementOf field w).1 = Ret a) →
  a = None ∨ ∃ j, a = Some (Nth ErrorMessage j).
Proof.
  intros [w H]. unfold errorElementOf, mbind, M_bind, get in H.
  destruct field as [n|]; simpl in H; [|discriminate].
  destruct n as [| |s|[] i]; simpl in H; simplify_eq; auto.
  destruct (errorMessageOf _ !! i) as [j|]; simpl; auto.
  destruct (family ErrorMessage _ !! j); simpl; eauto.
Qed.

Lemma querySelector_hash_ret href a :
  (∃ w, (querySelector_hash href w).1 = Ret a) →
  a = None ∨ (∃ s, a = Some (One s)) ∨ ∃ j, a = Some (Nth Section j).
Proof.
  intros [w H]. unfold querySelector_hash in H.
  destruct href as [|c id]; [simpl in H; simplify_eq; auto|].
  repeat match type of H with
  | context [if ?b then _ else _] => destruct b
  end;
  try (simpl in H; simplify_eq; auto; fail);
  try (destruct (query_ret _ a (ex_intro _ w H)) as [->| ->]; eauto; fail).
  unfold mbind, M_bind, get in H. simpl in H. simplify_eq.
  destruct (select_from _ _ _ _) as [|x l] eqn:E; simpl; auto.
  assert (∃ j, x = Nth Section j) as [j ->]; [|eauto].
  eapply select_from_kind. rewrite E. left.
Qed.

Ltac head_of t :=
  match t with
  | ?f _ => head_of f
  | _ => t
  end.

(** Uses what is known about a value a computation returned. *)
Ltac track H :=
  match type of H with
  | ∃ _, (deref _ _ _).1 = Ret _ =>
      apply deref_ret in H; simplify_eq
  | ∃ _, (query _ _).1 = Ret _ =>
      apply query_ret in H; destruct H as [->| ->]
  | ∃ _, (querySelectorAll _ _ _).1 = Ret _ =>
      pose proof (querySelectorAll_ret _ _ _ H); clear H
  | ∃ _, (errorElementOf _ _).1 = Ret _ =>
      apply errorElementOf_ret in H; destruct H as [->|[? ->]]
  | ∃ _, (querySelector_hash _ _).1 = Ret _ =>
      apply querySelector_hash_ret in H;
      destruct H as [->|[[? ->]|[? ->]]]
  | _ => clear H
  end.

Ltac track_elem H :=
  match type of H with
  | ?x ∈ ?xs =>
      match goal with
      | K : ∀ y, y ∈ xs → ∃ j, y = Nth _ j |- _ =>
          destruct (K _ H) as [? ->]; clear H
      | _ => clear H
      end
  end.

(** Walks the structure of a computation, leaving the [emit] and [modify]
    leaves to [leaf]. *)
Ltac forget H := clear H.

Ltac respects_walk_with leaf tr :=
  repeat first
    [ leaf
    | match goal with
      | |- PreOrder _ => typeclasses eauto
      | H : context [respects _ (run_handler _ _ _ _)]
        |- respects _ (run_handler _ _ _ _) => solve [apply H]
      | |- respects _ (mret _) => apply respects_ret
      | |- respects _ (throw _) => apply respects_throw
      | |- respects _ get => apply respects_get
      | |- respects _ (mbind _ _) =>
          apply respects_bind;
          [| |let a := fresh "a" in let H := fresh "H" in
              intros a H; tr H]
      | |- respects _ (propagate _ _ _) =>
          apply respects_propagate; [|intros ?|intros ?]
      | |- respects _ (validate_all _ _ _) =>
          apply respects_validate_all; [|intros ?]
      | |- respects _ (forEach _ _) =>
          apply respects_forEach;
          [|let x := fresh "x" in let H := fresh "H" in
            intros x ? H; track_elem H]
      | |- respects _ (forEach_from _ _ _) =>
          apply respects_forEach_from;
          [|let x := fresh "x" in let H := fresh "H" in
            intros x ? H; track_elem H]
      | |- respects _ (isolated _) =>
          apply respects_isolated; [|intros ?|]
      | |- respects _ (try_catch_finally _ _ _) =>
          apply respects_try_catch_finally; [| |intros ?|]
      | |- respects _ (if ?b then _ else _) => destruct b
      | |- respects _ (match ?x with _ => _ end) => destruct x
      | |- respects _ ?m => let h := head_of m in progress unfold h
      end ].

Ltac respects_walk leaf := respects_walk_with leaf track.

(** *** What no listener or callback changes

    After the constructor has run, the registered listeners and the set of
    elements of the document are fixed. *)

#[export] Instance stable_preorder : PreOrder stable.
Proof.
  split.
  - intros w. split; [reflexivity|tauto].
  - intros w1 w2 w3 [H1 H2] [H3 H4]. split; [congruence|].
    intros n. rewrite H4. apply H2.
Qed.

Lemma stable_emit e : respects stable (emit e).
Proof. intros w. split; [reflexivity|tauto]. Qed.

Lemma stable_modify f :
  (∀ p, listeners (browser (f p)) = listeners (browser p)) →
  (∀ p n, is_Some (get_el n (doc (f p))) ↔ is_Some (get_el n (doc p))) →
  respects stable (modify f).
Proof. intros H1 H2 w. split; simpl; auto. Qed.

Lemma is_Some_get_alter_el f n n' d :
  is_Some (get_el n' (alter_el f n d)) ↔ is_Some (get_el n' d).
Proof.
  rewrite get_alter_el. case_decide; [subst|tauto].
  apply fmap_is_Some.
Qed.

Lemma is_Some_get_reset n d :
  is_Some (get_el n
    {| body := body d; root := root d; single := single d;
       multi := alter (fmap (fun e => set_value (defaultValue e) e))
                  Field (multi d);
       errorMessageOf := errorMessageOf d |}) ↔ is_Some (get_el n d).
Proof.
  destruct n as [| |s|m i]; try tauto.
  unfold get_el, family; simpl. rewrite lookup_alter.
  case_decide; [subst|tauto].
  destruct (multi d !! Field); simpl; [|tauto].
  rewrite list_lookup_fmap. apply fmap_is_Some.
Qed.

Ltac stable_leaf :=
  idtac;
  match goal with
  | |- respects stable (emit _) => apply stable_emit
  | |- respects stable (modify _) =>
      apply stable_modify;
      [ intros ?; reflexivity
      | intros ? ?;
        first [ apply is_Some_get_alter_el | apply is_Some_get_reset
              | reflexivity ] ]
  end.

Section Stable.
Variable validity : Element -> ValidityState.

Lemma stable_run_handler depth h e :
  respects stable (run_handler validity depth h e).
Proof.
  revert h e. induction depth as [|d IH]; intros h e.
  - destruct h; cbn [run_handler]; respects_walk_with stable_leaf forget.
  - destruct h; cbn [run_handler]; respects_walk_with stable_leaf forget.
Qed.

Lemma stable_react ev : respects stable (react validity ev).
Proof.
  pose proof (stable_run_handler 1) as H.
  destruct ev; unfold react, dispatch; respects_walk_with stable_leaf forget.
Qed.

Lemma stable_step ev w : stable w (step validity ev w).
Proof. apply stable_react. Qed.

Lemma stable_run evs w : stable w (run validity evs w).
Proof.
  revert w. induction evs as [|ev evs IH]; intros w; simpl.
  - reflexivity.
  - etransitivity; [apply (stable_step ev)|apply IH].
Qed.

End Stable.

(** ** What the constructor registers *)

Lemma keeps_refl d : keeps d d.
Proof. by repeat split. Qed.

Lemma keeps_trans d1 d2 d3 : keeps d1 d2 → keeps d2 d3 → keeps d1 d3.
Proof.
  intros (A1 & A2 & A3) (B1 & B2 & B3). repeat split; congruence.
Qed.

Lemma registers_seq m1 m2 r1 r2 :
  registers m1 r1 → registers m2 r2 →
  (∀ d d', keeps d d' → r2 d' = r2 d) →
  registers (m1 ;; m2) (fun d => r1 d ++ r2 d).
Proof.
  intros H1 H2 Hk w. unfold mbind, M_bind.
  destruct (H1 w) as (E1 & E2 & E3).
  destruct (m1 w) as [o w1]; simpl in *. subst o.
  destruct (H2 w1) as (F1 & F2 & F3).
  split; [exact F1|]. split.
  - rewrite F2, E2, (Hk _ _ E3). by rewrite app_assoc.
  - by eapply keeps_trans.
Qed.

Lemma registers_ext m r r' :
  registers m r → (∀ d, r d = r' d) → registers m r'.
Proof.
  intros H E w. destruct (H w) as (? & ? & ?). rewrite <- E. auto.
Qed.

Ltac run_m :=
  unfold mbind, M_bind, mret, M_ret, get, modify, emit, throw; simpl.

Lemma registers_ret : registers (mret tt) (fun _ => []).
Proof.
  intros w. run_m. rewrite app_nil_r. auto using keeps_refl.
Qed.

Lemma registers_add t ty h :
  registers (addEventListener t ty h) (fun _ => [L t ty h]).
Proof. intros w. unfold addEventListener. run_m. auto using keeps_refl. Qed.

Lemma registers_query s (k : Ref -> M unit) r :
  (∀ b : bool, registers (k (if b then Some (One s) else None)) (r b)) →
  registers (query s ≫= k) (fun d => r (has s d) d).
Proof.
  intros H w. unfold query, has. run_m.
  destruct (single _ !! s); [apply (H true)|apply (H false)].
Qed.

Lemma registers_querySelectorAll m sel (k : list Node -> M unit) r :
  (∀ xs, registers (k xs) (r xs)) →
  registers (querySelectorAll m sel ≫= k)
    (fun d => r (select_from m sel 0 (family m d)) d).
Proof. intros H w. unfold querySelectorAll. run_m. apply H. Qed.

Lemma registers_forEach_from {A} i (xs : list A) f
  (mk : A -> list Listener) :
  (∀ x j, registers (f x j) (fun _ => mk x)) →
  registers (forEach_from i xs f) (fun _ => xs ≫= mk).
Proof.
  intros H. revert i. induction xs as [|x xs IH]; intros i; simpl.
  - apply registers_ret.
  - apply (registers_seq _ _ (fun _ => mk x) (fun _ => xs ≫= mk));
      auto.
Qed.

#[export] Instance quiet_preorder : PreOrder quiet.
Proof.
  split.
  - intros w. split; [done|apply keeps_refl].
  - intros w1 w2 w3 [H1 H2] [H3 H4]. split; [congruence|].
    by eapply keeps_trans.
Qed.

Lemma registers_quiet m :
  respects quiet m → returns m → registers m (fun _ => []).
Proof.
  intros H1 H2 w. destruct (H1 w) as [E1 E2].
  rewrite E1, app_nil_r. auto.
Qed.

Lemma returns_bind {A} (m : M A) (k : A -> M unit) :
  (∀ w, ∃ a, (m w).1 = Ret a) → (∀ a, returns (k a)) →
  returns (m ≫= k).
Proof.
  intros H1 H2 w. unfold mbind, M_bind. destruct (H1 w) as [a E].
  destruct (m w) as [o w1]; simpl in *. subst o. apply H2.
Qed.

Lemma returns_forEach_from {A} i (xs : list A) f :
  (∀ x j, returns (f x j)) → returns (forEach_from i xs f).
Proof.
  intros H. revert i. induction xs as [|x xs IH]; intros i; simpl.
  - intros w. reflexivity.
  - apply returns_bind; [|auto]. intros w. exists tt. apply H.
Qed.

Lemma registers_seq_const m1 m2 l1 l2 :
  registers m1 (fun _ => l1) → registers m2 (fun _ => l2) →
  registers (m1 ;; m2) (fun _ => l1 ++ l2).
Proof. intros H1 H2. by apply (registers_seq _ _ _ _ H1 H2). Qed.

Lemma registers_forEach {A} (xs : list A) f (mk : A -> list Listener) :
  (∀ x j, registers (f x j) (fun _ => mk x)) →
  registers (forEach xs f) (fun _ => xs ≫= mk).
Proof. apply registers_forEach_from. Qed.

Lemma registers_setupMobileNavigation :
  registers setupMobileNavigation reg_nav.
Proof.
  unfold setupMobileNavigation.
  apply (registers_query NavToggle _ (fun b1 d =>
    if b1 && has NavMenu d then
      [L (NodeT (One NavToggle)) click onToggleClick]
      ++ (nav_links d ≫= fun link =>
            [L (NodeT link) click onNavLinkClick])
      ++ [L DocumentT click onOutsideClick; L DocumentT keydown onEscape]
    else [])).
  intros b1.
  apply (registers_query NavMenu _ (fun b2 d =>
    if b1 && b2 then
      [L (NodeT (One NavToggle)) click onToggleClick]
      ++ (nav_links d ≫= fun link =>
            [L (NodeT link) click onNavLinkClick])
      ++ [L DocumentT click onOutsideClick; L DocumentT keydown onEscape]
    else [])).
  intros b2.
  apply (registers_querySelectorAll Link sel_nav_link _ (fun xs _ =>
    if b1 && b2 then
      [L (NodeT (One NavToggle)) click onToggleClick]
      ++ (xs ≫= fun link => [L (NodeT link) click onNavLinkClick])
      ++ [L DocumentT click onOutsideClick; L DocumentT keydown onEscape]
    else [])).
  intros xs.
  destruct b1, b2; simpl; try apply registers_ret.
  apply (registers_seq_const _ _ [_] _); [apply registers_add|].
  apply registers_seq_const.
  { apply registers_forEach. intros; apply registers_add. }
  apply (registers_seq_const _ _ [_] [_]); apply registers_add.
Qed.

Lemma registers_get (k : Page -> M unit) r :
  (∀ p, registers (k p) r) → registers (get ≫= k) r.
Proof. intros H w. apply H. Qed.

Lemma registers_deref n prop (k : Node -> M unit) r :
  registers (k n) r → registers (deref (Some n) prop ≫= k) r.
Proof. intros H w. apply H. Qed.

Lemma has_alter_el f n s d : has s (alter_el f n d) = has s d.
Proof.
  unfold has. destruct n as [| |s'|m i]; try reflexivity. simpl.
  rewrite lookup_alter. case_decide; [subst|done].
  by destruct (single d !! s).
Qed.

Lemma keeps_alter_el f n d :
  (∀ i, n ≠ Nth Link i) → (∀ i, n ≠ Nth Field i) →
  keeps d (alter_el f n d).
Proof.
  intros H1 H2. split; [intros; apply has_alter_el|].
  rewrite !family_alter_el.
  destruct n as [| |s|m i]; try done.
  split; case_decide; subst; try done; [by destruct (H1 i)|by destruct (H2 i)].
Qed.

Lemma quiet_emit e : respects quiet (emit e).
Proof. intros w. split; [done|apply keeps_refl]. Qed.

Lemma quiet_modify f :
  (∀ p, listeners (browser (f p)) = listeners (browser p)) →
  (∀ p, keeps (doc p) (doc (f p))) →
  respects quiet (modify f).
Proof. intros H1 H2 w. split; simpl; auto. Qed.

Ltac quiet_leaf :=
  idtac;
  match goal with
  | |- respects quiet (emit _) => apply quiet_emit
  | |- respects quiet (modify _) =>
      apply quiet_modify;
      [ intros ?; reflexivity
      | intros ?;
        first [ apply keeps_refl
              | apply keeps_alter_el; intros; discriminate ] ]
  end.

Lemma total_ret {A} (a : A) : total (mret a).
Proof. intros w. by exists a. Qed.
Lemma total_get : total get.
Proof. intros w. by eexists. Qed.
Lemma total_modify f : total (modify f).
Proof. intros w. by eexists. Qed.
Lemma total_emit e : total (emit e).
Proof. intros w. by eexists. Qed.
Lemma total_bind {A B} (m : M A) (k : A -> M B) :
  total m → (∀ a, total (k a)) → total (m ≫= k).
Proof.
  intros H1 H2 w. unfold mbind, M_bind. destruct (H1 w) as [a E].
  destruct (m w) as [o w1]; simpl in *. subst o. apply H2.
Qed.
Lemma total_forEach_from {A} i (xs : list A) f :
  (∀ x j, total (f x j)) → total (forEach_from i xs f).
Proof.
  intros H. revert i. induction xs as [|x xs IH]; intros i; simpl.
  - apply total_ret.
  - apply total_bind; auto.
Qed.
Lemma total_returns (m : M unit) : total m → returns m.
Proof. intros H w. destruct (H w) as [[] E]. exact E. Qed.

Ltac total_walk :=
  repeat match goal with
  | |- returns _ => apply total_returns
  | |- total (mret _) => apply total_ret
  | |- total get => apply total_get
  | |- total (modify _) => apply total_modify
  | |- total (emit _) => apply total_emit
  | |- total (mbind _ _) => apply total_bind; [|intros ?]
  | |- total (forEach _ _) => apply total_forEach_from; intros ? ?
  | |- total (forEach_from _ _ _) => apply total_forEach_from; intros ? ?
  | |- total (if ?b then _ else _) => destruct b
  | |- total (match ?x with _ => _ end) => destruct x
  | |- total ?m => let h := head_of m in progress unfold h
  end.

Ltac quiet_registers :=
  apply registers_quiet; [respects_walk quiet_leaf|total_walk].

Lemma registers_setupHeaderScroll : registers setupHeaderScroll reg_header.
Proof.
  unfold setupHeaderScroll.
  apply (registers_query SiteHeader _ (fun b _ =>
    if b then [L WindowT scroll onScroll] else [])).
  intros [|]; [|apply registers_ret].
  apply registers_get. intros p.
  apply (registers_seq_const _ _ [] [_]); [quiet_registers|].
  apply (registers_seq_const _ _ [] [_]); [quiet_registers|].
  apply registers_add.
Qed.

Lemma registers_setupIntersectionObserver :
  registers setupIntersectionObserver (fun _ => []).
Proof. quiet_registers. Qed.

Lemma registers_setupSmoothScrolling :
  registers setupSmoothScrolling reg_anchors.
Proof.
  unfold setupSmoothScrolling.
  apply (registers_querySelectorAll Link sel_hash_anchor _ (fun xs _ =>
    xs ≫= fun link => [L (NodeT link) click (onAnchorClick link)])).
  intros xs. apply registers_forEach. intros; apply registers_add.
Qed.

Lemma registers_setupFormHandling : registers setupFormHandling reg_form.
Proof.
  unfold setupFormHandling.
  apply (registers_query ContactForm _ (fun b d =>
    if b then
      (required_fields d ≫= fun field =>
         [L (NodeT field) blur (onBlur field);
          L (NodeT field) input (onInput field)])
      ++ [L (NodeT (One ContactForm)) submit onSubmit]
    else [])).
  intros [|]; [|apply registers_ret].
  apply (registers_seq _ _ (fun d => required_fields d ≫= _) (fun _ => [_]));
    [|apply registers_add|done].
  unfold setupFormValidation. apply registers_deref.
  apply (registers_querySelectorAll Field sel_required _ (fun xs _ =>
    xs ≫= fun field =>
      [L (NodeT field) blur (onBlur field);
       L (NodeT field) input (onInput field)])).
  intros xs. apply registers_forEach. intros x _.
  apply (registers_seq_const _ _ [_] [_]); apply registers_add.
Qed.

Lemma registers_setupParallaxEffect :
  registers setupParallaxEffect reg_hero.
Proof.
  unfold setupParallaxEffect.
  apply (registers_query Hero _ (fun b _ =>
    if b then
      [L (NodeT (One Hero)) mousemove handleMouseMove;
       L (NodeT (One Hero)) mouseenter onMouseEnter;
       L (NodeT (One Hero)) mouseleave onMouseLeave]
    else [])).
  intros [|]; [|apply registers_ret].
  apply (registers_seq_const _ _ [] [_; _; _]); [quiet_registers|].
  apply (registers_seq_const _ _ [] [_; _; _]); [quiet_registers|].
  apply (registers_seq_const _ _ [_] [_; _]); [apply registers_add|].
  apply (registers_seq_const _ _ [_] [_]); apply registers_add.
Qed.

Lemma registers_setupScrollAnimations :
  registers setupScrollAnimations (fun _ => []).
Proof. quiet_registers. Qed.

Lemma registers_setupFocusManagement :
  registers setupFocusManagement reg_focus.
Proof.
  unfold setupFocusManagement.
  apply (registers_query NavToggle _ (fun b1 d =>
    if b1 && has NavMenu d
    then [L (NodeT (One NavToggle)) keydown onToggleKeydown] else [])).
  intros b1.
  apply (registers_query NavMenu _ (fun b2 d =>
    if b1 && b2
    then [L (NodeT (One NavToggle)) keydown onToggleKeydown] else [])).
  intros b2. destruct b1, b2; simpl; try apply registers_ret.
  apply registers_add.
Qed.

Lemma registers_setupReducedMotion :
  registers setupReducedMotion (fun _ => []).
Proof. quiet_registers. Qed.

Lemma registers_setupImageOptimization :
  registers setupImageOptimization (fun _ => []).
Proof. quiet_registers. Qed.

Ltac reg_keeps :=
  let K1 := fresh in let K2 := fresh in let K3 := fresh in
  intros ? ? (K1 & K2 & K3);
  unfold reg_nav, reg_header, reg_anchors, reg_form, reg_hero, reg_focus,
    nav_links, hash_anchors, required_fields;
  rewrite ?K1, ?K2, ?K3; reflexivity.

Lemma registers_setupEventListeners :
  registers setupEventListeners (fun d =>
    reg_nav d ++ reg_header d
    ++ [L WindowT load onLoad; L WindowT resize onResize]).
Proof.
  unfold setupEventListeners.
  apply (registers_seq _ _ reg_nav
           (fun d => reg_header d ++ [_; _]));
    [apply registers_setupMobileNavigation| |reg_keeps].
  apply (registers_seq _ _ reg_header (fun _ => [_; _]));
    [apply registers_setupHeaderScroll| |done].
  apply (registers_seq_const _ _ [_] [_]); apply registers_add.
Qed.

Lemma registers_init : registers init wiring.
Proof.
  unfold init, setup3DAnimations, setupAccessibility.
  eapply registers_ext.
  - eapply registers_seq; [apply registers_setupEventListeners| |].
    { eapply registers_seq; [apply registers_setupIntersectionObserver| |].
      { eapply registers_seq; [apply registers_setupSmoothScrolling| |].
        { eapply registers_seq; [apply registers_setupFormHandling| |].
          { eapply registers_seq; [| |].
            { eapply registers_seq;
                [apply registers_setupParallaxEffect
                |apply registers_setupScrollAnimations|reg_keeps]. }
            { eapply registers_seq; [| |].
              { eapply registers_seq;
                  [apply registers_setupFocusManagement| |].
                { eapply registers_seq;
                    [apply registers_add
                    |apply registers_setupReducedMotion|reg_keeps]. }
                reg_keeps. }
              { apply registers_setupImageOptimization. }
              reg_keeps. }
            reg_keeps. }
          reg_keeps. }
        reg_keeps. }
      reg_keeps. }
    reg_keeps.
  - intros d. unfold wiring, reg_nav, reg_header, reg_anchors, reg_form,
      reg_hero, reg_focus. simpl.
    rewrite ?app_nil_r, <- ?app_assoc. reflexivity.
Qed.

(** The listeners of a freshly constructed page. *)
Lemma boot_listeners d win :
  listeners (browser (page (boot d win))) = wiring d.
Proof.
  unfold boot, isolated.
  destruct (registers_init (fresh d win)) as (E1 & E2 & _).
  destruct (init (fresh d win)) as [o w1]; simpl in *. by subst o.
Qed.

(** ** Which listeners an event reaches *)

Lemma elem_of_listeners_on t ty ls h :
  h ∈ listeners_on t ty ls ↔ L t ty h ∈ ls.
Proof.
  unfold listeners_on. rewrite list_elem_of_fmap. split.
  - intros (l & -> & Hl). apply list_elem_of_filter in Hl as [[<- <-] Hl].
    by destruct l.
  - intros Hl. exists (L t ty h). split; [done|].
    apply list_elem_of_filter. by split.
Qed.

Lemma elem_of_if_list {A} (b : bool) (xs : list A) x :
  x ∈ (if b then xs else []) ↔ b = true ∧ x ∈ xs.
Proof. destruct b; rewrite ?elem_of_nil; naive_solver. Qed.

Lemma elem_of_bind_one {A B} (f : A -> B) (xs : list A) y :
  y ∈ (xs ≫= fun x => [f x]) ↔ ∃ x, x ∈ xs ∧ y = f x.
Proof.
  rewrite list_elem_of_bind. setoid_rewrite list_elem_of_singleton.
  naive_solver.
Qed.

Lemma elem_of_bind_two {A B} (f g : A -> B) (xs : list A) y :
  y ∈ (xs ≫= fun x => [f x; g x]) ↔ ∃ x, x ∈ xs ∧ (y = f x ∨ y = g x).
Proof.
  rewrite list_elem_of_bind. setoid_rewrite elem_of_cons.
  setoid_rewrite list_elem_of_singleton. naive_solver.
Qed.

Lemma elem_of_wiring d l :
  l ∈ wiring d ↔
    (has NavToggle d && has NavMenu d = true ∧
       (l = L (NodeT (One NavToggle)) click onToggleClick
        ∨ (∃ link, link ∈ nav_links d ∧
                   l = L (NodeT link) click onNavLinkClick)
        ∨ l = L DocumentT click onOutsideClick
        ∨ l = L DocumentT keydown onEscape))
    ∨ (has SiteHeader d = true ∧ l = L WindowT scroll onScroll)
    ∨ l = L WindowT load onLoad
    ∨ l = L WindowT resize onResize
    ∨ (∃ link, link ∈ hash_anchors d ∧
               l = L (NodeT link) click (onAnchorClick link))
    ∨ (has ContactForm d = true ∧
         ((∃ field, field ∈ required_fields d ∧
                    (l = L (NodeT field) blur (onBlur field)
                     ∨ l = L (NodeT field) input (onInput field)))
          ∨ l = L (NodeT (One ContactForm)) submit onSubmit))
    ∨ (has Hero d = true ∧
         (l = L (NodeT (One Hero)) mousemove handleMouseMove
          ∨ l = L (NodeT (One Hero)) mouseenter onMouseEnter
          ∨ l = L (NodeT (One Hero)) mouseleave onMouseLeave))
    ∨ (has NavToggle d && has NavMenu d = true ∧
       l = L (NodeT (One NavToggle)) keydown onToggleKeydown)
    ∨ l = L DocumentT keydown onDocumentKeydown.
Proof.
  unfold wiring.
  rewrite !elem_of_app, !elem_of_if_list, !elem_of_app,
    !elem_of_bind_one, !elem_of_bind_two, !elem_of_cons, !elem_of_nil.
  tauto.
Qed.

(** ** Closing the mobile menu *)

Lemma has_class_remove c l : has_class c (remove_class c l) = false.
Proof.
  unfold has_class, remove_class.
  induction l as [|x l IH]; simpl; [done|].
  rewrite filter_cons. case_decide; simpl; [|done].
  rewrite IH, orb_false_r. by apply String.eqb_neq.
Qed.

Lemma remove_class_idemp c l :
  remove_class c (remove_class c l) = remove_class c l.
Proof.
  unfold remove_class. induction l as [|x l IH]; simpl; [done|].
  rewrite filter_cons. case_decide; [|done].
  rewrite filter_cons, decide_True by done. by rewrite IH.
Qed.

Lemma set_aria_expanded_false_idemp e :
  set_aria_expanded_false (set_aria_expanded_false e) =
  set_aria_expanded_false e.
Proof.
  unfold set_aria_expanded_false, set_attrs; simpl.
  by rewrite insert_insert_eq.
Qed.

Lemma remove_active_idemp e : remove_active (remove_active e) = remove_active e.
Proof.
  unfold remove_active, set_classList; simpl.
  by rewrite remove_class_idemp.
Qed.

Lemma clear_overflow_idemp e :
  clear_overflow (clear_overflow e) = clear_overflow e.
Proof.
  unfold clear_overflow, set_style; simpl. by rewrite insert_insert_eq.
Qed.

Lemma close_doc_idemp t m d :
  close_doc t m (close_doc t m d) = close_doc t m d.
Proof.
  unfold close_doc.
  rewrite (alter_el_commute set_aria_expanded_false clear_overflow)
    by done.
  rewrite (alter_el_commute set_aria_expanded_false remove_active)
    by done.
  rewrite (alter_el_commute remove_active clear_overflow) by done.
  rewrite !alter_el_twice.
  rewrite (alter_el_ext (clear_overflow ∘ clear_overflow) clear_overflow)
    by (intros e; apply clear_overflow_idemp).
  rewrite (alter_el_ext (remove_active ∘ remove_active) remove_active)
    by (intros e; apply remove_active_idemp).
  rewrite (alter_el_ext (set_aria_expanded_false ∘ set_aria_expanded_false)
             set_aria_expanded_false)
    by (intros e; apply set_aria_expanded_false_idemp).
  reflexivity.
Qed.

Lemma closed_doc_idemp d : closed_doc (closed_doc d) = closed_doc d.
Proof. apply close_doc_idemp. Qed.

Lemma closed_closed_doc d :
  has NavToggle d = true → has NavMenu d = true → closed (closed_doc d).
Proof.
  unfold has, closed, closed_doc, close_doc. intros Ht Hm.
  destruct (single d !! NavToggle) as [t|] eqn:Et; [|done].
  destruct (single d !! NavMenu) as [m|] eqn:Em; [|done].
  exists (set_aria_expanded_false t), (remove_active m). simpl.
  rewrite lookup_alter_ne, lookup_alter_eq, Et by done.
  rewrite lookup_alter_eq, lookup_alter_ne, Em by done.
  repeat split; simpl.
  - apply lookup_insert_eq.
  - apply has_class_remove.
  - apply lookup_insert_eq.
Qed.

Lemma closeMobileMenu_eq w :
  closeMobileMenu navToggle navMenu w =
  (Ret tt,
   {| page := closed_page (page w);
      effects := effects w
        ++ [DomWrite (One NavToggle) "aria-expanded" (text "false");
            DomWrite (One NavMenu) "classList.remove" (text "active");
            DomWrite Body "style.overflow" (text "")] |}).
Proof.
  unfold closeMobileMenu, setAttribute, classList_remove, assign_style,
    write. run_m. by rewrite <- !app_assoc.
Qed.

Lemma closeMobileMenu_twice toggle menu w :
  let once := closeMobileMenu toggle menu w in
  let twice := closeMobileMenu toggle menu once.2 in
  twice.1 = once.1 ∧ page twice.2 = page once.2.
Proof.
  destruct toggle as [t|], menu as [m|];
    unfold closeMobileMenu, setAttribute, classList_remove, assign_style,
      write; run_m; (split; [reflexivity|]).
  - destruct w as [p fx]; simpl. unfold with_doc; simpl. f_equal.
    apply (close_doc_idemp t m).
  - destruct w as [p fx]; simpl. unfold with_doc; simpl. f_equal.
    rewrite alter_el_twice. apply alter_el_ext. intros e.
    apply set_aria_expanded_false_idemp.
  - reflexivity.
  - reflexivity.
Qed.

(** ** Dismissal of the mobile menu *)

Lemma closed_page_idemp p : closed_page (closed_page p) = closed_page p.
Proof.
  unfold closed_page, with_doc; simpl. f_equal. apply closed_doc_idemp.
Qed.

#[export] Instance settles_preorder : PreOrder settles.
Proof.
  split.
  - intros w. by left.
  - intros w1 w2 w3 [H1|H1] [H2|H2]; unfold settles;
      rewrite H2, H1, ?closed_page_idemp; auto.
Qed.

Lemma settles_emit e : respects settles (emit e).
Proof. intros w. by left. Qed.

Lemma settles_close : respects settles (closeMobileMenu navToggle navMenu).
Proof. intros w. rewrite closeMobileMenu_eq. by right. Qed.

Lemma settles_close_null menu : respects settles (closeMobileMenu None menu).
Proof. intros w. by left. Qed.

(** A computation that dereferences [null] returns nothing. *)
Ltac absurd_null H :=
  exfalso; destruct H as [? H];
  unfold classList_contains, getAttribute, contains, element, deref,
    mbind, M_bind, throw in H;
  simpl in H; discriminate H.

Ltac track_refs H :=
  match type of H with
  | ∃ _, (classList_contains None _ _).1 = Ret _ => absurd_null H
  | ∃ _, (getAttribute None _ _).1 = Ret _ => absurd_null H
  | ∃ _, (contains None _ _).1 = Ret _ => absurd_null H
  | ∃ _, (element None _ _).1 = Ret _ => absurd_null H
  | _ => track H
  end.

Ltac settles_leaf :=
  idtac;
  match goal with
  | |- respects settles (emit _) => apply settles_emit
  | |- respects settles (closeMobileMenu None _) => apply settles_close_null
  | |- respects settles (closeMobileMenu _ _) => apply settles_close
  end.

Section Dismissal.
Variable validity : Element -> ValidityState.

Lemma settles_run_handler e h :
  dismissing e h = true →
  respects settles (run_handler validity 1 h e).
Proof.
  destruct h; simpl; try discriminate; intros D;
    respects_walk_with settles_leaf track_refs.
Qed.

(** *** Dispatch as a fold over the propagation path *)

Lemma isolated_eq m w : isolated m w = (Ret tt, exec m w).
Proof. unfold exec, isolated. by destruct (m w) as [[[]|?] ?]. Qed.

Lemma page_exec m w : page (exec m w) = page (m w).2.
Proof. unfold exec, isolated. by destruct (m w) as [[[]|?] ?]. Qed.

Lemma forEach_isolated {A} i (xs : list A) (f : A -> M unit) w :
  forEach_from i xs (fun x _ => isolated (f x)) w =
  (Ret tt, foldl (fun w x => exec (f x) w) w xs).
Proof.
  revert i w. induction xs as [|x xs IH]; intros i w; simpl; [done|].
  unfold mbind, M_bind. rewrite isolated_eq. apply IH.
Qed.

Lemma deliver_stopped run ty targets w :
  stopped (browser (page w)) = true →
  foldl (deliver run ty) w targets = w.
Proof.
  intros S. induction targets as [|t rest IH]; simpl; [done|].
  unfold deliver at 2. by rewrite S.
Qed.

Lemma propagate_eq run ty targets w :
  propagate run ty targets w = (Ret tt, foldl (deliver run ty) w targets).
Proof.
  revert w. induction targets as [|t rest IH]; intros w; simpl; [done|].
  unfold mbind, M_bind, get; simpl. unfold deliver at 2.
  destruct (stopped (browser (page w))) eqn:S.
  - rewrite deliver_stopped by done. reflexivity.
  - unfold forEach. rewrite forEach_isolated. apply IH.
Qed.

Lemma foldl_progress {X} (A C : World -> Prop) (f : World -> X -> World)
  xs :
  (∀ x w, x ∈ xs → C w → C (f w x)) →
  (∀ x w, x ∈ xs → A w → A (f w x) ∨ C (f w x)) →
  ∀ w,
    (C w → C (foldl f w xs))
    ∧ (A w → A (foldl f w xs) ∨ C (foldl f w xs))
    ∧ (∀ x0, x0 ∈ xs → (∀ w, A w → C (f w x0)) →
       A w → C (foldl f w xs)).
Proof.
  induction xs as [|x xs IH]; intros HC HA w; simpl.
  - split; [auto|]. split; [auto|]. intros x0 H. inversion H.
  - assert (∀ y w, y ∈ xs → C w → C (f w y)) as HC'
      by (intros y w' Hy; apply HC; by right).
    assert (∀ y w, y ∈ xs → A w → A (f w y) ∨ C (f w y)) as HA'
      by (intros y w' Hy; apply HA; by right).
    destruct (IH HC' HA' (f w x)) as (IC & IA & IE).
    assert (x ∈ x :: xs) as Hx by left.
    split; [intros; apply IC; auto|].
    split.
    + intros Aw. destruct (HA x w Hx Aw); auto.
    + intros x0 H0 E Aw. apply elem_of_cons in H0 as [->|H0].
      * apply IC. auto.
      * destruct (HA x w Hx Aw); [eapply IE; eauto|apply IC; auto].
Qed.

(** Every listener an event reaches can only dismiss the menu, and one
    of them closes it: the dispatch leaves the document closed. *)
Lemma dispatch_dismisses d0 ty targets e t0 h0 w :
  listeners (browser (page w)) = wiring d0 →
  (∀ t h, t ∈ targets → L t ty h ∈ wiring d0 → dismissing e h = true) →
  t0 ∈ targets → L t0 ty h0 ∈ wiring d0 →
  (∀ w', doc (page w') = doc (page w) →
         page (run_handler validity 1 h0 e w').2 = closed_page (page w')) →
  doc (page (dispatch validity ty targets e w).2) = closed_doc (doc (page w)).
Proof.
  intros Hl Hok Ht0 Hh0 Hclose.
  unfold dispatch, dispatch_with, mbind, M_bind, get; simpl.
  rewrite propagate_eq; simpl.
  set (w0 := {| page := with_browser (set_stopped false) (page w);
                effects := effects w |}).
  set (A := fun w' : World => page w' = page w0).
  set (C := fun w' : World => page w' = closed_page (page w0)).
  assert (∀ h w', dismissing e h = true → C w' →
            C (exec (run_handler validity 1 h e) w')) as HC.
  { intros h w' D Cw. unfold C. rewrite page_exec.
    destruct (settles_run_handler e h D w') as [E|E]; rewrite E, Cw;
      [done|apply closed_page_idemp]. }
  assert (∀ h w', dismissing e h = true → A w' →
            A (exec (run_handler validity 1 h e) w')
            ∨ C (exec (run_handler validity 1 h e) w')) as HA.
  { intros h w' D Aw. unfold A, C. rewrite page_exec.
    destruct (settles_run_handler e h D w') as [E|E]; rewrite E, Aw; auto. }
  assert (∀ t w', t ∈ targets → (A w' ∨ C w') →
            (C w' → C (deliver (fun h => run_handler validity 1 h e) ty w' t))
            ∧ (A w' → A (deliver (fun h => run_handler validity 1 h e) ty w' t)
                      ∨ C (deliver (fun h => run_handler validity 1 h e) ty w' t))
            ∧ (t = t0 → A w' →
               C (deliver (fun h => run_handler validity 1 h e) ty w' t)))
    as HD.
  { intros t w' Ht Hw. unfold deliver.
    assert (stopped (browser (page w')) = false
            ∧ listeners (browser (page w')) = wiring d0) as [-> ->].
    { destruct Hw as [E|E]; rewrite E; simpl; auto. }
    destruct (foldl_progress A C
                (fun w h => exec (run_handler validity 1 h e) w)
                (listeners_on t ty (wiring d0))) with (w := w')
      as (IC & IA & IE).
    - intros h w'' Hh. apply HC. eapply Hok; [exact Ht|].
      by apply elem_of_listeners_on.
    - intros h w'' Hh. apply HA. eapply Hok; [exact Ht|].
      by apply elem_of_listeners_on.
    - split; [exact IC|]. split; [exact IA|]. intros -> Aw.
      apply (IE h0); [by apply elem_of_listeners_on| |exact Aw].
      intros w'' Aw''. unfold C. rewrite page_exec, Hclose, Aw''; [done|].
      by rewrite Aw''. }
  destruct (foldl_progress A C
              (deliver (fun h => run_handler validity 1 h e) ty) targets)
    with (w := w0) as (_ & _ & IE).
  { intros t w' Ht Cw.
    destruct (HD t w' Ht (or_intror Cw)) as (H1 & _ & _). auto. }
  { intros t w' Ht Aw.
    destruct (HD t w' Ht (or_introl Aw)) as (_ & H2 & _). auto. }
  assert (C (foldl (deliver (fun h => run_handler validity 1 h e) ty)
               w0 targets)) as Cfin.
  { apply (IE t0 Ht0); [|done]. intros w' Aw.
    destruct (HD t0 w' Ht0 (or_introl Aw)) as (_ & _ & H3). auto. }
  unfold C in Cfin.
  change (doc (page (foldl
            (deliver (fun h => run_handler validity 1 h e) ty) w0 targets))
          = closed_doc (doc (page w))).
  by rewrite Cfin.
Qed.

End Dismissal.

(** *** Pages the constructor has wired *)

Section Reachable.
Variable validity : Element -> ValidityState.

Lemma boot_has d win s : has s (doc (page (boot d win))) = has s d.
Proof.
  unfold boot, isolated.
  destruct (registers_init (fresh d win)) as (E1 & _ & (K & _)).
  destruct (init (fresh d win)) as [o w1]; simpl in *. subst o. apply K.
Qed.

Lemma has_is_Some s d : has s d = true ↔ is_Some (get_el (One s) d).
Proof.
  unfold has; simpl. destruct (single d !! s); split; done.
Qed.

Lemma run_boot_listeners d win evs :
  listeners (browser (page (run validity evs (boot d win)))) = wiring d.
Proof.
  destruct (stable_run validity evs (boot d win)) as [-> _].
  apply boot_listeners.
Qed.

Lemma run_boot_has d win evs s :
  has s d = true →
  has s (doc (page (run validity evs (boot d win)))) = true.
Proof.
  intros H. destruct (stable_run validity evs (boot d win)) as [_ P].
  apply has_is_Some, P, has_is_Some. by rewrite boot_has.
Qed.

Lemma classList_contains_menu w m c :
  single (doc (page w)) !! NavMenu = Some m →
  classList_contains navMenu c w = (Ret (has_class c (classList m)), w).
Proof.
  intros E. unfold classList_contains, element. run_m. by rewrite E.
Qed.

Lemma outside_click_closes e w :
  One NavMenu ∉ path e → One NavToggle ∉ path e →
  menu_active (doc (page w)) →
  outside_click e w = closeMobileMenu navToggle navMenu w.
Proof.
  intros H1 H2 (m & Em & Am). unfold outside_click, contains. run_m.
  rewrite !bool_decide_false by done; simpl.
  unfold classList_contains, element. run_m. rewrite Em; simpl.
  by rewrite Am.
Qed.

Lemma escape_keydown_closes e w :
  key e = "Escape" → menu_active (doc (page w)) →
  escape_keydown e w = closeMobileMenu navToggle navMenu w.
Proof.
  intros K (m & Em & Am). unfold escape_keydown. rewrite K. run_m.
  unfold classList_contains, element. run_m. rewrite Em; simpl.
  by rewrite Am.
Qed.

Lemma click_listeners_dismiss d path e t h :
  One NavToggle ∉ path → t ∈ bubble path → L t click h ∈ wiring d →
  dismissing e h = true.
Proof.
  intros Hp Ht Hl. apply elem_of_wiring in Hl. unfold L in Hl.
  destruct_or?; destruct_and?; destruct_or?;
    repeat match goal with H : ∃ _, _ |- _ => destruct H as (? & ? & ?) end;
    destruct_or?; simplify_eq; try reflexivity.
  exfalso. apply Hp. unfold bubble in Ht.
  apply elem_of_app in Ht as [Ht|Ht].
  - apply list_elem_of_fmap in Ht as (n & [= <-] & Hn). exact Hn.
  - apply elem_of_cons in Ht as [Ht|Ht]; [discriminate|].
    apply list_elem_of_singleton in Ht. discriminate.
Qed.

Lemma keydown_listeners_dismiss d e t h :
  key e = "Escape" → L t keydown h ∈ wiring d → dismissing e h = true.
Proof.
  intros K Hl. apply elem_of_wiring in Hl. unfold L in Hl.
  destruct_or?; destruct_and?; destruct_or?;
    repeat match goal with H : ∃ _, _ |- _ => destruct H as (? & ? & ?) end;
    destruct_or?; simplify_eq; try reflexivity.
  simpl. by rewrite K.
Qed.

End Reachable.

(** ** Claims about the mobile menu *)

Section MenuClaims.
Variable validity : Element -> ValidityState.

(** C3. On a page whose toggle and menu exist, after any history of
    events, each dismissal path leaves the menu closed: a click on a nav
    link (whatever the state of the menu), a click outside both the toggle
    and the menu while the menu is open, and the Escape key while the menu
    is open.  Closed means: the toggle's aria-expanded is "false", the
    menu has no 'active' class, and the body's overflow style is empty. *)
Theorem dismissal_paths_close_menu d win evs :
  has NavToggle d = true → has NavMenu d = true →
  let w := run validity evs (boot d win) in
  (∀ path link,
     link ∈ nav_links d → link ∈ path → One NavToggle ∉ path →
     closed (doc (page (step validity (Click path) w))))
  ∧ (∀ path,
       menu_active (doc (page w)) →
       One NavToggle ∉ path → One NavMenu ∉ path →
       closed (doc (page (step validity (Click path) w))))
  ∧ (∀ path,
       menu_active (doc (page w)) →
       closed (doc (page (step validity (Keydown "Escape" path) w)))).
Proof.
  intros Ht Hm w.
  assert (listeners (browser (page w)) = wiring d) as Hl
    by apply run_boot_listeners.
  assert (closed (closed_doc (doc (page w)))) as Hc
    by (apply closed_closed_doc; by apply run_boot_has).
  assert (has NavToggle d && has NavMenu d = true) as Htm
    by (by rewrite Ht, Hm).
  split; [|split].
  - intros path link Hlink Hin Hp. unfold step, react.
    rewrite (dispatch_dismisses validity d click (bubble path)
               (plain_event path "") (NodeT link) onNavLinkClick w);
      [exact Hc|exact Hl| | | |].
    + intros t h. by apply click_listeners_dismiss.
    + unfold bubble. apply elem_of_app. left.
      by apply list_elem_of_fmap_2.
    + apply elem_of_wiring. left. split; [exact Htm|]. right. left. eauto.
    + intros w' _. cbn [run_handler]. unfold nav_link_click.
      by rewrite closeMobileMenu_eq.
  - intros path Ha Hp1 Hp2. unfold step, react.
    rewrite (dispatch_dismisses validity d click (bubble path)
               (plain_event path "") DocumentT onOutsideClick w);
      [exact Hc|exact Hl| | | |].
    + intros t h. by apply click_listeners_dismiss.
    + unfold bubble. apply elem_of_app. right. left.
    + apply elem_of_wiring. left. split; [exact Htm|]. auto.
    + intros w' Hd. cbn [run_handler]. rewrite outside_click_closes;
        [by rewrite closeMobileMenu_eq|done|done|by rewrite Hd].
  - intros path Ha. unfold step, react.
    rewrite (dispatch_dismisses validity d keydown (bubble path)
               (plain_event path "Escape") DocumentT onEscape w);
      [exact Hc|exact Hl| | | |].
    + intros t h _. by apply keydown_listeners_dismiss.
    + unfold bubble. apply elem_of_app. right. left.
    + apply elem_of_wiring. left. split; [exact Htm|]. auto.
    + intros w' Hd. cbn [run_handler]. rewrite escape_keydown_closes;
        [by rewrite closeMobileMenu_eq|done|by rewrite Hd].
Qed.

End MenuClaims.

Lemma dismissal_paths_close_menu_witness :
  closed (doc (page (step Sample.validity
                       (Click [Nth Link 0; One NavMenu])
                       (run Sample.validity opened Sample.world))))
  ∧ closed (doc (page (step Sample.validity (Click [One Hero])
                         (run Sample.validity opened Sample.world))))
  ∧ closed (doc (page (step Sample.validity (Keydown "Escape" [])
                         (run Sample.validity opened Sample.world)))).
Proof.
  assert (menu_active
            (doc (page (run Sample.validity opened Sample.world)))) as Ha.
  { eexists. split; vm_compute; reflexivity. }
  destruct (dismissal_paths_close_menu Sample.validity Sample.document
              Sample.window opened eq_refl eq_refl) as (H1 & H2 & H3).
  split; [|split].
  - apply (H1 _ (Nth Link 0)).
    + vm_compute. left.
    + left.
    + intros H. apply elem_of_cons in H as [H|H]; [discriminate|].
      apply list_elem_of_singleton in H. discriminate.
  - apply H2; [exact Ha| |].
    + intros H. apply list_elem_of_singleton in H. discriminate.
    + intros H. apply list_elem_of_singleton in H. discriminate.
  - apply H3. exact Ha.
Defined.

(** ** The duplicate Escape listeners *)

Lemma listeners_on_app t ty ls1 ls2 :
  listeners_on t ty (ls1 ++ ls2) =
  listeners_on t ty ls1 ++ listeners_on t ty ls2.
Proof. unfold listeners_on. by rewrite list.filter_app, fmap_app. Qed.

Lemma listeners_on_document_nodes ty (xs : list Node)
  (mk : Node -> list (EventType * Handler)) :
  listeners_on DocumentT ty
    (xs ≫= fun x => (fun th => L (NodeT x) th.1 th.2) <$> mk x) = [].
Proof.
  induction xs as [|x xs IH]; [done|].
  change ((x :: xs) ≫= ?f) with (f x ++ (xs ≫= f)).
  rewrite listeners_on_app, IH, app_nil_r.
  induction (mk x) as [|th l IHl]; [done|].
  unfold listeners_on in *. rewrite fmap_cons, filter_cons.
  rewrite decide_False; [exact IHl|]. by intros [? _].
Qed.

Lemma document_keydown_listeners d :
  listeners_on DocumentT keydown (wiring d) =
  (if has NavToggle d && has NavMenu d then [onEscape] else [])
  ++ [onDocumentKeydown].
Proof.
  unfold wiring. rewrite !listeners_on_app.
  pose proof (listeners_on_document_nodes keydown (hash_anchors d)
                (fun x => [(click, onAnchorClick x)])) as E1.
  pose proof (listeners_on_document_nodes keydown (required_fields d)
                (fun x => [(blur, onBlur x); (input, onInput x)])) as E2.
  pose proof (listeners_on_document_nodes keydown (nav_links d)
                (fun x => [(click, onNavLinkClick)])) as E3.
  simpl in E1, E2, E3. unfold L in *.
  destruct (has NavToggle d && has NavMenu d), (has SiteHeader d),
    (has ContactForm d), (has Hero d);
    rewrite ?listeners_on_app, ?E1, ?E2, ?E3; reflexivity.
Qed.

Section Idempotence.
Variable validity : Element -> ValidityState.

(** C9. [closeMobileMenu] is idempotent: run a second time, on any
    references and in any world, it returns as the first time and leaves
    the same page.  On a page with toggle and menu the state it reaches is
    the closed one; the constructor registers two Escape listeners on
    [document], and with both firing on one keypress while the menu is
    open the document ends exactly as after one [closeMobileMenu]. *)
Theorem closeMobileMenu_idempotent d win evs :
  (∀ toggle menu w,
     let once := closeMobileMenu toggle menu w in
     let twice := closeMobileMenu toggle menu once.2 in
     twice.1 = once.1 ∧ page twice.2 = page once.2)
  ∧ (has NavToggle d = true → has NavMenu d = true →
     let w := run validity evs (boot d win) in
     closed (doc (page (closeMobileMenu navToggle navMenu w).2))
     ∧ listeners_on DocumentT keydown (listeners (browser (page w))) =
       [onEscape; onDocumentKeydown]
     ∧ ∀ path,
         menu_active (doc (page w)) →
         doc (page (step validity (Keydown "Escape" path) w)) =
         doc (page (closeMobileMenu navToggle navMenu w).2)).
Proof.
  split; [apply closeMobileMenu_twice|].
  intros Ht Hm w. rewrite closeMobileMenu_eq; simpl.
  assert (listeners (browser (page w)) = wiring d) as Hl
    by apply run_boot_listeners.
  split; [|split].
  - apply closed_closed_doc; by apply run_boot_has.
  - rewrite Hl, document_keydown_listeners. by rewrite Ht, Hm.
  - intros path Ha. unfold step, react.
    apply (dispatch_dismisses validity d keydown (bubble path)
             (plain_event path "Escape") DocumentT onEscape w);
      [exact Hl| | | |].
    + intros t h _. by apply keydown_listeners_dismiss.
    + unfold bubble. apply elem_of_app. right. left.
    + apply elem_of_wiring. left. rewrite Ht, Hm. auto.
    + intros w' Hd. cbn [run_handler]. rewrite escape_keydown_closes;
        [by rewrite closeMobileMenu_eq|done|by rewrite Hd].
Qed.

End Idempotence.

Lemma closeMobileMenu_idempotent_witness :
  let w := run Sample.validity opened Sample.world in
  closed (doc (page (closeMobileMenu navToggle navMenu w).2))
  ∧ doc (page (step Sample.validity (Keydown "Escape" []) w)) =
    doc (page (closeMobileMenu navToggle navMenu w).2).
Proof.
  intros w.
  destruct (closeMobileMenu_idempotent Sample.validity Sample.document
              Sample.window opened) as (_ & H).
  destruct (H eq_refl eq_refl) as (H1 & _ & H3).
  split; [exact H1|]. apply H3.
  eexists. split; vm_compute; reflexivity.
Defined.

(** ** Dismissal while the menu is closed *)

Section Inert.
Variable validity : Element -> ValidityState.

Lemma foldl_fixed {X} (f : World -> X -> World) xs w :
  (∀ x, x ∈ xs → f w x = w) → foldl f w xs = w.
Proof.
  induction xs as [|x xs IH]; intros H; simpl; [done|].
  rewrite H by left. apply IH. intros y Hy. apply H. by right.
Qed.

(** When every listener an event reaches returns without touching the
    world, the dispatch changes neither the document nor the effects. *)
Lemma dispatch_inert d0 ty targets e w :
  listeners (browser (page w)) = wiring d0 →
  (∀ t h w', t ∈ targets → L t ty h ∈ wiring d0 →
             doc (page w') = doc (page w) →
             run_handler validity 1 h e w' = (Ret tt, w')) →
  doc (page (dispatch validity ty targets e w).2) = doc (page w)
  ∧ effects (dispatch validity ty targets e w).2 = effects w.
Proof.
  intros Hl Hin.
  unfold dispatch, dispatch_with, mbind, M_bind, get, modify.
  cbn [fst snd]. rewrite propagate_eq. cbn [fst snd page effects].
  set (w0 := {| page := with_browser (set_stopped false) (page w);
                effects := effects w |}).
  rewrite (foldl_fixed _ targets w0); [done|].
  intros t Ht. unfold deliver.
  change (stopped (browser (page w0))) with false. cbv iota.
  change (listeners (browser (page w0)))
    with (listeners (browser (page w))). rewrite Hl.
  apply foldl_fixed. intros h Hh. unfold exec, isolated.
  rewrite (Hin t h w0); auto.
  by apply elem_of_listeners_on.
Qed.

Lemma not_active_class d :
  ¬ menu_active d →
  has_class "active" (classList (default blank (single d !! NavMenu)))
  = false.
Proof.
  intros H. destruct (single d !! NavMenu) as [m|] eqn:E; [|done].
  simpl. destruct (has_class "active" (classList m)) eqn:A; [|done].
  destruct H. by exists m.
Qed.

Lemma query_eq s w :
  query s w =
  (Ret (if has s (doc (page w)) then Some (One s) else None), w).
Proof. unfold query, has. run_m. by destruct (single _ !! s). Qed.

Lemma escape_keydown_inert e w :
  ¬ menu_active (doc (page w)) → escape_keydown e w = (Ret tt, w).
Proof.
  intros H. unfold escape_keydown.
  destruct (String.eqb (key e) "Escape"); [|done].
  unfold classList_contains, element. run_m.
  by rewrite (not_active_class _ H).
Qed.

Lemma document_keydown_inert e w :
  ¬ menu_active (doc (page w)) → document_keydown e w = (Ret tt, w).
Proof.
  intros H. unfold document_keydown.
  destruct (String.eqb (key e) "Escape"); [|done].
  unfold mbind at 1, M_bind at 1. rewrite query_eq.
  pose proof (not_active_class _ H) as N. unfold has.
  destruct (single (doc (page w)) !! NavMenu) as [m|] eqn:E; [|done].
  unfold classList_contains, element. run_m. rewrite E. simpl in *.
  by rewrite N.
Qed.

Lemma outside_click_inert e w :
  ¬ menu_active (doc (page w)) → outside_click e w = (Ret tt, w).
Proof.
  intros H. unfold outside_click, contains. run_m.
  destruct (bool_decide (One NavMenu ∈ path e)); [done|]. simpl.
  destruct (bool_decide (One NavToggle ∈ path e)); [done|]. simpl.
  unfold classList_contains, element. run_m.
  by rewrite (not_active_class _ H).
Qed.

(** The two guarded dismissal paths write nothing while the menu is
    closed: the Escape key, and a click that reaches no link and not the
    toggle. *)
Lemma guarded_dismissals_inert d win evs :
  let w := run validity evs (boot d win) in
  ¬ menu_active (doc (page w)) →
  (∀ path,
     doc (page (step validity (Keydown "Escape" path) w)) = doc (page w)
     ∧ effects (step validity (Keydown "Escape" path) w) = effects w)
  ∧ (∀ path,
       One NavToggle ∉ path → (∀ i, Nth Link i ∉ path) →
       doc (page (step validity (Click path) w)) = doc (page w)
       ∧ effects (step validity (Click path) w) = effects w).
Proof.
  intros w Hn.
  assert (listeners (browser (page w)) = wiring d) as Hl
    by apply run_boot_listeners.
  split.
  - intros path. unfold step, react.
    apply (dispatch_inert d); [exact Hl|].
    intros t h w' _ Hh Hd. rewrite <- Hd in Hn.
    apply elem_of_wiring in Hh. unfold L in Hh.
    destruct_or?; destruct_and?; destruct_or?;
      repeat match goal with H : ∃ _, _ |- _ => destruct H as (? & ? & ?) end;
      destruct_or?; simplify_eq; cbn [run_handler];
      auto using escape_keydown_inert, document_keydown_inert.
  - intros path Hp1 Hp2. unfold step, react.
    apply (dispatch_inert d); [exact Hl|].
    intros t h w' Ht Hh Hd. rewrite <- Hd in Hn.
    assert (∀ n, t = NodeT n → n ∈ path) as Hpath.
    { intros n ->. unfold bubble in Ht. apply elem_of_app in Ht as [Ht|Ht].
      - by apply list_elem_of_fmap in Ht as (? & [= <-] & ?).
      - apply elem_of_cons in Ht as [Ht|Ht]; [discriminate|].
        apply list_elem_of_singleton in Ht. discriminate. }
    apply elem_of_wiring in Hh. unfold L in Hh.
    destruct_or?; destruct_and?; destruct_or?;
      repeat match goal with H : ∃ _, _ |- _ => destruct H as (? & ? & ?) end;
      destruct_or?; simplify_eq; cbn [run_handler];
      auto using outside_click_inert.
    + destruct Hp1. by apply Hpath.
    + match goal with H : ?x ∈ nav_links d |- _ =>
        destruct (select_from_kind _ _ _ _ _ H) as [i ->] end.
      destruct (Hp2 i). by apply Hpath.
    + match goal with H : ?x ∈ hash_anchors d |- _ =>
        destruct (select_from_kind _ _ _ _ _ H) as [i ->] end.
      destruct (Hp2 i). by apply Hpath.
Qed.

End Inert.

(** C4. The nav-link dismissal path has no guard: on the sample page as
    the constructor leaves it, with the menu closed and the body's
    overflow style unset, a click on the first nav link still performs the
    three writes of [closeMobileMenu], and the overflow style is now set
    (to the empty string). *)
Theorem nav_link_click_writes_when_closed :
  let w := Sample.world in
  let w' := step Sample.validity (Click [Nth Link 0; One NavMenu]) w in
  ¬ menu_active (doc (page w))
  ∧ style (body (doc (page w))) !! "overflow" = None
  ∧ style (body (doc (page w'))) !! "overflow" = Some (text "")
  ∧ effects w' =
    effects w
    ++ [DomWrite (One NavToggle) "aria-expanded" (text "false");
        DomWrite (One NavMenu) "classList.remove" (text "active");
        DomWrite Body "style.overflow" (text "");
        PreventDefault;
        ScrollTo 500 "smooth"].
Proof.
  intros w w'. split; [|split; [|split]].
  - intros (m & E & A). vm_compute in E. simplify_eq.
  - vm_compute. reflexivity.
  - vm_compute. reflexivity.
  - vm_compute. reflexivity.
Qed.

(** C5. Smooth scrolling does not guard on the menu: on the sample page
    without its [#navMenu] element, the link [#about] resolves to its
    section, and the click listener of that link throws a TypeError when
    it reads [navMenu.classList]; the error reaches the platform and the
    page is not scrolled. *)
Theorem anchor_click_without_menu_raises :
  let w := boot (Sample.without NavMenu Sample.document) Sample.window in
  (querySelector_hash "#about" w).1 = Ret (Some (Nth Section 0))
  ∧ (anchor_click (Some (Nth Link 0)) w).1 = Throw (TypeError "classList")
  ∧ effects (step Sample.validity (Click [Nth Link 0]) w) =
    effects w ++ [PreventDefault; Uncaught (TypeError "classList")].
Proof.
  intros w. split; [|split]; vm_compute; reflexivity.
Qed.

(** ** Field errors *)

Lemma errorElementOf_eq i w :
  errorElementOf (Some (Nth Field i)) w =
  (Ret (j ← errorMessageOf (doc (page w)) !! i;
        _ ← family ErrorMessage (doc (page w)) !! j;
        Some (Nth ErrorMessage j)), w).
Proof. reflexivity. Qed.

Lemma clearFieldError_eq i w :
  clearFieldError (Some (Nth Field i)) w =
  match (errorElementOf (Some (Nth Field i)) w).1 with
  | Ret (Some err) =>
      (Ret tt,
       {| page := with_doc (alter_el (set_aria_invalid "false") (Nth Field i))
                    (with_doc (alter_el (set_opacity "0") err) (page w));
          effects := effects w
            ++ [DomWrite err "style.opacity" (text "0");
                DomWrite (Nth Field i) "aria-invalid" (text "false")] |})
  | _ =>
      (Ret tt,
       {| page := with_doc (alter_el (set_aria_invalid "false") (Nth Field i))
                    (page w);
          effects := effects w
            ++ [DomWrite (Nth Field i) "aria-invalid" (text "false")] |})
  end.
Proof.
  unfold clearFieldError. unfold mbind at 1, M_bind at 1.
  rewrite errorElementOf_eq. cbn [fst].
  destruct (errorMessageOf (doc (page w)) !! i ≫= _) as [err|];
    unfold assign_style, setAttribute, write; run_m;
    by rewrite <- ?app_assoc.
Qed.

Section FieldErrors.
Variable validity : Element -> ValidityState.

(** C10. [clearFieldError] on a form control returns normally and, with
    [errorElement] the error element it finds (if any), changes exactly
    this: the error element gets the style opacity '0' and the control the
    attribute aria-invalid "false".  Every other element is as before, no
    text content changes anywhere, and the rest of the page (window,
    closure variables, browser state) is untouched; the only effects are
    these one or two writes.  It is the body of the input listener, which
    the constructor registers on the required controls and nowhere
    else. *)
Theorem clearFieldError_frame i w :
  let field := Nth Field i in
  let w' := (clearFieldError (Some field) w).2 in
  (clearFieldError (Some field) w).1 = Ret tt
  ∧ (∃ errorElement : Ref,
       (errorElementOf (Some field) w).1 = Ret errorElement
       ∧ get_el field (doc (page w')) =
         set_aria_invalid "false" <$> get_el field (doc (page w))
       ∧ (∀ err, errorElement = Some err →
            get_el err (doc (page w')) =
            set_opacity "0" <$> get_el err (doc (page w)))
       ∧ (∀ n, n ≠ field → errorElement ≠ Some n →
            get_el n (doc (page w')) = get_el n (doc (page w)))
       ∧ effects w' =
         effects w
         ++ match errorElement with
            | Some err => [DomWrite err "style.opacity" (text "0")]
            | None => []
            end
         ++ [DomWrite field "aria-invalid" (text "false")])
  ∧ (∀ n, textContent <$> get_el n (doc (page w')) =
          textContent <$> get_el n (doc (page w)))
  ∧ errorMessageOf (doc (page w')) = errorMessageOf (doc (page w))
  ∧ win (page w') = win (page w)
  ∧ vars (page w') = vars (page w)
  ∧ browser (page w') = browser (page w)
  ∧ (∀ depth e,
       run_handler validity depth (onInput field) e =
       clearFieldError (Some field))
  ∧ (∀ d t h,
       L t input h ∈ wiring d ↔
       has ContactForm d = true
       ∧ ∃ f, f ∈ required_fields d ∧ t = NodeT f ∧ h = onInput f).
Proof.
  intros field w'. subst field w'. rewrite clearFieldError_eq.
  rewrite errorElementOf_eq. cbn [fst].
  destruct (errorMessageOf (doc (page w)) !! i ≫= _) as [err|] eqn:E.
  - assert (∃ j, err = Nth ErrorMessage j) as [j ->].
    { destruct (errorMessageOf (doc (page w)) !! i) as [j|];
        [|discriminate]. simpl in E.
      destruct (family ErrorMessage (doc (page w)) !! j);
        [|discriminate]. simpl in E. simplify_eq. eauto. }
    cbn [fst snd page effects with_doc doc win vars browser].
    split; [done|]. split; [|split; [|split; [|split; [|split; [|split]]]]];
      try done.
    + exists (Some (Nth ErrorMessage j)). split; [done|].
      split; [|split; [|split]].
      * rewrite get_alter_el_eq. by rewrite get_alter_el_ne.
      * intros err [= <-]. rewrite get_alter_el_ne by done.
        by rewrite get_alter_el_eq.
      * intros n H1 H2. rewrite !get_alter_el_ne; congruence.
      * reflexivity.
    + intros n. rewrite !get_alter_el.
      repeat case_decide; subst; rewrite <- ?option_fmap_compose;
        try done; by destruct (get_el _ _).
    + split; [by intros [|?] ?|]. intros d t h.
      rewrite elem_of_wiring. unfold L. naive_solver.
  - cbn [fst snd page effects with_doc doc win vars browser].
    split; [done|]. split; [|split; [|split; [|split; [|split; [|split]]]]];
      try done.
    + exists None. split; [done|]. split; [|split; [|split]].
      * by rewrite get_alter_el_eq.
      * intros err [=].
      * intros n H1 H2. rewrite !get_alter_el_ne; congruence.
      * reflexivity.
    + intros n. rewrite !get_alter_el.
      repeat case_decide; subst; rewrite <- ?option_fmap_compose;
        try done; by destruct (get_el _ _).
    + split; [by intros [|?] ?|]. intros d t h.
      rewrite elem_of_wiring. unfold L. naive_solver.
Qed.

End FieldErrors.

(** The first field of the sample page, left empty and blurred, shows
    "This field is required"; clearing the error hides the message and
    keeps its text. *)
Lemma clearFieldError_frame_witness :
  let w := run Sample.validity [Blur 0] Sample.world in
  let w' := (clearFieldError (Some (Nth Field 0)) w).2 in
  textContent <$> get_el (Nth ErrorMessage 0) (doc (page w')) =
    Some "This field is required"
  ∧ get_el (Nth ErrorMessage 0) (doc (page w')) =
    set_opacity "0" <$> get_el (Nth ErrorMessage 0) (doc (page w))
  ∧ get_el (Nth Field 1) (doc (page w')) = get_el (Nth Field 1) (doc (page w)).
Proof.
  intros w w'.
  destruct (clearFieldError_frame Sample.validity 0 w)
    as (_ & (err & E & _ & H1 & H2 & _) & H3 & _).
  vm_compute in E. injection E as <-.
  split; [|split].
  - etransitivity; [apply (H3 (Nth ErrorMessage 0))|].
    vm_compute. reflexivity.
  - apply H1. reflexivity.
  - apply H2; discriminate.
Defined.

(** ** Form submission *)

#[local] Arguments get_el : simpl never.
#[local] Arguments alter_el : simpl never.

#[export] Instance offline_preorder : PreOrder offline.
Proof.
  split; [by intros w|]. intros w1 w2 w3 H1 H2. unfold offline in *.
  congruence.
Qed.

Lemma fetches_app fx1 fx2 : fetches (fx1 ++ fx2) = fetches fx1 ++ fetches fx2.
Proof. apply omap_app. Qed.

Lemma offline_emit e :
  (∀ r, e ≠ Fetch r) → respects offline (emit e).
Proof.
  intros H w. unfold offline; simpl. rewrite fetches_app; simpl.
  destruct e; try by rewrite app_nil_r. by destruct (H r).
Qed.

Lemma offline_modify f : respects offline (modify f).
Proof. by intros w. Qed.

Ltac offline_leaf :=
  idtac;
  match goal with
  | |- respects offline (emit _) => apply offline_emit; intros; discriminate
  | |- respects offline (modify _) => apply offline_modify
  end.

Section Form.
Variable validity : Element -> ValidityState.

Lemma offline_validateField field :
  respects offline (validateField validity field).
Proof. respects_walk_with offline_leaf forget. Qed.

Lemma offline_validate_all fields b :
  respects offline (validate_all validity fields b).
Proof. respects_walk_with offline_leaf forget. Qed.

Lemma offline_showFormStatus element message type :
  respects offline (showFormStatus element message type).
Proof. respects_walk_with offline_leaf forget. Qed.

Lemma offline_setFormLoading button loading :
  respects offline (setFormLoading button loading).
Proof. respects_walk_with offline_leaf forget. Qed.

Lemma stable_validate_all fields b :
  respects stable (validate_all validity fields b).
Proof. respects_walk_with stable_leaf forget. Qed.

Lemma error_element_kind (d : Document) i err :
  (j ← errorMessageOf d !! i;
   _ ← family ErrorMessage d !! j; Some (Nth ErrorMessage j)) = Some err →
  ∃ j, err = Nth ErrorMessage j.
Proof.
  intros E. destruct (errorMessageOf d !! i) as [j|]; [|discriminate].
  simpl in E. destruct (family ErrorMessage d !! j); [|discriminate].
  simpl in E. simplify_eq. eauto.
Qed.

Lemma showFieldError_eq i message w :
  showFieldError (Some (Nth Field i)) message w =
  match (errorElementOf (Some (Nth Field i)) w).1 with
  | Ret (Some err) =>
      (Ret tt,
       {| page :=
            with_doc (alter_el (set_aria_invalid "true") (Nth Field i))
              (with_doc (alter_el (set_opacity "1") err)
                 (with_doc (alter_el (set_textContent message) err)
                    (page w)));
          effects := effects w
            ++ [DomWrite err "textContent" (text message);
                DomWrite err "style.opacity" (text "1");
                DomWrite (Nth Field i) "aria-invalid" (text "true")] |})
  | _ =>
      (Ret tt,
       {| page := with_doc (alter_el (set_aria_invalid "true") (Nth Field i))
                    (page w);
          effects := effects w
            ++ [DomWrite (Nth Field i) "aria-invalid" (text "true")] |})
  end.
Proof.
  unfold showFieldError. unfold mbind at 1, M_bind at 1.
  rewrite errorElementOf_eq. cbn [fst].
  destruct (errorMessageOf (doc (page w)) !! i ≫= _) as [err|];
    unfold assign_textContent, assign_style, setAttribute, write; run_m;
    by rewrite <- ?app_assoc.
Qed.

Lemma validateField_eq i w :
  validateField validity (Some (Nth Field i)) w =
  if valid (validity (the (Nth Field i) w)) then
    (Ret true, (clearFieldError (Some (Nth Field i)) w).2)
  else
    (Ret false,
     (showFieldError (Some (Nth Field i))
        (field_message validity (the (Nth Field i) w)) w).2).
Proof.
  unfold validateField. unfold mbind at 1, M_bind at 1.
  rewrite errorElementOf_eq. cbn [fst snd].
  unfold element, deref, the. run_m.
  destruct (valid _); simpl.
  - rewrite clearFieldError_eq.
    by destruct (errorElementOf _ _).1 as [[?|]|?].
  - unfold field_message. rewrite showFieldError_eq.
    by destruct (errorElementOf _ _).1 as [[?|]|?].
Qed.

(** [validateField] returns the validity the browser reports, and touches
    only the field itself and error elements. *)
Lemma validateField_spec i w :
  let r := validateField validity (Some (Nth Field i)) w in
  r.1 = Ret (valid (validity (the (Nth Field i) w)))
  ∧ ∀ n, n ≠ Nth Field i → (∀ j, n ≠ Nth ErrorMessage j) →
         get_el n (doc (page r.2)) = get_el n (doc (page w)).
Proof.
  cbv zeta. rewrite validateField_eq.
  destruct (valid _); (split; [done|]); intros n H1 H2; cbn [snd].
  - rewrite clearFieldError_eq, errorElementOf_eq. cbn [fst].
    destruct (errorMessageOf (doc (page w)) !! i ≫= _) as [err|] eqn:E;
      cbn [snd page doc with_doc].
    + destruct (error_element_kind _ _ _ E) as [j ->].
      rewrite !get_alter_el_ne; auto.
    + rewrite !get_alter_el_ne; auto.
  - rewrite showFieldError_eq, errorElementOf_eq. cbn [fst].
    destruct (errorMessageOf (doc (page w)) !! i ≫= _) as [err|] eqn:E;
      cbn [snd page doc with_doc].
    + destruct (error_element_kind _ _ _ E) as [j ->].
      rewrite !get_alter_el_ne; auto.
    + rewrite !get_alter_el_ne; auto.
Qed.

Lemma all_valid_ext fields w w' :
  (∀ n, n ∈ fields → get_el n (doc (page w')) = get_el n (doc (page w))) →
  all_valid validity fields w' = all_valid validity fields w.
Proof.
  intros H. unfold all_valid. induction fields as [|n fields IH]; [done|].
  simpl. unfold the at 1 3. rewrite H by left. f_equal.
  apply IH. intros m Hm. apply H. by right.
Qed.

Lemma validate_all_spec fields b w :
  NoDup fields → (∀ f, f ∈ fields → ∃ i, f = Nth Field i) →
  let r := validate_all validity fields b w in
  r.1 = Ret (b && all_valid validity fields w)
  ∧ ∀ n, n ∉ fields → (∀ j, n ≠ Nth ErrorMessage j) →
         get_el n (doc (page r.2)) = get_el n (doc (page w)).
Proof.
  revert b w. induction fields as [|f fields IH]; intros b w ND K; simpl.
  - split; [by rewrite andb_true_r|done].
  - apply list.NoDup_cons in ND as [Hf ND].
    destruct (K f) as [i ->]; [left|].
    unfold mbind, M_bind.
    destruct (validateField_spec i w) as [E1 E2].
    destruct (validateField validity (Some (Nth Field i)) w) as [o w1].
    simpl in E1, E2. subst o.
    destruct (IH (if negb (valid (validity (the (Nth Field i) w)))
                  then false else b) w1 ND) as [F1 F2].
    { intros g Hg. apply K. by right. }
    split.
    + rewrite F1. f_equal.
      rewrite (all_valid_ext fields w w1).
      * by destruct (valid _), b.
      * intros n Hn. apply E2; [by intros ->|].
        intros j ->. destruct (K (Nth ErrorMessage j)) as [? [=]].
        by right.
    + intros n Hn HE. apply not_elem_of_cons in Hn as [Hn1 Hn2].
      rewrite F2 by done. by apply E2.
Qed.

Lemma select_from_ge m sel es i j :
  Nth m j ∈ select_from m sel i es → (i ≤ j)%nat.
Proof.
  revert i. induction es as [|e es IH]; intros i; simpl.
  - by intros ?%elem_of_nil.
  - rewrite elem_of_app. intros [H|H].
    + destruct (sel e); [|by apply elem_of_nil in H].
      apply list_elem_of_singleton in H. injection H as ->. lia.
    + apply IH in H. lia.
Qed.

Lemma NoDup_select_from m sel i es : NoDup (select_from m sel i es).
Proof.
  revert i. induction es as [|e es IH]; intros i; simpl.
  - constructor.
  - destruct (sel e); simpl; [|apply IH].
    constructor; [|apply IH]. intros H. apply select_from_ge in H. lia.
Qed.

Lemma elem_of_select_from m sel i es j :
  Nth m j ∈ select_from m sel i es ↔
  (i ≤ j)%nat ∧ ∃ e, es !! (j - i)%nat = Some e ∧ sel e = true.
Proof.
  revert i. induction es as [|e0 es IH]; intros i; simpl.
  - split; [by intros ?%elem_of_nil|]. by intros (_ & e & ? & _).
  - rewrite elem_of_app, IH. split.
    + intros [H|(Hi & e & He & Hs)].
      * destruct (sel e0) eqn:E0; [|by apply elem_of_nil in H].
        apply list_elem_of_singleton in H. injection H as ->.
        split; [lia|]. exists e0. by rewrite Nat.sub_diag.
      * split; [lia|]. exists e. split; [|done].
        by replace (j - i)%nat with (S (j - S i)) by lia.
    + intros (Hi & e & He & Hs).
      destruct (decide (j = i)) as [->|Hne].
      * left. rewrite Nat.sub_diag in He. injection He as ->.
        rewrite Hs. left.
      * right. split; [lia|]. exists e. split; [|done].
        by replace (j - i)%nat with (S (j - S i)) in He by lia.
Qed.

(** A field the browser reports valid leaves [validateField] with its
    [aria-invalid] attribute 'false' and is otherwise untouched. *)
Lemma validateField_valid i w :
  valid (validity (the (Nth Field i) w)) = true →
  get_el (Nth Field i)
    (doc (page (validateField validity (Some (Nth Field i)) w).2)) =
  set_aria_invalid "false" <$> get_el (Nth Field i) (doc (page w)).
Proof.
  intros Hv. rewrite validateField_eq, Hv. cbn [snd].
  rewrite clearFieldError_eq, errorElementOf_eq. cbn [fst].
  destruct (errorMessageOf (doc (page w)) !! i ≫= _) as [err|] eqn:E;
    cbn [snd page doc with_doc].
  - destruct (error_element_kind _ _ _ E) as [j ->].
    by rewrite get_alter_el_eq, !get_alter_el_ne.
  - by rewrite get_alter_el_eq.
Qed.

Lemma validate_all_valid fields b w :
  NoDup fields → (∀ f, f ∈ fields → ∃ i, f = Nth Field i) →
  all_valid validity fields w = true →
  ∀ f, f ∈ fields →
       get_el f (doc (page (validate_all validity fields b w).2)) =
       set_aria_invalid "false" <$> get_el f (doc (page w)).
Proof.
  revert b w. induction fields as [|f0 fields IH]; intros b w ND K Hv f Hf.
  - by apply elem_of_nil in Hf.
  - apply list.NoDup_cons in ND as [Hf0 ND].
    destruct (K f0) as [i ->]; [left|].
    assert (∀ g, g ∈ fields → ∃ i, g = Nth Field i) as K'
      by (intros g Hg; apply K; by right).
    unfold all_valid in Hv. cbn [forallb] in Hv.
    apply andb_prop in Hv as [Hv0 Hv].
    cbn [validate_all]. unfold mbind, M_bind.
    pose proof (validateField_valid i w Hv0) as M0.
    destruct (validateField_spec i w) as [E1 E2].
    destruct (validateField validity (Some (Nth Field i)) w) as [o w0].
    cbn [fst snd] in *. subst o.
    set (b' := if negb _ then false else b).
    assert (∀ g, g ∈ fields →
              get_el g (doc (page w0)) = get_el g (doc (page w))) as Hg.
    { intros g Hg. apply E2; [by intros ->|].
      intros j ->. by destruct (K' _ Hg). }
    destruct (validate_all_spec fields b' w0 ND K') as [_ F2].
    apply elem_of_cons in Hf as [->|Hf].
    + rewrite F2; [exact M0|exact Hf0|done].
    + rewrite (IH b' w0 ND K'); [by rewrite Hg| |done].
      by rewrite (all_valid_ext fields w w0).
Qed.

(** When every required field is valid, the validation loop leaves the
    controls of the form [validated]. *)
Lemma validate_all_fields w :
  all_valid validity (required_fields (doc (page w))) w = true →
  family Field
    (doc (page (validate_all validity (required_fields (doc (page w)))
                  true w).2)) =
  validated <$> family Field (doc (page w)).
Proof.
  intros Hv. apply list_eq. intros i. rewrite list_lookup_fmap.
  change (get_el (Nth Field i)
            (doc (page (validate_all validity
                          (required_fields (doc (page w))) true w).2)) =
          validated <$> get_el (Nth Field i) (doc (page w))).
  pose proof (elem_of_select_from Field sel_required 0
                (family Field (doc (page w))) i) as Hin.
  fold (required_fields (doc (page w))) in Hin.
  rewrite Nat.sub_0_r in Hin.
  destruct (validate_all_spec (required_fields (doc (page w))) true w)
    as [_ F2]; [apply NoDup_select_from|apply select_from_kind|].
  destruct (get_el (Nth Field i) (doc (page w))) as [e|] eqn:Ee.
  - unfold validated. cbn [fmap option_fmap option_map].
    destruct (sel_required e) eqn:Es.
    + rewrite (validate_all_valid _ true w);
        [by rewrite Ee|apply NoDup_select_from|apply select_from_kind
        |done|].
      apply Hin. split; [lia|]. by exists e.
    + rewrite F2; [done| |done].
      intros (_ & e' & He' & Hs')%Hin.
      change (get_el (Nth Field i) (doc (page w)) = Some e') in He'.
      congruence.
  - rewrite F2; [by rewrite Ee| |done].
    intros (_ & e' & He' & _)%Hin.
    change (get_el (Nth Field i) (doc (page w)) = Some e') in He'.
    congruence.
Qed.

Lemma has_stable s w w' :
  stable w w' → has s (doc (page w')) = has s (doc (page w)).
Proof.
  intros [_ P]. specialize (P (One s)).
  destruct (has s (doc (page w))) eqn:E.
  - by apply has_is_Some, P, has_is_Some.
  - destruct (has s (doc (page w'))) eqn:E'; [|done].
    apply has_is_Some, P, has_is_Some in E'. congruence.
Qed.

Lemma has_class_add c l : has_class c (add_class c l) = true.
Proof.
  unfold add_class. destruct (has_class c l) eqn:E; [done|].
  unfold has_class. rewrite existsb_app. simpl.
  by rewrite String.eqb_refl, orb_true_r.
Qed.

Lemma single_alter_one f s d :
  single (alter_el f (One s) d) = alter f s (single d).
Proof. reflexivity. Qed.

Lemma showFormStatus_status message type w :
  has FormStatus (doc (page w)) = true →
  let r := showFormStatus (Some (One FormStatus)) message type w in
  r.1 = Ret tt ∧ shows message type (doc (page r.2))
  ∧ ∀ n, n ≠ One FormStatus →
         get_el n (doc (page r.2)) = get_el n (doc (page w)).
Proof.
  intros Hs. unfold showFormStatus.
  unfold has in Hs.
  destruct (single (doc (page w)) !! FormStatus) as [s|] eqn:E; [|done].
  destruct (String.eqb type "success");
    unfold assign_textContent, assign_className, setTimeout, write; run_m;
    (split; [done|]); (split; [|intros n Hn; by rewrite !get_alter_el_ne]);
    (eexists; split; [|split]);
    [rewrite !single_alter_one, !lookup_alter_eq, E; reflexivity
    |reflexivity|reflexivity
    |rewrite !single_alter_one, !lookup_alter_eq, E; reflexivity
    |reflexivity|reflexivity].
Qed.

Lemma setFormLoading_button b w :
  has SubmitBtn (doc (page w)) = true →
  let r := setFormLoading (Some (One SubmitBtn)) b w in
  r.1 = Ret tt ∧ loading b (doc (page r.2))
  ∧ ∀ n, n ≠ One SubmitBtn →
         get_el n (doc (page r.2)) = get_el n (doc (page w)).
Proof.
  intros Hs. unfold has in Hs.
  destruct (single (doc (page w)) !! SubmitBtn) as [btn|] eqn:E; [|done].
  unfold setFormLoading.
  destruct b; unfold classList_add, classList_remove, assign_disabled,
    write; run_m; (split; [done|]); split.
  - eexists. split.
    + rewrite !single_alter_one, !lookup_alter_eq, E. reflexivity.
    + simpl. by rewrite has_class_add.
  - intros n Hn. by rewrite !get_alter_el_ne.
  - eexists. split.
    + rewrite !single_alter_one, !lookup_alter_eq, E. reflexivity.
    + simpl. by rewrite has_class_remove.
  - intros n Hn. by rewrite !get_alter_el_ne.
Qed.

Lemma required_fields_kind d f :
  f ∈ required_fields d → ∃ i, f = Nth Field i.
Proof. apply select_from_kind. Qed.

Lemma handleFormSubmission_eq n w :
  handleFormSubmission validity (Some n) w =
  let submitBtn :=
    if has SubmitBtn (doc (page w)) then Some (One SubmitBtn) else None in
  let formStatus :=
    if has FormStatus (doc (page w)) then Some (One FormStatus) else None in
  (isValid ← validate_all validity (required_fields (doc (page w))) true;
   if negb isValid then
     showFormStatus formStatus msg_fix_errors "error" ;;
     mret None
   else
     setFormLoading submitBtn true ;;
     p ← get;
     f ← element (Some n) "action";
     emit (Fetch {| url := form_action (win p) f;
                    method := "POST";
                    payload := formData (doc p);
                    headers := [("Accept", "application/json")] |}) ;;
     mret (Some {| k_form := Some n; k_submitBtn := submitBtn;
                   k_formStatus := formStatus |})) w.
Proof.
  unfold handleFormSubmission.
  unfold mbind at 1, M_bind at 1. cbn [deref mret M_ret].
  unfold mbind at 1, M_bind at 1. rewrite query_eq.
  unfold mbind at 1, M_bind at 1. rewrite query_eq.
  reflexivity.
Qed.

Lemma handleFormSubmission_invalid n w :
  all_valid validity (required_fields (doc (page w))) w = false →
  ∃ w',
    handleFormSubmission validity (Some n) w = (Ret None, w')
    ∧ fetches (effects w') = fetches (effects w)
    ∧ (has FormStatus (doc (page w)) = true →
       shows msg_fix_errors "error" (doc (page w'))).
Proof.
  intros Hv. rewrite handleFormSubmission_eq. cbv zeta.
  unfold mbind at 1, M_bind at 1.
  destruct (validate_all_spec (required_fields (doc (page w))) true w)
    as [E1 _]; [apply NoDup_select_from|apply required_fields_kind|].
  pose proof (offline_validate_all (required_fields (doc (page w))) true w)
    as O1.
  pose proof (stable_validate_all (required_fields (doc (page w))) true w)
    as S1.
  destruct (validate_all validity _ true w) as [o w1].
  cbn [fst snd] in *. subst o. rewrite Hv. cbn [andb negb].
  unfold mbind at 1, M_bind at 1.
  pose proof (offline_showFormStatus
    (if has FormStatus (doc (page w)) then Some (One FormStatus) else None)
    msg_fix_errors "error" w1) as O2.
  destruct (has FormStatus (doc (page w))) eqn:Hs.
  - destruct (showFormStatus_status msg_fix_errors "error" w1)
      as (F1 & F2 & _); [by rewrite (has_stable _ w)|].
    destruct (showFormStatus _ _ _ w1) as [o w2]. cbn [fst snd] in *.
    subst o. exists w2. split; [done|]. split; [|done].
    unfold offline in *. congruence.
  - exists w1. split; [done|]. split; [exact O1|done].
Qed.

Lemma handleFormSubmission_valid n w :
  all_valid validity (required_fields (doc (page w))) w = true →
  has SubmitBtn (doc (page w)) = true →
  ∃ w',
    handleFormSubmission validity (Some n) w =
    (Ret (Some {| k_form := Some n;
                  k_submitBtn := Some (One SubmitBtn);
                  k_formStatus :=
                    if has FormStatus (doc (page w))
                    then Some (One FormStatus) else None |}), w')
    ∧ fetches (effects w') =
      fetches (effects w)
      ++ [{| url := form_action (win (page w')) (the n w');
             method := "POST";
             payload := formData (doc (page w'));
             headers := [("Accept", "application/json")] |}]
    ∧ loading true (doc (page w'))
    ∧ stable w w'
    ∧ family Field (doc (page w')) =
      validated <$> family Field (doc (page w)).
Proof.
  intros Hv Hb. rewrite handleFormSubmission_eq. cbv zeta.
  rewrite Hb. unfold mbind at 1, M_bind at 1.
  destruct (validate_all_spec (required_fields (doc (page w))) true w)
    as [E1 _]; [apply NoDup_select_from|apply required_fields_kind|].
  pose proof (offline_validate_all (required_fields (doc (page w))) true w)
    as O1.
  pose proof (stable_validate_all (required_fields (doc (page w))) true w)
    as S1.
  pose proof (validate_all_fields w Hv) as V1.
  destruct (validate_all validity _ true w) as [o w1].
  cbn [fst snd] in *. subst o. rewrite Hv. cbn [andb negb].
  unfold mbind at 1, M_bind at 1.
  pose proof (offline_setFormLoading (Some (One SubmitBtn)) true w1) as O2.
  destruct (setFormLoading_button true w1) as (F1 & F2 & F3);
    [by rewrite (has_stable _ w)|].
  assert (stable w1 (setFormLoading (Some (One SubmitBtn)) true w1).2)
    as S2.
  { split; [|intros m].
    - unfold setFormLoading, classList_add, assign_disabled, write.
      by run_m.
    - destruct (decide (m = One SubmitBtn)) as [->|Hm];
        [|by rewrite F3].
      destruct F2 as (btn & Eb & _). unfold get_el.
      rewrite Eb. split; [intros _|by eauto].
      apply has_is_Some. by rewrite (has_stable _ w). }
  destruct (setFormLoading _ true w1) as [o w2]. cbn [fst snd] in *.
  subst o. unfold element, deref. run_m.
  eexists. split; [reflexivity|]. cbn [effects page].
  split; [|split; [done|split; [by etransitivity|]]].
  - unfold offline in *. rewrite fetches_app, O2, O1. reflexivity.
  - rewrite <- V1. apply list_eq. intros i.
    by apply (F3 (Nth Field i)).
Qed.

Lemma form_reset_spec n w :
  let r := form_reset (Some n) w in
  r.1 = Ret tt
  ∧ family Field (doc (page r.2)) =
    reset_value <$> family Field (doc (page w))
  ∧ (∀ s, single (doc (page r.2)) !! s = single (doc (page w)) !! s)
  ∧ fetches (effects r.2) = fetches (effects w).
Proof.
  unfold form_reset. run_m. split; [done|]. split; [|split; [done|]].
  - unfold family; simpl. rewrite lookup_alter_eq.
    by destruct (multi (doc (page w)) !! Field).
  - rewrite fetches_app. simpl. by rewrite app_nil_r.
Qed.

Lemma shows_preserved message type d d' :
  single d' !! FormStatus = single d !! FormStatus →
  shows message type d → shows message type d'.
Proof. intros E (s & H & ?). exists s. by rewrite E. Qed.

Lemma family_stable_one f s d m :
  family m (alter_el f (One s) d) = family m d.
Proof. reflexivity. Qed.

Lemma resume_failure k (body : M unit) e w :
  k_submitBtn k = Some (One SubmitBtn) →
  k_formStatus k = (if has FormStatus (doc (page w))
                    then Some (One FormStatus) else None) →
  has SubmitBtn (doc (page w)) = true →
  body w = (Throw e, w) →
  let r := try_catch_finally body
             (fun error => showFormStatus (k_formStatus k) msg_failure "error")
             (setFormLoading (k_submitBtn k) false) w in
  r.1 = Ret tt
  ∧ loading false (doc (page r.2))
  ∧ (has FormStatus (doc (page w)) = true →
     shows msg_failure "error" (doc (page r.2)))
  ∧ fetches (effects r.2) = fetches (effects w).
Proof.
  intros Kb Ks Hb Hbody. cbv zeta.
  unfold try_catch_finally. rewrite Hbody, Kb, Ks.
  pose proof (offline_showFormStatus
    (if has FormStatus (doc (page w)) then Some (One FormStatus) else None)
    msg_failure "error" w) as O1.
  assert (∃ w1, showFormStatus
            (if has FormStatus (doc (page w)) then Some (One FormStatus)
             else None) msg_failure "error" w = (Ret tt, w1)
          ∧ (has FormStatus (doc (page w)) = true →
             shows msg_failure "error" (doc (page w1)))
          ∧ has SubmitBtn (doc (page w1)) = true) as (w1 & E1 & Sh & Hb1).
  { destruct (has FormStatus (doc (page w))) eqn:Hs.
    - destruct (showFormStatus_status msg_failure "error" w Hs)
        as (F1 & F2 & F3).
      destruct (showFormStatus _ _ _ w) as [o w1]. cbn [fst snd] in *.
      subst o. exists w1. split; [done|]. split; [done|].
      apply has_is_Some. rewrite F3 by done. by apply has_is_Some.
    - exists w. by split. }
  rewrite E1 in *. cbn [snd] in O1.
  pose proof (offline_setFormLoading (Some (One SubmitBtn)) false w1) as O2.
  destruct (setFormLoading_button false w1 Hb1) as (F1 & F2 & F3).
  destruct (setFormLoading _ false w1) as [o w2]. cbn [fst snd] in *.
  subst o. split; [done|]. split; [done|]. split.
  - intros Hs. eapply shows_preserved; [|by apply Sh].
    apply (F3 (One FormStatus)). discriminate.
  - unfold offline in *. simpl in *. congruence.
Qed.

Lemma family_of_get m d d' :
  (∀ i, get_el (Nth m i) d' = get_el (Nth m i) d) →
  family m d' = family m d.
Proof. intros H. apply list_eq. intros i. apply (H i). Qed.

Lemma single_of_get s d :
  single d !! s = get_el (One s) d.
Proof. reflexivity. Qed.

Lemma resume_success k n w :
  k_form k = Some n →
  k_submitBtn k = Some (One SubmitBtn) →
  k_formStatus k = (if has FormStatus (doc (page w))
                    then Some (One FormStatus) else None) →
  has SubmitBtn (doc (page w)) = true →
  let r := try_catch_finally
             (showFormStatus (k_formStatus k) msg_success "success" ;;
              form_reset (k_form k))
             (fun error => showFormStatus (k_formStatus k) msg_failure "error")
             (setFormLoading (k_submitBtn k) false) w in
  r.1 = Ret tt
  ∧ loading false (doc (page r.2))
  ∧ (has FormStatus (doc (page w)) = true →
     shows msg_success "success" (doc (page r.2)))
  ∧ family Field (doc (page r.2)) =
    reset_value <$> family Field (doc (page w))
  ∧ fetches (effects r.2) = fetches (effects w).
Proof.
  intros Kf Kb Ks Hb. cbv zeta.
  unfold try_catch_finally. rewrite Kf, Kb, Ks.
  pose proof (offline_showFormStatus
    (if has FormStatus (doc (page w)) then Some (One FormStatus) else None)
    msg_success "success" w) as O1.
  assert (∃ w1, showFormStatus
            (if has FormStatus (doc (page w)) then Some (One FormStatus)
             else None) msg_success "success" w = (Ret tt, w1)
          ∧ (has FormStatus (doc (page w)) = true →
             shows msg_success "success" (doc (page w1)))
          ∧ has SubmitBtn (doc (page w1)) = true
          ∧ family Field (doc (page w1)) = family Field (doc (page w)))
    as (w1 & E1 & Sh & Hb1 & Fd1).
  { destruct (has FormStatus (doc (page w))) eqn:Hs.
    - destruct (showFormStatus_status msg_success "success" w Hs)
        as (F1 & F2 & F3).
      destruct (showFormStatus _ _ _ w) as [o w1]. cbn [fst snd] in *.
      subst o. exists w1. split; [done|]. split; [done|]. split.
      + apply has_is_Some. rewrite F3 by done. by apply has_is_Some.
      + apply family_of_get. intros i. by apply F3.
    - exists w. by split. }
  unfold mbind, M_bind. rewrite E1 in *. cbn [snd] in O1.
  destruct (form_reset_spec n w1) as (R1 & R2 & R3 & R4).
  destruct (form_reset (Some n) w1) as [o w2]. cbn [fst snd] in *. subst o.
  assert (has SubmitBtn (doc (page w2)) = true) as Hb2.
  { unfold has in *. by rewrite R3. }
  pose proof (offline_setFormLoading (Some (One SubmitBtn)) false w2) as O2.
  destruct (setFormLoading_button false w2 Hb2) as (F1 & F2 & F3).
  destruct (setFormLoading _ false w2) as [o w3]. cbn [fst snd] in *.
  subst o. split; [done|]. split; [done|]. split; [|split].
  - intros Hs. eapply shows_preserved; [|by apply Sh].
    rewrite <- R3. apply (F3 (One FormStatus)). discriminate.
  - rewrite <- Fd1, <- R2. apply family_of_get. intros i. by apply F3.
  - unfold offline in *. simpl in *. congruence.
Qed.

(** What the continuation of a submission does once the request settles. *)
Lemma handleFormSubmission_resume_spec k n o w :
  k_form k = Some n →
  k_submitBtn k = Some (One SubmitBtn) →
  k_formStatus k = (if has FormStatus (doc (page w))
                    then Some (One FormStatus) else None) →
  has SubmitBtn (doc (page w)) = true →
  let r := handleFormSubmission_resume k o w in
  r.1 = Ret tt
  ∧ loading false (doc (page r.2))
  ∧ settled o w r.2
  ∧ fetches (effects r.2) = fetches (effects w).
Proof.
  intros Kf Kb Ks Hb. cbv zeta. unfold handleFormSubmission_resume, settled.
  destruct o as [status|]; [destruct (response_ok status)|].
  - destruct (resume_success k n w Kf Kb Ks Hb) as (?&?&?&?&?). done.
  - by eapply resume_failure.
  - by eapply resume_failure.
Qed.

End Form.

(** *** What a submission sends

    The request goes to [form.action], read after the validation: the
    validation and the status messages leave the window and the form's
    [action] attribute as they are, and on the controls they change the
    [aria-invalid] attribute alone. *)

#[export] Instance keeps_data_preorder : PreOrder keeps_data.
Proof.
  split; [by intros w n|]. intros w1 w2 w3 H1 H2 n Hn.
  by rewrite H2, H1.
Qed.

Lemma keeps_data_emit e : respects keeps_data (emit e).
Proof. by intros w n. Qed.

Lemma keeps_data_modify f n :
  (∀ e, entry (f e) = entry e) ∨ n = One SubmitBtn →
  respects keeps_data (modify (with_doc (alter_el f n))).
Proof.
  intros H w m Hm. cbn [modify snd page doc with_doc].
  rewrite get_alter_el. case_decide as E; [subst m|done].
  destruct H as [H| ->]; [|done].
  destruct (get_el n (doc (page w))); [|done]. simpl. by rewrite H.
Qed.

Ltac keeps_data_leaf :=
  idtac;
  match goal with
  | |- respects keeps_data (emit _) => apply keeps_data_emit
  | |- respects keeps_data (modify (with_browser _)) => by intros w n
  | |- respects keeps_data (modify (with_doc (alter_el _ _))) =>
      apply keeps_data_modify;
      first [ left; intros ?; unfold entry; simpl;
              rewrite ?lookup_insert_ne by done; reflexivity
            | by right ]
  end.

#[export] Instance same_window_preorder : PreOrder same_window.
Proof.
  split; [by intros w|]. intros w1 w2 w3 H1 H2. unfold same_window in *.
  by rewrite H2.
Qed.

Ltac same_window_leaf :=
  idtac;
  match goal with
  | |- respects same_window (emit _) => by intros ?
  | |- respects same_window (modify (with_browser _)) => by intros ?
  | |- respects same_window (modify (with_doc _)) => by intros ?
  end.

Lemma action_keeps n w w' :
  keeps_data w w' → n ≠ One SubmitBtn →
  attrs (the n w') !! "action" = attrs (the n w) !! "action".
Proof.
  intros K Hn. specialize (K n Hn). unfold the.
  destruct (get_el n (doc (page w'))), (get_el n (doc (page w)));
    simpl in *; try done. by injection K.
Qed.

Lemma listeners_on_nodes t ty (xs : list Node)
  (mk : Node -> list (EventType * Handler)) :
  (∀ x th, th ∈ mk x → th.1 ≠ ty) →
  listeners_on t ty
    (xs ≫= fun x => (fun th => L (NodeT x) th.1 th.2) <$> mk x) = [].
Proof.
  intros H. induction xs as [|x xs IH]; [done|].
  change ((x :: xs) ≫= ?f) with (f x ++ (xs ≫= f)).
  rewrite listeners_on_app, IH, app_nil_r.
  specialize (H x). induction (mk x) as [|th l IHl]; [done|].
  unfold listeners_on in *. rewrite fmap_cons, filter_cons.
  rewrite decide_False.
  - apply IHl. intros th' ?. apply H. by right.
  - intros [_ E]. by apply (H th); [left|].
Qed.

Lemma listeners_on_nil t ty : listeners_on t ty [] = [].
Proof. reflexivity. Qed.

Lemma listeners_on_cons_ne t ty t' ty' h ls :
  ty' ≠ ty →
  listeners_on t ty ({| target := t'; type := ty'; handler := h |} :: ls) =
  listeners_on t ty ls.
Proof.
  intros H. unfold listeners_on. rewrite filter_cons.
  rewrite decide_False; [done|]. by intros [_ ?].
Qed.

Lemma listeners_on_cons_eq t ty t' h ls :
  listeners_on t ty ({| target := t'; type := ty; handler := h |} :: ls) =
  (if bool_decide (t = t') then [h] else []) ++ listeners_on t ty ls.
Proof.
  unfold listeners_on. rewrite filter_cons. simpl.
  case_bool_decide as E.
  - subst. by rewrite decide_True.
  - rewrite decide_False; [done|]. by intros [-> _].
Qed.

Lemma submit_listeners d t :
  listeners_on t submit (wiring d) =
  if bool_decide (t = NodeT (One ContactForm)) && has ContactForm d
  then [onSubmit] else [].
Proof.
  unfold wiring. rewrite !listeners_on_app.
  pose proof (listeners_on_nodes t submit (hash_anchors d)
                (fun x => [(click, onAnchorClick x)])) as E1.
  pose proof (listeners_on_nodes t submit (required_fields d)
                (fun x => [(blur, onBlur x); (input, onInput x)])) as E2.
  pose proof (listeners_on_nodes t submit (nav_links d)
                (fun x => [(click, onNavLinkClick)])) as E3.
  specialize (E1 ltac:(by intros x th [->|?%elem_of_nil]%elem_of_cons)).
  specialize (E2 ltac:(by intros x th
    [->|[->|?%elem_of_nil]%elem_of_cons]%elem_of_cons)).
  specialize (E3 ltac:(by intros x th [->|?%elem_of_nil]%elem_of_cons)).
  simpl in E1, E2, E3. unfold L in *.
  destruct (has NavToggle d && has NavMenu d), (has SiteHeader d),
    (has ContactForm d), (has Hero d);
    rewrite ?listeners_on_app, ?E1, ?E2, ?E3, ?andb_false_r;
    repeat first
      [ rewrite listeners_on_cons_ne by discriminate
      | rewrite listeners_on_cons_eq ];
    rewrite ?listeners_on_nil, ?app_nil_r, ?andb_true_r; reflexivity.
Qed.

Section Submission.
Variable validity : Element -> ValidityState.

Lemma keeps_data_handleFormSubmission form :
  respects keeps_data (handleFormSubmission validity form).
Proof. respects_walk_with keeps_data_leaf track. Qed.

Lemma same_window_handleFormSubmission form :
  respects same_window (handleFormSubmission validity form).
Proof. respects_walk_with same_window_leaf track. Qed.

(** A submit event runs the one submit listener, once. *)
Lemma step_submit d w :
  listeners (browser (page w)) = wiring d → has ContactForm d = true →
  step validity Submit w =
  leaving w (exec (submit_listener validity) (entering w)).
Proof.
  intros Hl Hf.
  set (run := fun h => run_handler validity 1 h
                         (plain_event [One ContactForm] "")).
  set (w1 := exec (submit_listener validity) (entering w)).
  assert (listeners (browser (page w1)) = wiring d) as Hl1.
  { subst w1. rewrite page_exec.
    pose proof (stable_run_handler validity 1 onSubmit
                  (plain_event [One ContactForm] "") (entering w)) as [E _].
    cbn [run_handler] in E. by rewrite E. }
  assert (∀ t, t ≠ NodeT (One ContactForm) →
            deliver run submit w1 t = w1) as Hn.
  { intros t Ht. unfold deliver. rewrite Hl1, submit_listeners.
    rewrite bool_decide_false by done.
    by destruct (stopped (browser (page w1))). }
  assert (foldl (deliver run submit) (entering w)
            (bubble [One ContactForm]) = w1) as Hd.
  { cbn [bubble fmap list_fmap app foldl].
    assert (deliver run submit (entering w) (NodeT (One ContactForm)) = w1)
      as ->; [|by rewrite !Hn].
    unfold deliver.
    change (stopped (browser (page (entering w)))) with false. cbv iota.
    change (listeners (browser (page (entering w))))
      with (listeners (browser (page w))).
    rewrite Hl, submit_listeners, Hf, bool_decide_true by done.
    reflexivity. }
  unfold step, react, dispatch, dispatch_with.
  unfold mbind, M_bind, get, modify.
  cbn [fst snd]. rewrite propagate_eq. cbn [fst snd page effects].
  fold (entering w). fold run. by rewrite Hd.
Qed.

Lemma exec_ret (m : M unit) w w' : m w = (Ret tt, w') → exec m w = w'.
Proof. intros E. unfold exec, isolated. by rewrite E. Qed.

#[export] Instance awaits_preorder : PreOrder awaits.
Proof.
  split; [by intros w|]. intros w1 w2 w3 H1 H2. unfold awaits in *.
  congruence.
Qed.

Lemma awaits_handleFormSubmission form :
  respects awaits (handleFormSubmission validity form).
Proof.
  respects_walk_with
    ltac:(idtac;
          match goal with
          | |- respects awaits (emit _) => by intros w
          | |- respects awaits (modify _) => by intros w
          end) forget.
Qed.

Lemma run_boot_has_eq d win evs s :
  has s (doc (page (run validity evs (boot d win)))) = has s d.
Proof.
  rewrite (has_stable s (boot d win)) by apply stable_run.
  apply boot_has.
Qed.

Lemma submit_listener_invalid w :
  all_valid validity (required_fields (doc (page w))) w = false →
  ∃ w',
    submit_listener validity w = (Ret tt, w')
    ∧ fetches (effects w') = fetches (effects w)
    ∧ pending (browser (page w')) = pending (browser (page w))
    ∧ (has FormStatus (doc (page w)) = true →
       shows msg_fix_errors "error" (doc (page w'))).
Proof.
  intros Hv. unfold submit_listener, preventDefault.
  unfold mbind at 1, M_bind at 1.
  set (w0 := (emit PreventDefault w).2).
  change (emit PreventDefault w) with (Ret tt, w0). cbv iota.
  destruct (handleFormSubmission_invalid validity (One ContactForm) w0 Hv)
    as (w1 & E & F & S).
  pose proof (awaits_handleFormSubmission (Some (One ContactForm)) w0) as P.
  unfold mbind, M_bind. rewrite E in *. cbn [snd] in P.
  exists w1. split; [done|]. split; [|split; [exact P|exact S]].
  rewrite F. unfold w0. cbn [emit snd effects].
  rewrite fetches_app. apply app_nil_r.
Qed.

Lemma submit_listener_valid w :
  all_valid validity (required_fields (doc (page w))) w = true →
  has SubmitBtn (doc (page w)) = true →
  ∃ w',
    submit_listener validity w = (Ret tt, w')
    ∧ fetches (effects w') = fetches (effects w) ++ [submission_request w]
    ∧ pending (browser (page w')) =
      pending (browser (page w))
      ++ [submission_continuation (doc (page w))]
    ∧ loading true (doc (page w')).
Proof.
  intros Hv Hb. unfold submit_listener, preventDefault.
  unfold mbind at 1, M_bind at 1.
  set (w0 := (emit PreventDefault w).2).
  change (emit PreventDefault w) with (Ret tt, w0). cbv iota.
  destruct (handleFormSubmission_valid validity (One ContactForm) w0 Hv Hb)
    as (w1 & E & F & Ld & _ & V).
  pose proof (awaits_handleFormSubmission (Some (One ContactForm)) w0) as P.
  pose proof (keeps_data_handleFormSubmission (Some (One ContactForm)) w0)
    as K.
  pose proof (same_window_handleFormSubmission (Some (One ContactForm)) w0)
    as W.
  unfold mbind, M_bind. rewrite E in *. cbn [snd] in P, K, W.
  unfold modify. eexists. split; [reflexivity|].
  cbn [page effects browser with_browser set_pending pending doc].
  split; [|split; [|exact Ld]].
  - rewrite F. unfold w0. cbn [emit snd effects].
    rewrite fetches_app, app_nil_r. do 2 f_equal.
    unfold submission_request, formData. f_equal.
    + unfold form_action. rewrite W.
      by rewrite (action_keeps (One ContactForm) w0 w1).
    + by rewrite V.
  - unfold awaits in P. by rewrite P.
Qed.

(** C1.  On a page with the contact form, its status region and its
    submit button, after any history of events, a submit event
    re-validates the required fields.  If one of them is invalid, no
    request is sent and none is left awaiting a response, and the
    aggregate error message is shown in the status region.  If all of
    them are valid, exactly one request is sent: a POST to [form.action]
    with the header Accept: application/json, whose body is the
    [FormData] of the form, built from its controls as the validation
    leaves them; the button is put in its loading state and the
    submission awaits the response. *)
Theorem submission_validates_then_posts d win evs :
  has ContactForm d = true →
  let w := run validity evs (boot d win) in
  let w' := step validity Submit w in
  (all_valid validity (required_fields (doc (page w))) w = false →
   fetches (effects w') = fetches (effects w)
   ∧ pending (browser (page w')) = pending (browser (page w))
   ∧ (has FormStatus d = true →
      shows msg_fix_errors "error" (doc (page w'))))
  ∧ (all_valid validity (required_fields (doc (page w))) w = true →
     has SubmitBtn d = true →
     fetches (effects w') = fetches (effects w) ++ [submission_request w]
     ∧ method (submission_request w) = "POST"
     ∧ headers (submission_request w) = [("Accept", "application/json")]
     ∧ pending (browser (page w')) =
       pending (browser (page w)) ++ [submission_continuation d]
     ∧ loading true (doc (page w'))).
Proof.
  intros Hf w w'. subst w'.
  rewrite (step_submit d) by (done || apply run_boot_listeners).
  assert (∀ s, has s (doc (page w)) = has s d) as Hs
    by (intros s; apply run_boot_has_eq).
  split.
  - intros Hv.
    destruct (submit_listener_invalid (entering w) Hv)
      as (w1 & E & F & P & S).
    rewrite (exec_ret _ _ _ E). split; [exact F|]. split; [exact P|].
    intros H. apply S. change (has FormStatus (doc (page w)) = true).
    by rewrite Hs.
  - intros Hv Hb.
    destruct (submit_listener_valid (entering w) Hv) as (w1 & E & F & P & Ld).
    { change (has SubmitBtn (doc (page w)) = true). by rewrite Hs. }
    rewrite (exec_ret _ _ _ E). split; [exact F|].
    split; [done|]. split; [done|]. split; [|exact Ld].
    cbn [leaving page browser with_browser set_stopped pending].
    rewrite P. unfold submission_continuation.
    change (doc (page (entering w))) with (doc (page w)). by rewrite Hs.
Qed.

End Submission.

Lemma submission_validates_then_posts_witness :
  (let w := Sample.world in
   fetches (effects (step Sample.validity Submit w)) = fetches (effects w)
   ∧ shows msg_fix_errors "error"
       (doc (page (step Sample.validity Submit w))))
  ∧ (let w := run Sample.validity filled Sample.world in
     ∃ controls,
       fetches (effects (step Sample.validity Submit w)) =
       [{| url := "https://formspree.io/f/sample"; method := "POST";
           payload := FormData controls;
           headers := [("Accept", "application/json")] |}]
       ∧ (λ e, (attrs e !! "name", value e, disabled e)) <$> controls =
         [(Some "name", "Ann", false);
          (Some "email", "ann@example.org", false);
          (Some "message", "", false)]
       ∧ loading true (doc (page (step Sample.validity Submit w)))).
Proof.
  split.
  - destruct (submission_validates_then_posts Sample.validity
                Sample.document Sample.window [] eq_refl) as [H _].
    destruct (H ltac:(vm_compute; reflexivity)) as (F & _ & S).
    split; [exact F|]. apply S. vm_compute; reflexivity.
  - destruct (submission_validates_then_posts Sample.validity
                Sample.document Sample.window filled eq_refl) as [_ H].
    destruct (H ltac:(vm_compute; reflexivity) ltac:(vm_compute; reflexivity))
      as (F & _ & _ & _ & Ld).
    eexists. split; [|split; [|exact Ld]].
    + etransitivity; [exact F|]. vm_compute. reflexivity.
    + vm_compute. reflexivity.
Defined.

(** The status region is needed for the aggregate message.  On a page
    without it the required fields are empty, the submission is refused,
    and no element shows the message; the only writes are the field
    errors. *)
Lemma submission_without_status_region :
  let w := boot (Sample.without FormStatus Sample.document) Sample.window in
  let w' := step Sample.validity Submit w in
  all_valid Sample.validity (required_fields (doc (page w))) w = false
  ∧ (∀ message type, ¬ shows message type (doc (page w')))
  ∧ effects w' =
    effects w
    ++ [PreventDefault;
        DomWrite (Nth ErrorMessage 0) "textContent"
          (text "This field is required");
        DomWrite (Nth ErrorMessage 0) "style.opacity" (text "1");
        DomWrite (Nth Field 0) "aria-invalid" (text "true");
        DomWrite (Nth ErrorMessage 1) "textContent"
          (text "This field is required");
        DomWrite (Nth ErrorMessage 1) "style.opacity" (text "1");
        DomWrite (Nth Field 1) "aria-invalid" (text "true")].
Proof.
  cbv zeta. split; [vm_compute; reflexivity|]. split.
  - intros message type (s & E & _). vm_compute in E. discriminate.
  - vm_compute. reflexivity.
Qed.

(** On a page without the submit button a submission whose fields are all
    valid raises before the request is built: nothing is sent. *)
Lemma submission_without_button_raises :
  let w := run Sample.validity filled
             (boot (Sample.without SubmitBtn Sample.document)
                Sample.window) in
  let w' := step Sample.validity Submit w in
  all_valid Sample.validity (required_fields (doc (page w))) w = true
  ∧ fetches (effects w') = []
  ∧ list.last (effects w') = Some (Uncaught (TypeError "classList.add")).
Proof. cbv zeta. repeat split; vm_compute; reflexivity. Qed.

(** *** Submissions awaiting a response *)

#[export] Instance flight_preorder : PreOrder flight.
Proof.
  split.
  - intros w. split; [reflexivity|done].
  - intros w1 w2 w3 [S1 I1] [S2 I2]. split; [by etransitivity|auto].
Qed.

Lemma sound_stable w w' k : stable w w' → sound w k → sound w' k.
Proof.
  intros S (H1 & H2 & H3 & H4). unfold sound.
  by rewrite !(has_stable _ w w').
Qed.

Lemma flight_leaf (m : M unit) :
  respects stable m → respects awaits m → respects flight m.
Proof.
  intros S A w. specialize (S w). specialize (A w). split; [exact S|].
  intros I k Hk. unfold awaits in A. rewrite A in Hk.
  eapply sound_stable; eauto.
Qed.

Section InFlight.
Variable validity : Element -> ValidityState.

Lemma handleFormSubmission_ret n w k w' :
  handleFormSubmission validity (Some n) w = (Ret (Some k), w') →
  has SubmitBtn (doc (page w)) = true
  ∧ k = {| k_form := Some n;
           k_submitBtn := Some (One SubmitBtn);
           k_formStatus := if has FormStatus (doc (page w))
                           then Some (One FormStatus) else None |}.
Proof.
  rewrite handleFormSubmission_eq. cbv zeta.
  unfold mbind at 1, M_bind at 1.
  destruct (validate_all validity _ true w) as [[isValid|e] w1];
    [|discriminate].
  destruct isValid; cbn [negb].
  - destruct (has SubmitBtn (doc (page w))).
    + unfold mbind at 1, M_bind at 1.
      destruct (setFormLoading _ true w1) as [[[]|e] w2]; [|discriminate].
      unfold mbind at 1, M_bind at 1. cbn [get].
      unfold mbind at 1, M_bind at 1.
      destruct (element (Some n) "action" w2) as [[f|e] w3];
        [|discriminate].
      unfold mbind, M_bind, emit, mret, M_ret. intros [= <- _]. done.
    + unfold setFormLoading, classList_add, write, deref.
      unfold mbind, M_bind, throw. discriminate.
  - unfold mbind at 1, M_bind at 1.
    destruct (showFormStatus _ _ _ w1) as [[[]|e] w2]; discriminate.
Qed.

Lemma stable_handleFormSubmission form :
  respects stable (handleFormSubmission validity form).
Proof. respects_walk_with stable_leaf forget. Qed.

Lemma flight_submit_listener : respects flight (submit_listener validity).
Proof.
  intros w. split.
  { apply (stable_run_handler validity 0 onSubmit (plain_event [] "")). }
  intros I. unfold submit_listener, preventDefault.
  unfold mbind at 1, M_bind at 1.
  set (w0 := (emit PreventDefault w).2).
  change (emit PreventDefault w) with (Ret tt, w0). cbv iota.
  pose proof (awaits_handleFormSubmission validity
                (Some (One ContactForm)) w0) as P.
  pose proof (stable_handleFormSubmission (Some (One ContactForm)) w0) as S.
  unfold mbind, M_bind.
  destruct (handleFormSubmission validity (Some (One ContactForm)) w0)
    as [[[k|]|e] w1] eqn:E; cbn [snd] in *.
  - apply handleFormSubmission_ret in E as [Hb ->].
    intros k. cbn [modify snd page browser with_browser set_pending pending].
    unfold awaits in P. rewrite P. intros [Hk|Hk]%elem_of_app.
    + apply (sound_stable w0); [exact S|]. by apply I.
    + apply list_elem_of_singleton in Hk as ->.
      apply (sound_stable w0); [exact S|]. by repeat split.
  - intros k. cbn [mret M_ret snd]. unfold awaits in P. rewrite P.
    intros Hk. apply (sound_stable w0); [exact S|]. by apply I.
  - intros k. cbn [snd]. unfold awaits in P. rewrite P.
    intros Hk. apply (sound_stable w0); [exact S|]. by apply I.
Qed.

Ltac flight_leaf_tac :=
  idtac;
  match goal with
  | |- respects flight (submit_listener _) => apply flight_submit_listener
  | |- respects flight (emit _) =>
      apply flight_leaf; [stable_leaf|by intros ?]
  | |- respects flight (modify _) =>
      apply flight_leaf; [stable_leaf|by intros ?]
  end.

Lemma flight_run_handler depth h e :
  respects flight (run_handler validity depth h e).
Proof.
  revert h e. induction depth as [|d IH]; intros h e.
  - destruct h; cbn [run_handler];
      respects_walk_with flight_leaf_tac forget.
  - destruct h; cbn [run_handler];
      respects_walk_with flight_leaf_tac forget.
Qed.

Lemma flight_resume k o :
  respects flight (handleFormSubmission_resume k o).
Proof. respects_walk_with flight_leaf_tac forget. Qed.

Lemma flight_react ev : respects flight (react validity ev).
Proof.
  pose proof (flight_run_handler 1) as H.
  destruct ev; unfold react, dispatch;
    try (respects_walk_with flight_leaf_tac forget; fail).
  intros w. unfold mbind at 1, M_bind at 1. cbn [get].
  destruct (pending (browser (page w))) as [|k rest] eqn:E; [reflexivity|].
  unfold mbind, M_bind, modify.
  set (w1 := {| page := with_browser (set_pending rest) (page w);
                effects := effects w |}).
  transitivity w1.
  - split; [split; [reflexivity|tauto]|].
    intros I k' Hk'. apply (I k').
    rewrite E. by right.
  - apply respects_isolated; [typeclasses eauto| |apply flight_resume].
    intros e. apply flight_leaf; [apply stable_emit|by intros ?].
Qed.

Lemma flight_run evs w : flight w (run validity evs w).
Proof.
  revert w. induction evs as [|ev evs IH]; intros w; simpl.
  - reflexivity.
  - etransitivity; [apply (flight_react ev)|apply IH].
Qed.

End InFlight.

Ltac awaits_leaf :=
  idtac;
  match goal with
  | |- respects awaits (emit _) => by intros ?
  | |- respects awaits (modify _) => by intros ?
  end.

Lemma awaits_init : respects awaits init.
Proof.
  repeat (respects_walk_with awaits_leaf forget;
          try match goal with
              | |- respects _ (match ?x with _ => _ end _) => destruct x
              end).
Qed.

Lemma boot_pending d win : pending (browser (page (boot d win))) = [].
Proof.
  unfold boot.
  assert (respects awaits (isolated init)) as H.
  { apply respects_isolated; [typeclasses eauto| |apply awaits_init].
    intros e. by intros ?. }
  apply (H (fresh d win)).
Qed.

Section Settling.
Variable validity : Element -> ValidityState.

Lemma run_boot_in_flight d win evs :
  in_flight_sound (run validity evs (boot d win)).
Proof.
  apply (flight_run validity evs (boot d win)).
  intros k. rewrite boot_pending. by intros ?%elem_of_nil.
Qed.

Lemma step_settled o w k rest :
  pending (browser (page w)) = k :: rest →
  step validity (FetchSettled o) w =
  exec (handleFormSubmission_resume k o)
    {| page := with_browser (set_pending rest) (page w);
       effects := effects w |}.
Proof.
  intros E. unfold step, react. unfold mbind at 1, M_bind at 1. cbn [get].
  rewrite E. unfold mbind, M_bind, modify. by rewrite isolated_eq.
Qed.

(** C2. After any history of events, when a response (or a transport
    failure) arrives for a submission that reached the network call, the
    continuation of [handleFormSubmission] ends with the submit button out
    of its loading state: not disabled and without the 'loading' class.
    Before that, on a 2xx response the success message is shown (when the
    page has the status region) and every field of the form is reset; on
    any other response and on a rejected request the fixed failure message
    is shown instead.  No further request is sent. *)
Theorem loading_cleared_when_request_settles d win evs o :
  let w := run validity evs (boot d win) in
  pending (browser (page w)) ≠ [] →
  let w' := step validity (FetchSettled o) w in
  loading false (doc (page w'))
  ∧ settled o w w'
  ∧ fetches (effects w') = fetches (effects w)
  ∧ pending (browser (page w')) = tail (pending (browser (page w))).
Proof.
  intros w Hp w'. subst w'.
  pose proof (run_boot_in_flight d win evs) as I. fold w in I.
  destruct (pending (browser (page w))) as [|k rest] eqn:E; [done|].
  destruct (I k) as (Kf & Kb & Hb & Ks); [rewrite E; by left|].
  rewrite (step_settled o w k rest E).
  set (w1 := {| page := with_browser (set_pending rest) (page w);
                effects := effects w |}).
  destruct (handleFormSubmission_resume_spec k (One ContactForm) o w1
              Kf Kb Ks Hb) as (R1 & R2 & R3 & R4).
  assert (respects awaits (handleFormSubmission_resume k o)) as A
    by respects_walk_with awaits_leaf forget.
  specialize (A w1). unfold exec, isolated.
  destruct (handleFormSubmission_resume k o w1) as [r w2].
  cbn [fst snd] in *. subst r. cbn [snd].
  split; [exact R2|]. split; [exact R3|]. split; [exact R4|exact A].
Qed.

End Settling.

Lemma loading_cleared_when_request_settles_witness :
  let w := run Sample.validity (filled ++ [Submit]) Sample.world in
  loading false
    (doc (page (step Sample.validity (FetchSettled (Resolved 200)) w)))
  ∧ loading false
      (doc (page (step Sample.validity (FetchSettled (Resolved 500)) w)))
  ∧ loading false
      (doc (page (step Sample.validity (FetchSettled Rejected) w))).
Proof.
  cbv zeta. split; [|split].
  - apply (loading_cleared_when_request_settles Sample.validity
             Sample.document Sample.window (filled ++ [Submit])
             (Resolved 200)).
    vm_compute. discriminate.
  - apply (loading_cleared_when_request_settles Sample.validity
             Sample.document Sample.window (filled ++ [Submit])
             (Resolved 500)).
    vm_compute. discriminate.
  - apply (loading_cleared_when_request_settles Sample.validity
             Sample.document Sample.window (filled ++ [Submit]) Rejected).
    vm_compute. discriminate.
Defined.

(** ** Animation frames *)

Lemma scheduled_ext batch w w' :
  schedule (page w') = schedule (page w) →
  scheduled batch w → scheduled batch w'.
Proof.
  unfold schedule, scheduled. intros [= E1 E2 E3 E4]. cbv zeta.
  by rewrite E1, E2, E3, E4.
Qed.

#[export] Instance keeps_schedule_preorder : PreOrder keeps_schedule.
Proof.
  split; [intros w H; exact H|].
  intros w1 w2 w3 H1 H2 H. apply H2, H1, H.
Qed.

Lemma keeps_schedule_emit e : respects keeps_schedule (emit e).
Proof. intros w H. by apply (scheduled_ext [] w). Qed.

Lemma keeps_schedule_modify f :
  (∀ p, schedule (f p) = schedule p) →
  respects keeps_schedule (modify f).
Proof. intros H w H0. apply (scheduled_ext [] w); [apply H|exact H0]. Qed.

Lemma filter_none {A} (P : A → Prop) `{∀ x, Decision (P x)} (l : list A) :
  (∀ x, x ∈ l → ¬ P x) → filter P l = [].
Proof.
  induction l as [|x l IH]; intros H0; [done|].
  rewrite filter_cons, decide_False by (apply H0; left).
  apply IH. intros y Hy. apply H0. by right.
Qed.

Lemma header_frames_snoc fs id cb :
  header_frames (fs ++ [(id, cb)]) =
  header_frames fs ++ (if decide (cb = updateHeader) then [(id, cb)] else []).
Proof.
  unfold header_frames. rewrite list.filter_app. f_equal.
Qed.

Lemma parallax_frames_snoc fs id cb :
  parallax_frames (fs ++ [(id, cb)]) =
  parallax_frames fs
  ++ (if decide (cb = updateParallax) then [(id, cb)] else []).
Proof.
  unfold parallax_frames. rewrite list.filter_app. f_equal.
Qed.

(** [onScroll] *)
Lemma scroll_listener_scheduled w :
  scheduled [] w → scheduled [] (scroll_listener w).2.
Proof.
  intros H. pose proof H as (H1 & H2 & H3 & H4 & H5 & H6).
  unfold scroll_listener.
  unfold mbind at 1, M_bind at 1. cbn [get].
  destruct (ticking (vars (page w))) eqn:T; cbn [negb]; [exact H|].
  unfold requestAnimationFrame. run_m. unfold scheduled. simpl.
  rewrite header_frames_snoc, parallax_frames_snoc, !length_app.
  simpl in *. split; [lia|]. split; [lia|]. split; [lia|].
  split; [|split].
  - intros f [Hf|Hf]%elem_of_app.
    + specialize (H4 f Hf). lia.
    + apply list_elem_of_singleton in Hf as ->. simpl. lia.
  - intros id Hid. specialize (H5 id Hid). lia.
  - intros id cb [Hf|Hf]%elem_of_app; [by apply H6|].
    apply list_elem_of_singleton in Hf as [= -> ->].
    split; [discriminate|]. intros Hid. specialize (H5 _ Hid). lia.
Qed.

(** The [mouseenter] listener *)
Lemma mouse_enter_scheduled w :
  scheduled [] w → scheduled [] (mouse_enter w).2.
Proof.
  intros H. pose proof H as (H1 & H2 & H3 & H4 & H5 & H6).
  unfold mouse_enter.
  unfold mbind at 1, M_bind at 1. cbn [get].
  destruct (truthy (rafId (vars (page w)))) eqn:T; cbn [negb]; [exact H|].
  assert (rafId (vars (page w)) = None) as Hr.
  { destruct (rafId (vars (page w))) as [[|n]|] eqn:E; try done.
    specialize (H5 _ eq_refl). lia. }
  assert (parallax_frames (frames (browser (page w))) = []) as Hp.
  { apply filter_none. intros [id cb] Hf Hcb. simpl in Hcb. subst cb.
    apply H6 in Hf. destruct Hf as [Hf _]. specialize (Hf eq_refl).
    congruence. }
  unfold requestAnimationFrame. run_m. unfold scheduled. simpl.
  rewrite header_frames_snoc, parallax_frames_snoc, !length_app, Hp.
  simpl in *. split; [lia|]. split; [lia|]. split; [lia|].
  split; [|split].
  - intros f [Hf|Hf]%elem_of_app.
    + specialize (H4 f Hf). lia.
    + apply list_elem_of_singleton in Hf as ->. simpl. lia.
  - intros id [= <-]. lia.
  - intros id cb [Hf|Hf]%elem_of_app.
    + pose proof (H4 _ Hf) as Hlt. simpl in Hlt.
      apply H6 in Hf. rewrite Hr in Hf. split.
      * intros Hcb. apply Hf in Hcb. discriminate.
      * intros [= <-]. lia.
    + by apply list_elem_of_singleton in Hf as [= -> ->].
Qed.

Lemma querySelectorAll_eq m sel w :
  querySelectorAll m sel w =
  (Ret (select_from m sel 0 (family m (doc (page w)))), w).
Proof. reflexivity. Qed.

Lemma forEach_assign_style i xs prop v w :
  let r := forEach_from i xs
             (fun x _ => assign_style (Some x) prop v) w in
  r.1 = Ret tt
  ∧ doc (page r.2) = restyled prop v xs (doc (page w))
  ∧ win (page r.2) = win (page w)
  ∧ vars (page r.2) = vars (page w)
  ∧ browser (page r.2) = browser (page w)
  ∧ effects r.2 =
    effects w ++ ((fun x => DomWrite x ("style." +:+ prop) v) <$> xs).
Proof.
  revert i w. induction xs as [|x xs IH]; intros i w.
  - cbv zeta. simpl. by rewrite app_nil_r.
  - cbv zeta. cbn [forEach_from]. unfold mbind, M_bind.
    unfold assign_style at 1, write, deref. run_m.
    destruct (IH (S i)
                {| page := with_doc
                             (alter_el (set_style_property prop v) x)
                             (page w);
                   effects := effects w
                     ++ [DomWrite x ("style." +:+ prop) v] |})
      as (R1 & R2 & R3 & R4 & R5 & R6).
    unfold set_style_property in *.
    destruct (forEach_from (S i) xs _ _) as [o w1]. cbn [fst snd] in *.
    subst o. repeat split; try done.
    rewrite R6. cbn [effects]. by rewrite <- app_assoc.
Qed.

Lemma get_restyled_in prop v xs n d e :
  n ∈ xs → get_el n (restyled prop v xs d) = Some e →
  style e !! prop = Some v.
Proof.
  unfold restyled. revert e. induction xs as [|x xs IH] using rev_ind.
  - by intros e ?%elem_of_nil.
  - intros e Hn. rewrite foldl_app. cbn [foldl]. rewrite get_alter_el.
    case_decide as E.
    + subst x. destruct (get_el n _) as [e0|]; [|done]. intros [= <-].
      simpl. apply lookup_insert_eq.
    + apply elem_of_app in Hn as [Hn|Hn]; [by apply IH|].
      apply list_elem_of_singleton in Hn. congruence.
Qed.

Lemma get_restyled_out prop v xs n d :
  n ∉ xs → get_el n (restyled prop v xs d) = get_el n d.
Proof.
  unfold restyled. induction xs as [|x xs IH] using rev_ind; [done|].
  intros Hn. rewrite foldl_app. cbn [foldl].
  apply not_elem_of_app in Hn as [Hn1 Hn2].
  rewrite get_alter_el_ne; [by apply IH|].
  intros ->. apply Hn2. left.
Qed.

Lemma get_restyled_other prop v xs n d e :
  get_el n (restyled prop v xs d) = Some e →
  ∀ q, q ≠ prop → ∃ e0, get_el n d = Some e0 ∧ style e !! q = style e0 !! q.
Proof.
  unfold restyled. revert e. induction xs as [|x xs IH] using rev_ind.
  - intros e H q _. eauto.
  - intros e. rewrite foldl_app. cbn [foldl]. rewrite get_alter_el.
    case_decide as E; [|apply IH].
    subst x. destruct (get_el n (foldl _ d xs)) as [e1|] eqn:E1; [|done].
    intros [= <-] q Hq. destruct (IH e1 eq_refl q Hq) as (e0 & H0 & H1).
    exists e0. split; [done|]. simpl. by rewrite lookup_insert_ne.
Qed.

Lemma select_from_all m i es j e :
  es !! j = Some e → Nth m (i + j) ∈ select_from m sel_all i es.
Proof.
  revert i j. induction es as [|e0 es IH]; intros i j; [done|].
  destruct j as [|j]; simpl.
  - intros _. rewrite Nat.add_0_r. left.
  - intros H. right. replace (i + S j)%nat with (S i + j)%nat by lia.
    by apply IH.
Qed.

Lemma filter_filter_absorb {A} (P Q : A → Prop)
  `{∀ x, Decision (P x)} `{∀ x, Decision (Q x)} (l : list A) :
  (∀ x, x ∈ l → P x → Q x) → filter P (filter Q l) = filter P l.
Proof.
  induction l as [|x l IH]; intros HPQ; [done|].
  assert (filter P (filter Q l) = filter P l) as IH'
    by (apply IH; intros y Hy; apply HPQ; by right).
  rewrite (filter_cons Q). destruct (decide (Q x)) as [q|q].
  - rewrite !filter_cons, IH'. done.
  - rewrite IH', filter_cons. rewrite decide_False; [done|].
    intros p. apply q, HPQ; [left|done].
Qed.

(** The [mouseleave] listener: the pending parallax frame, if any, is
    cancelled, and every orb and cube gets the empty transform.  The
    header's frame request and the stored pointer position are left as
    they are. *)
Lemma mouse_leave_spec w :
  scheduled [] w →
  ∃ w',
    mouse_leave w = (Ret tt, w')
    ∧ scheduled [] w'
    ∧ rafId (vars (page w')) = None
    ∧ parallax_frames (frames (browser (page w'))) = []
    ∧ header_frames (frames (browser (page w'))) =
      header_frames (frames (browser (page w)))
    ∧ ticking (vars (page w')) = ticking (vars (page w))
    ∧ mouseX (vars (page w')) = mouseX (vars (page w))
    ∧ mouseY (vars (page w')) = mouseY (vars (page w))
    ∧ doc (page w') =
      restyled "transform" (text "") (cubes_of (doc (page w)))
        (restyled "transform" (text "") (orbs_of (doc (page w)))
           (doc (page w))).
Proof.
  intros H. pose proof H as (H1 & H2 & H3 & H4 & H5 & H6).
  unfold mouse_leave. unfold mbind at 1, M_bind at 1. cbn [get].
  assert (∃ w1,
    (if truthy (rafId (vars (page w)))
     then match rafId (vars (page w)) with
          | Some id => cancelAnimationFrame id
          | None => mret tt
          end ;; modify (with_vars (set_rafId None))
     else mret tt) w = (Ret tt, w1)
    ∧ scheduled [] w1
    ∧ rafId (vars (page w1)) = None
    ∧ parallax_frames (frames (browser (page w1))) = []
    ∧ header_frames (frames (browser (page w1))) =
      header_frames (frames (browser (page w)))
    ∧ ticking (vars (page w1)) = ticking (vars (page w))
    ∧ mouseX (vars (page w1)) = mouseX (vars (page w))
    ∧ mouseY (vars (page w1)) = mouseY (vars (page w))
    ∧ doc (page w1) = doc (page w))
    as (w1 & E1 & S1 & F1 & F2 & F3 & F4 & F5 & F6 & F7).
  { destruct (rafId (vars (page w))) as [[|n]|] eqn:Hr; cbn [truthy].
    - specialize (H5 _ eq_refl). lia.
    - unfold cancelAnimationFrame. run_m. eexists. split; [reflexivity|].
      simpl.
      assert (parallax_frames
                (filter (λ f, f.1 ≠ S n) (frames (browser (page w)))) = [])
        as Hp.
      { apply filter_none. intros [id cb] [Hid Hf]%list_elem_of_filter Hcb.
        simpl in *. subst cb. apply H6 in Hf. destruct Hf as [Hf _].
        specialize (Hf eq_refl). congruence. }
      assert (header_frames
                (filter (λ f, f.1 ≠ S n) (frames (browser (page w)))) =
              header_frames (frames (browser (page w)))) as Hh.
      { apply filter_filter_absorb. intros [id cb] Hin Hcb. simpl in *.
        subst cb. intros ->. apply H6 in Hin. destruct Hin as [_ Hin].
        by specialize (Hin eq_refl). }
      split; [|by rewrite Hp, Hh].
      unfold scheduled. simpl. rewrite Hp, Hh. simpl in *.
      split; [lia|]. split; [lia|]. split; [lia|]. split; [|split].
      + intros f [_ Hf]%list_elem_of_filter. by apply H4.
      + done.
      + intros id cb [Hid Hf]%list_elem_of_filter. simpl in Hid.
        apply H6 in Hf. split; [|done]. intros Hcb. apply Hf in Hcb.
        congruence.
    - exists w. split; [done|]. split; [exact H|]. split; [done|].
      split; [|done].
      apply filter_none. intros [id cb] Hf Hcb. simpl in Hcb. subst cb.
      apply H6 in Hf. destruct Hf as [Hf _]. by specialize (Hf eq_refl). }
  unfold mbind at 1, M_bind at 1. rewrite E1.
  unfold mbind at 1, M_bind at 1. rewrite querySelectorAll_eq.
  unfold mbind at 1, M_bind at 1. rewrite querySelectorAll_eq.
  unfold forEach, mbind, M_bind. rewrite F7.
  fold (orbs_of (doc (page w))). fold (cubes_of (doc (page w))).
  destruct (forEach_assign_style 0 (orbs_of (doc (page w))) "transform"
              (text "") w1) as (R1 & R2 & _ & R4 & R5 & _).
  destruct (forEach_from 0 (orbs_of (doc (page w))) _ w1) as [o w2].
  cbn [fst snd] in *. subst o.
  destruct (forEach_assign_style 0 (cubes_of (doc (page w))) "transform"
              (text "") w2) as (Q1 & Q2 & _ & Q4 & Q5 & _).
  destruct (forEach_from 0 (cubes_of (doc (page w))) _ w2) as [o w3].
  cbn [fst snd] in *. subst o.
  assert (schedule (page w3) = schedule (page w1)) as Hs
    by (unfold schedule; by rewrite Q4, Q5, R4, R5).
  exists w3. split; [done|].
  split; [exact (scheduled_ext [] w1 w3 Hs S1)|].
  rewrite Q4, Q5, R4, R5, Q2, R2, F7. done.
Qed.

#[export] Instance same_schedule_preorder : PreOrder same_schedule.
Proof.
  split; [by intros w|]. intros w1 w2 w3 H1 H2. unfold same_schedule in *.
  congruence.
Qed.

Ltac same_schedule_leaf :=
  idtac;
  match goal with
  | |- respects same_schedule (emit _) => by intros ?
  | |- respects same_schedule (modify _) => by intros ?
  end.

Lemma seq_returns {A} (m : M unit) (k : M A) w :
  returns m → (m ;; k) w = k (m w).2.
Proof.
  intros H. unfold mbind, M_bind. specialize (H w).
  destruct (m w) as [o w1]. simpl in *. by subst o.
Qed.

(** [updateHeader] clears the guard and requests nothing. *)
Lemma run_updateHeader_spec w :
  ∃ w',
    run_updateHeader w = (Ret tt, w')
    ∧ frames (browser (page w')) = frames (browser (page w))
    ∧ nextFrame (browser (page w')) = nextFrame (browser (page w))
    ∧ ticking (vars (page w')) = false
    ∧ rafId (vars (page w')) = rafId (vars (page w)).
Proof.
  unfold run_updateHeader, classList_add, classList_remove, assign_style,
    write, deref, header.
  run_m.
  repeat (match goal with
          | |- context [PrimFloat.ltb ?a ?b] => destruct (PrimFloat.ltb a b)
          end; simpl);
    (eexists; split; [reflexivity|done]).
Qed.

(** [updateParallax] requests the next frame and stores its id. *)
Lemma run_updateParallax_spec w :
  ∃ w',
    run_updateParallax w = (Ret tt, w')
    ∧ frames (browser (page w')) =
      frames (browser (page w))
      ++ [(nextFrame (browser (page w)), updateParallax)]
    ∧ nextFrame (browser (page w')) = S (nextFrame (browser (page w)))
    ∧ ticking (vars (page w')) = ticking (vars (page w))
    ∧ rafId (vars (page w')) = Some (nextFrame (browser (page w))).
Proof.
  unfold run_updateParallax.
  unfold mbind at 1, M_bind at 1. rewrite querySelectorAll_eq.
  unfold mbind at 1, M_bind at 1. rewrite querySelectorAll_eq.
  set (orbs := select_from Orb sel_all 0 (family Orb (doc (page w)))).
  set (cubes := select_from Cube sel_all 0 (family Cube (doc (page w)))).
  cbv beta iota.
  match goal with
  | |- context [forEach orbs ?f ≫= _] => set (F := forEach orbs f)
  end.
  match goal with
  | |- context [forEach cubes ?f ≫= _] => set (G := forEach cubes f)
  end.
  assert (returns F) as RF by (subst F; total_walk).
  assert (returns G) as RG by (subst G; total_walk).
  assert (respects same_schedule F) as SF
    by (subst F; respects_walk_with same_schedule_leaf forget).
  assert (respects same_schedule G) as SG
    by (subst G; respects_walk_with same_schedule_leaf forget).
  rewrite (seq_returns F _ w RF). rewrite (seq_returns G _ _ RG).
  specialize (SF w). specialize (SG (F w).2).
  set (w2 := (G (F w).2).2) in *.
  assert (schedule (page w2) = schedule (page w)) as [= E1 E2 E3 E4]
    by (unfold same_schedule in *; congruence).
  unfold requestAnimationFrame. run_m. eexists. split; [reflexivity|].
  simpl. by rewrite E1, E2, E3.
Qed.

Lemma header_frames_cons id cb fs :
  header_frames ((id, cb) :: fs) =
  (if decide (cb = updateHeader) then [(id, cb)] else [])
  ++ header_frames fs.
Proof.
  unfold header_frames. rewrite filter_cons. simpl.
  by destruct (decide (cb = updateHeader)).
Qed.

Lemma parallax_frames_cons id cb fs :
  parallax_frames ((id, cb) :: fs) =
  (if decide (cb = updateParallax) then [(id, cb)] else [])
  ++ parallax_frames fs.
Proof.
  unfold parallax_frames. rewrite filter_cons. simpl.
  by destruct (decide (cb = updateParallax)).
Qed.

(** One callback of the current frame. *)
Lemma run_frame_callback_scheduled f rest w :
  scheduled (f :: rest) w →
  scheduled rest (exec (run_frame_callback f.2) w).
Proof.
  destruct f as [id [|]]; intros (H1 & H2 & H3 & H4 & H5 & H6);
    cbn [snd run_frame_callback];
    rewrite header_frames_cons in H2; rewrite parallax_frames_cons in H3;
    simpl in H2, H3.
  - destruct (run_updateHeader_spec w) as (w' & E & F1 & F2 & F3 & F4).
    rewrite (exec_ret _ _ _ E). unfold scheduled.
    rewrite F1, F2, F3, F4.
    destruct (ticking (vars (page w))); repeat split; try done; try lia.
    + by apply H5.
    + by apply H5.
    + by apply H6.
    + by apply H6.
  - destruct (run_updateParallax_spec w) as (w' & E & F1 & F2 & F3 & F4).
    rewrite (exec_ret _ _ _ E). unfold scheduled.
    rewrite F1, F2, F3, F4, header_frames_snoc, parallax_frames_snoc.
    rewrite !length_app.
    assert (parallax_frames (frames (browser (page w))) = []) as Hp.
    { destruct (parallax_frames (frames (browser (page w)))); [done|].
      simpl in H3. lia. }
    rewrite Hp in *. simpl in *.
    split; [lia|]. split; [lia|]. split; [lia|]. split; [|split].
    + intros f [Hf|Hf]%elem_of_app.
      * specialize (H4 f Hf). lia.
      * apply list_elem_of_singleton in Hf as ->. simpl. lia.
    + intros i [= <-]. lia.
    + intros i cb [Hf|Hf]%elem_of_app.
      * pose proof (H4 _ Hf) as Hlt. simpl in Hlt. split.
        -- intros ->.
           assert ((i, updateParallax) ∈
                   parallax_frames (frames (browser (page w)))) as Hin
             by (by apply list_elem_of_filter).
           rewrite Hp in Hin. by apply elem_of_nil in Hin.
        -- intros [= <-]. lia.
      * by apply list_elem_of_singleton in Hf as [= -> ->].
Qed.

Lemma run_frame_callbacks_scheduled batch w :
  scheduled batch w →
  scheduled []
    (foldl (fun w f => exec (run_frame_callback f.2) w) w batch).
Proof.
  revert w. induction batch as [|f rest IH]; intros w H; [done|].
  simpl. apply IH. by apply run_frame_callback_scheduled.
Qed.

Lemma step_animation_frame validity w :
  step validity AnimationFrame w =
  foldl (fun w f => exec (run_frame_callback f.2) w) (frame_start w)
    (frames (browser (page w))).
Proof.
  unfold step, react. unfold mbind at 1, M_bind at 1. cbn [get].
  unfold mbind, M_bind, modify. fold (frame_start w).
  unfold forEach. by rewrite forEach_isolated.
Qed.

Lemma frame_start_scheduled w :
  scheduled [] w → scheduled (frames (browser (page w))) (frame_start w).
Proof.
  intros (H1 & H2 & H3 & H4 & H5 & H6). unfold scheduled. simpl in *.
  split; [lia|]. split; [lia|]. split; [lia|].
  split; [by intros f ?%elem_of_nil|]. split; [exact H5|].
  by intros id cb ?%elem_of_nil.
Qed.

Lemma keeps_schedule_scroll_listener :
  respects keeps_schedule scroll_listener.
Proof. intros w H. by apply scroll_listener_scheduled. Qed.

Lemma keeps_schedule_mouse_enter : respects keeps_schedule mouse_enter.
Proof. intros w H. by apply mouse_enter_scheduled. Qed.

Lemma keeps_schedule_mouse_leave : respects keeps_schedule mouse_leave.
Proof.
  intros w H. destruct (mouse_leave_spec w H) as (w' & E & S & _).
  by rewrite E.
Qed.

Ltac schedule_leaf :=
  idtac;
  match goal with
  | |- respects keeps_schedule scroll_listener =>
      apply keeps_schedule_scroll_listener
  | |- respects keeps_schedule mouse_enter =>
      apply keeps_schedule_mouse_enter
  | |- respects keeps_schedule mouse_leave =>
      apply keeps_schedule_mouse_leave
  | |- respects keeps_schedule (emit _) => apply keeps_schedule_emit
  | |- respects keeps_schedule (modify _) =>
      apply keeps_schedule_modify; intros ?; reflexivity
  end.

Section Frames.
Variable validity : Element -> ValidityState.

Lemma keeps_schedule_run_handler depth h e :
  respects keeps_schedule (run_handler validity depth h e).
Proof.
  revert h e. induction depth as [|d IH]; intros h e.
  - destruct h; cbn [run_handler];
      respects_walk_with schedule_leaf forget.
  - destruct h; cbn [run_handler];
      respects_walk_with schedule_leaf forget.
Qed.

Lemma keeps_schedule_react ev : respects keeps_schedule (react validity ev).
Proof.
  pose proof (keeps_schedule_run_handler 1) as H.
  destruct ev; unfold react, dispatch;
    try (respects_walk_with schedule_leaf forget; fail).
  intros w Hw. change (scheduled [] (step validity AnimationFrame w)).
  rewrite step_animation_frame.
  by apply run_frame_callbacks_scheduled, frame_start_scheduled.
Qed.

Lemma scheduled_run evs w :
  scheduled [] w → scheduled [] (run validity evs w).
Proof.
  revert w. induction evs as [|ev evs IH]; intros w H; [done|].
  simpl. apply IH. by apply (keeps_schedule_react ev).
Qed.

End Frames.

#[export] Instance idle_preorder : PreOrder idle.
Proof.
  split; [by intros w|].
  intros w1 w2 w3 (A1 & A2 & A3 & A4) (B1 & B2 & B3 & B4).
  unfold idle. rewrite B1, B2. repeat split; auto.
Qed.

Ltac idle_leaf :=
  idtac;
  match goal with
  | |- respects idle (emit _) => by intros ?
  | |- respects idle (modify _) => by intros ?
  end.

Lemma idle_init : respects idle init.
Proof.
  repeat (respects_walk_with idle_leaf forget;
          try match goal with
              | |- respects _ (match ?x with _ => _ end _) => destruct x
              end).
Qed.

Lemma boot_scheduled d win : scheduled [] (boot d win).
Proof.
  assert (respects idle (isolated init)) as H.
  { apply respects_isolated; [typeclasses eauto| |apply idle_init].
    intros e. by intros ?. }
  destruct (H (fresh d win)) as (E1 & E2 & E3 & E4). fold (boot d win) in *.
  simpl in *. specialize (E3 eq_refl). specialize (E4 eq_refl).
  unfold scheduled. rewrite E1, E2, E3, E4. simpl.
  split; [lia|]. split; [done|]. split; [lia|].
  split; [by intros f ?%elem_of_nil|]. split; [done|].
  by intros id cb ?%elem_of_nil.
Qed.

#[export] Instance guarded_preorder : PreOrder guarded.
Proof.
  split; [intros w H; exact H|].
  intros w1 w2 w3 H1 H2 H. apply H2, H1, H.
Qed.

Ltac guarded_leaf :=
  idtac;
  match goal with
  | |- respects guarded (emit _) => by intros ? ?
  | |- respects guarded (modify _) => by intros ? ?
  end.

#[export] Instance no_header_update_preorder : PreOrder no_header_update.
Proof.
  split; [by intros w|]. intros w1 w2 w3 H1 H2.
  unfold no_header_update in *. congruence.
Qed.

Lemma header_updates_app fx1 fx2 :
  header_updates (fx1 ++ fx2) = (header_updates fx1 + header_updates fx2)%nat.
Proof.
  unfold header_updates. by rewrite List.filter_app, length_app.
Qed.

Lemma no_header_update_emit e :
  is_header_update e = false → respects no_header_update (emit e).
Proof.
  intros H w. unfold no_header_update. simpl.
  rewrite header_updates_app. unfold header_updates at 2. simpl.
  rewrite H. simpl. lia.
Qed.

Ltac no_header_update_leaf :=
  idtac;
  match goal with
  | |- respects no_header_update (emit _) =>
      apply no_header_update_emit; reflexivity
  | |- respects no_header_update (modify _) => by intros ?
  end.

Lemma run_updateParallax_no_header_update :
  respects no_header_update run_updateParallax.
Proof. respects_walk_with no_header_update_leaf track. Qed.

Lemma run_updateHeader_header_update w :
  header_updates (effects (run_updateHeader w).2) =
  S (header_updates (effects w)).
Proof.
  unfold run_updateHeader, classList_add, classList_remove, assign_style,
    write, deref, header.
  run_m.
  repeat (match goal with
          | |- context [PrimFloat.ltb ?a ?b] => destruct (PrimFloat.ltb a b)
          end; simpl);
    rewrite !header_updates_app; unfold header_updates; simpl; lia.
Qed.

Lemma run_frame_callbacks_header_updates batch w :
  header_updates
    (effects (foldl (fun w f => exec (run_frame_callback f.2) w) w batch)) =
  (header_updates (effects w) + length (header_frames batch))%nat.
Proof.
  revert w. induction batch as [|[id cb] rest IH]; intros w; simpl; [lia|].
  rewrite IH, header_frames_cons, length_app.
  destruct cb; cbn [run_frame_callback]; simpl.
  - destruct (run_updateHeader_spec w) as (w' & E & _).
    pose proof (run_updateHeader_header_update w) as Hu.
    rewrite (exec_ret _ _ _ E). rewrite E in Hu. simpl in Hu. lia.
  - destruct (run_updateParallax_spec w) as (w' & E & _).
    pose proof (run_updateParallax_no_header_update w) as Hu.
    rewrite (exec_ret _ _ _ E). rewrite E in Hu.
    unfold no_header_update in Hu. simpl in Hu. lia.
Qed.

Section Coalescing.
Variable validity : Element -> ValidityState.

Lemma guarded_run_handler depth h e :
  respects guarded (run_handler validity depth h e).
Proof.
  revert h e. induction depth as [|d IH]; intros h e.
  - destruct h; cbn [run_handler];
      respects_walk_with guarded_leaf forget.
  - destruct h; cbn [run_handler];
      respects_walk_with guarded_leaf forget.
Qed.

Lemma guarded_react ev :
  ev ≠ AnimationFrame → respects guarded (react validity ev).
Proof.
  pose proof (guarded_run_handler 1) as H.
  destruct ev; intros Hev; try done; unfold react, dispatch;
    respects_walk_with guarded_leaf forget.
Qed.

(** When no listener an event reaches does anything in the world the
    dispatch starts from, the dispatch leaves that world. *)
Lemma dispatch_idle d0 ty targets e w :
  listeners (browser (page w)) = wiring d0 →
  (∀ t h, t ∈ targets → L t ty h ∈ wiring d0 →
          run_handler validity 1 h e (entering w) = (Ret tt, entering w)) →
  (dispatch validity ty targets e w).2 = leaving w (entering w).
Proof.
  intros Hl Hin.
  unfold dispatch, dispatch_with, mbind, M_bind, get, modify.
  cbn [fst snd]. rewrite propagate_eq. cbn [fst snd page effects].
  fold (entering w).
  rewrite (foldl_fixed _ targets (entering w)); [done|].
  intros t Ht. unfold deliver.
  change (stopped (browser (page (entering w)))) with false. cbv iota.
  change (listeners (browser (page (entering w))))
    with (listeners (browser (page w))). rewrite Hl.
  apply foldl_fixed. intros h Hh. unfold exec, isolated.
  rewrite (Hin t h); auto.
  by apply elem_of_listeners_on.
Qed.

Lemma scroll_listeners d t h :
  L t scroll h ∈ wiring d → h = onScroll.
Proof.
  intros Hl. apply elem_of_wiring in Hl. unfold L in Hl.
  destruct_or?; destruct_and?; destruct_or?;
    repeat match goal with H : ∃ _, _ |- _ => destruct H as (? & ? & ?) end;
    destruct_or?; simplify_eq; reflexivity.
Qed.

(** C7. After any history of events the header's frame requests and its
    guard agree: exactly one [updateHeader] callback is outstanding when
    [ticking] is set and none otherwise, so never more than one.  While the
    guard is set a scroll event requests no frame (the frame queue and the
    effects are as before, the guard stays set); no event other than an
    animation frame clears a set guard; and an animation frame runs
    [updateHeader] as many times as it is outstanding, that is at most
    once. *)
Theorem header_updates_coalesced d win evs :
  let w := run validity evs (boot d win) in
  (length (header_frames (frames (browser (page w)))) =
   if ticking (vars (page w)) then 1 else 0)%nat
  ∧ (length (header_frames (frames (browser (page w)))) ≤ 1)%nat
  ∧ (∀ y, ticking (vars (page w)) = true →
       let w' := step validity (Scroll y) w in
       frames (browser (page w')) = frames (browser (page w))
       ∧ effects w' = effects w
       ∧ ticking (vars (page w')) = true)
  ∧ (∀ ev, ticking (vars (page w)) = true →
       ticking (vars (page (step validity ev w))) = false →
       ev = AnimationFrame)
  ∧ (let w' := step validity AnimationFrame w in
     header_updates (effects w') =
     (header_updates (effects w)
      + length (header_frames (frames (browser (page w)))))%nat
     ∧ (header_updates (effects w') ≤ S (header_updates (effects w)))%nat).
Proof.
  intros w.
  assert (scheduled [] w) as (H1 & H2 & H3 & H4 & H5 & H6)
    by apply scheduled_run, boot_scheduled.
  simpl in H2.
  assert (length (header_frames (frames (browser (page w)))) ≤ 1)%nat as Hle
    by (rewrite H2; destruct (ticking (vars (page w))); lia).
  split; [exact H2|]. split; [exact Hle|]. split; [|split].
  - intros y T. cbv zeta. unfold step, react. unfold mbind, M_bind, modify.
    set (w1 := {| page := with_win (set_scrollY y) (page w);
                  effects := effects w |}).
    rewrite (dispatch_idle d scroll [WindowT] (plain_event [] "") w1).
    + done.
    + apply (run_boot_listeners validity d win evs).
    + intros t h _ Hl. apply scroll_listeners in Hl as ->.
      cbn [run_handler]. unfold scroll_listener.
      unfold mbind, M_bind. cbn [get].
      change (ticking (vars (page (entering w1))))
        with (ticking (vars (page w))). by rewrite T.
  - intros ev T F. destruct ev; try reflexivity; exfalso;
      match type of F with
      | ticking (vars (page (step _ ?ev _))) = _ =>
          pose proof (guarded_react ev ltac:(discriminate) w T) as G
      end; unfold step in F; congruence.
  - cbv zeta. rewrite step_animation_frame.
    rewrite run_frame_callbacks_header_updates. simpl. split; [done|lia].
Qed.

End Coalescing.

(** The sample page scrolled once: the header's update is outstanding. *)
Lemma header_updates_coalesced_witness :
  let w := run Sample.validity [Scroll 150] Sample.world in
  ticking (vars (page w)) = true
  ∧ length (header_frames (frames (browser (page w)))) = 1%nat
  ∧ frames (browser (page (step Sample.validity (Scroll 300) w))) =
    frames (browser (page w))
  ∧ ticking (vars (page (step Sample.validity AnimationFrame w))) = false.
Proof.
  cbv zeta.
  destruct (header_updates_coalesced Sample.validity Sample.document
              Sample.window [Scroll 150]) as (A & _ & C & _).
  assert (ticking (vars (page (run Sample.validity [Scroll 150]
                                 Sample.world))) = true) as T
    by (vm_compute; reflexivity).
  split; [exact T|]. split; [|split].
  - change (boot Sample.document Sample.window) with Sample.world in A.
    by rewrite T in A.
  - apply (C 300%float T).
  - vm_compute. reflexivity.
Defined.

(** ** The parallax loop *)

Lemma get_restyled_is_Some prop v xs n d :
  is_Some (get_el n (restyled prop v xs d)) ↔ is_Some (get_el n d).
Proof.
  unfold restyled. induction xs as [|x xs IH] using rev_ind; [done|].
  rewrite foldl_app. cbn [foldl]. by rewrite is_Some_get_alter_el.
Qed.

Lemma mouseleave_listeners d t :
  listeners_on t mouseleave (wiring d) =
  if bool_decide (t = NodeT (One Hero)) && has Hero d
  then [onMouseLeave] else [].
Proof.
  unfold wiring. rewrite !listeners_on_app.
  pose proof (listeners_on_nodes t mouseleave (hash_anchors d)
                (fun x => [(click, onAnchorClick x)])) as E1.
  pose proof (listeners_on_nodes t mouseleave (required_fields d)
                (fun x => [(blur, onBlur x); (input, onInput x)])) as E2.
  pose proof (listeners_on_nodes t mouseleave (nav_links d)
                (fun x => [(click, onNavLinkClick)])) as E3.
  specialize (E1 ltac:(by intros x th [->|?%elem_of_nil]%elem_of_cons)).
  specialize (E2 ltac:(by intros x th
    [->|[->|?%elem_of_nil]%elem_of_cons]%elem_of_cons)).
  specialize (E3 ltac:(by intros x th [->|?%elem_of_nil]%elem_of_cons)).
  simpl in E1, E2, E3. unfold L in *.
  destruct (has NavToggle d && has NavMenu d), (has SiteHeader d),
    (has ContactForm d), (has Hero d);
    rewrite ?listeners_on_app, ?E1, ?E2, ?E3, ?andb_false_r;
    repeat first
      [ rewrite listeners_on_cons_ne by discriminate
      | rewrite listeners_on_cons_eq ];
    rewrite ?listeners_on_nil, ?app_nil_r, ?andb_true_r; reflexivity.
Qed.

Section Parallax.
Variable validity : Element -> ValidityState.

(** An event that reaches one listener runs it, once. *)
Lemma dispatch_single d ty t h e rest w :
  listeners (browser (page w)) = wiring d →
  (∀ t', listeners_on t' ty (wiring d) =
         if bool_decide (t' = t) then [h] else []) →
  t ∉ rest →
  (dispatch validity ty (t :: rest) e w).2 =
  leaving w (exec (run_handler validity 1 h e) (entering w)).
Proof.
  intros Hl Hon Hrest.
  set (run := fun h => run_handler validity 1 h e).
  set (w1 := exec (run_handler validity 1 h e) (entering w)).
  assert (listeners (browser (page w1)) = wiring d) as Hl1.
  { subst w1. rewrite page_exec.
    pose proof (stable_run_handler validity 1 h e (entering w)) as [E _].
    by rewrite E. }
  assert (foldl (deliver run ty) w1 rest = w1) as Hn.
  { apply foldl_fixed. intros t' Ht'. unfold deliver.
    rewrite Hl1, Hon, bool_decide_false by (by intros ->).
    by destruct (stopped (browser (page w1))). }
  assert (foldl (deliver run ty) (entering w) (t :: rest) = w1) as Hd.
  { cbn [foldl].
    assert (deliver run ty (entering w) t = w1) as ->; [|exact Hn].
    unfold deliver.
    change (stopped (browser (page (entering w)))) with false. cbv iota.
    change (listeners (browser (page (entering w))))
      with (listeners (browser (page w))).
    by rewrite Hl, Hon, bool_decide_true. }
  unfold dispatch, dispatch_with.
  unfold mbind, M_bind, get, modify.
  cbn [fst snd]. rewrite propagate_eq. cbn [fst snd page effects].
  fold (entering w). fold run. by rewrite Hd.
Qed.

(** *** The pointer between two moves

    Only [handleMouseMove] writes the stored pointer position, and it is
    registered for [mousemove] alone. *)

#[local] Instance keeps_pointer_preorder : PreOrder keeps_pointer.
Proof.
  split; [by intros w|]. intros w1 w2 w3 [H1 H2] [H3 H4].
  split; congruence.
Qed.

Ltac keeps_pointer_leaf :=
  idtac;
  match goal with
  | |- respects keeps_pointer (emit _) => by intros ?
  | |- respects keeps_pointer (modify _) => by intros ?
  end.

Lemma wiring_mousemove d t ty :
  L t ty handleMouseMove ∈ wiring d → ty = mousemove.
Proof.
  intros Hl. apply elem_of_wiring in Hl. unfold L in Hl.
  destruct_or?; destruct_and?; destruct_or?;
    repeat match goal with H : ∃ _, _ |- _ => destruct H as (? & ? & ?) end;
    destruct_or?; simplify_eq; reflexivity.
Qed.

Lemma keeps_pointer_dispatch_with d0 run ty targets e w :
  listeners (browser (page w)) = wiring d0 →
  (∀ h, respects stable (run h e)) →
  (∀ t h w', L t ty h ∈ wiring d0 →
             listeners (browser (page w')) = wiring d0 →
             keeps_pointer w' (run h e w').2) →
  keeps_pointer w (dispatch_with run ty targets e w).2.
Proof.
  intros Hl Hst Hk.
  unfold dispatch_with, mbind, M_bind, get, modify.
  cbn [fst snd]. rewrite propagate_eq. cbn [fst snd page effects].
  fold (entering w).
  assert (∀ w0, listeners (browser (page w0)) = wiring d0 →
     listeners (browser (page
       (foldl (deliver (fun h => run h e) ty) w0 targets))) = wiring d0
     ∧ keeps_pointer w0 (foldl (deliver (fun h => run h e) ty) w0 targets))
    as H; [|by apply (H (entering w))].
  induction targets as [|t rest IH]; intros w0 Hl0; simpl; [done|].
  assert (listeners (browser (page
            (deliver (fun h => run h e) ty w0 t))) = wiring d0
          ∧ keeps_pointer w0 (deliver (fun h => run h e) ty w0 t))
    as [L1 O1].
  { unfold deliver. destruct (stopped (browser (page w0))); [done|].
    rewrite Hl0.
    assert (∀ h, h ∈ listeners_on t ty (wiring d0) → L t ty h ∈ wiring d0)
      as Hin by (intros h; apply elem_of_listeners_on).
    revert Hin. generalize (listeners_on t ty (wiring d0)).
    intros hs. revert w0 Hl0.
    induction hs as [|h hs IHh]; intros w0 Hl0 Hin; simpl; [done|].
    assert (listeners (browser (page (exec (run h e) w0))) = wiring d0
            ∧ keeps_pointer w0 (exec (run h e) w0)) as [L2 O2].
    { split.
      - rewrite page_exec. destruct (Hst h w0) as [-> _]. exact Hl0.
      - unfold exec, isolated. pose proof (Hk t h w0) as O.
        destruct (run h e w0) as [[[]|x] w1]; cbn [fst snd] in *;
          apply O; (apply Hin; left) || done. }
    destruct (IHh _ L2) as [L3 O3]; [intros; apply Hin; by right|].
    split; [done|]. by etransitivity. }
  destruct (IH _ L1) as [L2 O2]. split; [done|]. by etransitivity.
Qed.

Lemma keeps_pointer_run_handler_0 h e :
  h ≠ handleMouseMove →
  respects keeps_pointer (run_handler validity 0 h e).
Proof.
  intros Hh. destruct h; try done; cbn [run_handler];
    respects_walk_with ltac:(keeps_pointer_leaf) forget.
Qed.

Lemma keeps_pointer_toggle_keydown d0 e w :
  listeners (browser (page w)) = wiring d0 →
  keeps_pointer w (run_handler validity 1 onToggleKeydown e w).2.
Proof.
  intros Hl.
  change (run_handler validity 1 onToggleKeydown e)
    with (if String.eqb (key e) "Enter" || String.eqb (key e) " "
          then preventDefault ;;
               element_click (run_handler validity 0) navToggle e
          else mret tt).
  destruct (_ || _); [|done].
  unfold preventDefault, element_click, navToggle, deref.
  unfold mbind at 1, M_bind at 1. cbn [emit fst snd].
  unfold mbind at 1, M_bind at 1. cbn [mret M_ret fst snd].
  set (wp := {| page := page w; effects := effects w ++ [PreventDefault] |}).
  transitivity wp; [done|].
  apply (keeps_pointer_dispatch_with d0); [exact Hl| |].
  - intros h. apply stable_run_handler.
  - intros t h w' Hin _. apply keeps_pointer_run_handler_0.
    intros ->. by apply wiring_mousemove in Hin.
Qed.

Lemma keeps_pointer_run_handler_1 d0 h e w :
  h ≠ handleMouseMove → listeners (browser (page w)) = wiring d0 →
  keeps_pointer w (run_handler validity 1 h e w).2.
Proof.
  intros Hh Hl.
  destruct h; try done; try (by apply (keeps_pointer_toggle_keydown d0));
    match goal with
    | |- keeps_pointer _ (?m _).2 =>
        assert (respects keeps_pointer m) as H; [|apply H]
    end;
    cbn [run_handler]; respects_walk_with ltac:(keeps_pointer_leaf) forget.
Qed.

Lemma keeps_pointer_dispatch d0 ty targets e w :
  ty ≠ mousemove → listeners (browser (page w)) = wiring d0 →
  keeps_pointer w (dispatch validity ty targets e w).2.
Proof.
  intros Hty Hl. apply (keeps_pointer_dispatch_with d0); [exact Hl| |].
  - intros h. apply stable_run_handler.
  - intros t h w' Hin Hl'.
    apply (keeps_pointer_run_handler_1 d0); [|exact Hl'].
    intros ->. by apply wiring_mousemove in Hin.
Qed.

(** No event other than a pointer move over the hero changes the stored
    pointer position. *)
Lemma keeps_pointer_step d0 ev w :
  is_mouse_move ev = false → listeners (browser (page w)) = wiring d0 →
  keeps_pointer w (step validity ev w).
Proof.
  intros Hev Hl. unfold step.
  destruct ev; try done; unfold react;
    try (by apply (keeps_pointer_dispatch d0));
    try (unfold mbind at 1, M_bind at 1; cbn [modify fst snd];
         match goal with
         | |- keeps_pointer _ (dispatch _ ?ty ?ts ?e ?w1).2 =>
             by apply (keeps_pointer_dispatch d0 ty ts e w1)
         end);
    try (revert w Hl; intros w _; revert w;
         match goal with
         | |- ∀ w, keeps_pointer w (?m w).2 =>
             change (respects keeps_pointer m)
         end;
         respects_walk_with ltac:(keeps_pointer_leaf) forget).
Qed.

Lemma keeps_pointer_run d0 evs w :
  Forall (λ ev, is_mouse_move ev = false) evs →
  listeners (browser (page w)) = wiring d0 →
  keeps_pointer w (run validity evs w).
Proof.
  intros Hevs. revert w.
  induction Hevs as [|ev evs Hev _ IH]; intros w Hl; [done|].
  cbn [run foldl]. transitivity (step validity ev w).
  - by apply (keeps_pointer_step d0).
  - apply IH. unfold step.
    destruct (stable_react validity ev w) as [-> _]. exact Hl.
Qed.

(** What the pointer-leave itself does. *)
Lemma mouse_leave_step d win evs :
  has Hero d = true →
  let w := run validity evs (boot d win) in
  let w' := step validity MouseLeave w in
  rafId (vars (page w')) = None
  ∧ parallax_frames (frames (browser (page w'))) = []
  ∧ (∀ i e, family Orb (doc (page w')) !! i = Some e →
            style e !! "transform" = Some (text ""))
  ∧ (∀ i e, family Cube (doc (page w')) !! i = Some e →
            style e !! "transform" = Some (text ""))
  ∧ mouseX (vars (page w')) = mouseX (vars (page w))
  ∧ mouseY (vars (page w')) = mouseY (vars (page w)).
Proof.
  intros Hh w w'. subst w'. unfold step, react.
  rewrite (dispatch_single d mouseleave (NodeT (One Hero)) onMouseLeave);
    [|apply run_boot_listeners
     |intros t'; rewrite mouseleave_listeners, Hh; by rewrite andb_true_r
     |by intros ?%elem_of_nil].
  cbn [run_handler].
  assert (scheduled [] (entering w)) as Hs.
  { apply (scheduled_ext [] w); [reflexivity|].
    apply scheduled_run, boot_scheduled. }
  destruct (mouse_leave_spec _ Hs)
    as (w1 & E & _ & F1 & F2 & _ & _ & F5 & F6 & F7).
  rewrite (exec_ret _ _ _ E).
  cbn [leaving page vars browser with_browser set_stopped frames doc].
  change (doc (page (entering w))) with (doc (page w)) in F7.
  split; [exact F1|]. split; [exact F2|].
  split; [|split; [|split; [exact F5|exact F6]]].
  - intros i e He. change (get_el (Nth Orb i) (doc (page w1)) = Some e) in He.
    rewrite F7 in He. rewrite get_restyled_out in He.
    + apply (get_restyled_in _ _ _ _ _ _ ) with (2 := He).
      assert (is_Some (get_el (Nth Orb i) (doc (page w)))) as [e0 H0].
      { eapply get_restyled_is_Some. by eexists. }
      apply (select_from_all Orb 0 _ i e0 H0).
    + intros Hin. apply select_from_kind in Hin as [j [=]].
  - intros i e He. change (get_el (Nth Cube i) (doc (page w1)) = Some e) in He.
    rewrite F7 in He.
    apply (get_restyled_in _ _ _ _ _ _ ) with (2 := He).
    assert (is_Some (get_el (Nth Cube i) (doc (page w)))) as [e0 H0].
    { apply (get_restyled_is_Some "transform" (text "")
               (orbs_of (doc (page w)))).
      apply (get_restyled_is_Some "transform" (text "")
               (cubes_of (doc (page w)))).
      by eexists. }
    apply (select_from_all Cube 0 _ i e0 H0).
Qed.

(** C6.  On a page with the hero region, after any history of events, a
    pointer-leave of the hero cancels the parallax loop (the stored
    request id is cleared and no [updateParallax] callback is
    outstanding) and gives every orb and every cube the empty inline
    transform.  The stored pointer position is not reset: [mouseX] and
    [mouseY] are what they were before the event, and they keep that
    value through every later event until the next pointer move over the
    hero. *)
Theorem mouse_leave_cancels_and_resets d win evs :
  has Hero d = true →
  let w := run validity evs (boot d win) in
  let w' := step validity MouseLeave w in
  rafId (vars (page w')) = None
  ∧ parallax_frames (frames (browser (page w'))) = []
  ∧ (∀ i e, family Orb (doc (page w')) !! i = Some e →
            style e !! "transform" = Some (text ""))
  ∧ (∀ i e, family Cube (doc (page w')) !! i = Some e →
            style e !! "transform" = Some (text ""))
  ∧ mouseX (vars (page w')) = mouseX (vars (page w))
  ∧ mouseY (vars (page w')) = mouseY (vars (page w))
  ∧ (∀ later, Forall (λ ev, is_mouse_move ev = false) later →
       keeps_pointer w (run validity later w')).
Proof.
  intros Hh w w'.
  destruct (mouse_leave_step d win evs Hh) as (A & B & C & D & E & F).
  split; [exact A|]. split; [exact B|]. split; [exact C|].
  split; [exact D|]. split; [exact E|]. split; [exact F|].
  intros later Hl. subst w'.
  change (run validity later (step validity MouseLeave w))
    with (run validity (MouseLeave :: later) w).
  apply (keeps_pointer_run d); [by constructor|].
  apply run_boot_listeners.
Qed.

End Parallax.

Lemma mouse_leave_cancels_and_resets_witness :
  let w := run Sample.validity hovering Sample.world in
  let w' := step Sample.validity MouseLeave w in
  rafId (vars (page w)) = Some 1%nat
  ∧ rafId (vars (page w')) = None
  ∧ parallax_frames (frames (browser (page w'))) = []
  ∧ keeps_pointer w
      (run Sample.validity [MouseEnter; AnimationFrame; Scroll 200] w').
Proof.
  cbv zeta.
  destruct (mouse_leave_cancels_and_resets Sample.validity Sample.document
              Sample.window hovering eq_refl)
    as (A & B & _ & _ & _ & _ & K).
  split; [vm_compute; reflexivity|]. split; [exact A|].
  split; [exact B|]. apply K. by repeat constructor.
Defined.

(** The claim as stated fails: after the pointer has moved to (300, 100)
    in a hero of 400 by 400 and then left, the stored position is still
    (0.5, -0.5), not the neutral (0, 0). *)
Lemma mouse_leave_keeps_pointer :
  let w := run Sample.validity hovering Sample.world in
  let w' := step Sample.validity MouseLeave w in
  PrimFloat.eqb (mouseX (vars (page w'))) 0.5 = true
  ∧ PrimFloat.eqb (mouseY (vars (page w'))) (-0.5) = true
  ∧ PrimFloat.eqb (mouseX (vars (page w'))) 0 = false
  ∧ PrimFloat.eqb (mouseY (vars (page w'))) 0 = false.
Proof. cbv zeta. repeat split; vm_compute; reflexivity. Qed.

(** ** Reveal on scroll *)

Lemma reveals_app i fx1 fx2 :
  reveals i (fx1 ++ fx2) = (reveals i fx1 + reveals i fx2)%nat.
Proof. unfold reveals. by rewrite List.filter_app, length_app. Qed.

Lemma reveal_entry_true m w :
  ∃ w',
    reveal_entry (m, true) w = (Ret tt, w')
    ∧ doc (page w') =
      alter_el (set_style_property "transform" (text "translateY(0)")) m
        (alter_el (set_style_property "opacity" (text "1")) m
           (doc (page w)))
    ∧ revealTargets (browser (page w')) =
      filter (fun x => x ≠ m) (revealTargets (browser (page w)))
    ∧ effects w' =
      effects w
      ++ [DomWrite m "style.opacity" (text "1");
          DomWrite m "style.transform" (text "translateY(0)");
          Unobserve revealObserver m].
Proof.
  unfold reveal_entry, assign_style, write, deref, unobserve. run_m.
  eexists. split; [reflexivity|]. simpl.
  split; [done|]. split; [done|]. by rewrite <- !app_assoc.
Qed.

Lemma reveal_entry_false m w : reveal_entry (m, false) w = (Ret tt, w).
Proof. reflexivity. Qed.

Lemma revealed_style m d e :
  get_el m
    (alter_el (set_style_property "transform" (text "translateY(0)")) m
       (alter_el (set_style_property "opacity" (text "1")) m d)) = Some e →
  style e !! "opacity" = Some (text "1")
  ∧ style e !! "transform" = Some (text "translateY(0)").
Proof.
  rewrite !get_alter_el_eq. destruct (get_el m d) as [e0|]; [|done].
  intros [= <-]. simpl. split.
  - rewrite lookup_insert_ne by done. apply lookup_insert_eq.
  - apply lookup_insert_eq.
Qed.

(** The callback of the reveal observer on a batch of entries. *)
Lemma reveal_entries_spec i k entries w :
  let n := Nth Animated i in
  ∃ w',
    forEach_from k entries (fun entry _ => reveal_entry entry) w =
    (Ret tt, w')
    ∧ (revealed n w → revealed n w')
    ∧ ((n, true) ∈ entries → revealed n w')
    ∧ reveals i (effects w') =
      (reveals i (effects w)
       + length (filter (fun en => en = (n, true)) entries))%nat
    ∧ ((n, true) ∉ entries →
       get_el n (doc (page w')) = get_el n (doc (page w))
       ∧ (n ∈ revealTargets (browser (page w')) ↔
          n ∈ revealTargets (browser (page w)))).
Proof.
  cbv zeta. revert k w.
  induction entries as [|[m b] entries IH]; intros k w.
  { exists w. split; [done|]. split; [done|].
    split; [by intros ?%elem_of_nil|]. split; [simpl; lia|done]. }
  cbn [forEach_from]. unfold mbind, M_bind. destruct b.
  - destruct (reveal_entry_true m w) as (w1 & E & D & T & F). rewrite E.
    destruct (IH (S k) w1) as (w2 & E2 & A2 & B2 & C2 & D2).
    exists w2. split; [exact E2|].
    assert (m = Nth Animated i → revealed (Nth Animated i) w1) as Hnow.
    { intros ->. split.
      - rewrite T. by intros [? _]%list_elem_of_filter.
      - intros e. rewrite D. apply revealed_style. }
    assert (revealed (Nth Animated i) w → revealed (Nth Animated i) w1)
      as Hkeep.
    { destruct (decide (m = Nth Animated i)) as [Hm|Hm]; [auto|].
      intros [R1 R2]. split.
      - rewrite T. intros [_ ?]%list_elem_of_filter. done.
      - intros e. rewrite D, !get_alter_el_ne by done. apply R2. }
    split; [intros R; by apply A2, Hkeep|]. split; [|split].
    + intros [[= Hm]|Hin]%elem_of_cons; [by apply A2, Hnow|by apply B2].
    + rewrite C2, F, reveals_app, filter_cons.
      unfold reveals at 2. simpl.
      destruct (decide (m = Nth Animated i)) as [->|Hm].
      * rewrite bool_decide_true, decide_True by done. simpl. lia.
      * rewrite bool_decide_false by done.
        rewrite decide_False by congruence. simpl. lia.
    + intros Hn. apply not_elem_of_cons in Hn as [Hm Hn].
      assert (m ≠ Nth Animated i) as Hm' by congruence.
      destruct (D2 Hn) as [G1 G2]. rewrite G1, G2, D, T.
      rewrite !get_alter_el_ne by done. split; [done|].
      rewrite list_elem_of_filter. intuition congruence.
  - rewrite reveal_entry_false.
    destruct (IH (S k) w) as (w2 & E2 & A2 & B2 & C2 & D2).
    exists w2. split; [exact E2|]. split; [exact A2|]. split; [|split].
    + intros [[=]|Hin]%elem_of_cons. by apply B2.
    + rewrite C2, filter_cons, decide_False by congruence. done.
    + intros Hn. apply not_elem_of_cons in Hn as [_ Hn]. by apply D2.
Qed.

Section OneShot.
Variable validity : Element -> ValidityState.
Variable i : nat.

#[local] Instance quiet_reveal_preorder : PreOrder (quiet_reveal i).
Proof.
  split; [by intros w|].
  intros w1 w2 w3 (A1 & A2 & A3) (B1 & B2 & B3). unfold quiet_reveal.
  by rewrite B1, B2, B3.
Qed.

Lemma quiet_reveal_emit e :
  is_reveal i e = false → respects (quiet_reveal i) (emit e).
Proof.
  intros H w. split; [done|]. split; [done|]. simpl.
  rewrite reveals_app. unfold reveals at 2. simpl. rewrite H. simpl. lia.
Qed.

Lemma quiet_reveal_modify f :
  (∀ p, revealTargets (browser (f p)) = revealTargets (browser p)) →
  (∀ p, style <$> get_el (Nth Animated i) (doc (f p)) =
        style <$> get_el (Nth Animated i) (doc p)) →
  respects (quiet_reveal i) (modify f).
Proof. intros H1 H2 w. split; [apply H1|]. split; [apply H2|done]. Qed.

Lemma style_get_alter_el f n d :
  n ≠ Nth Animated i ∨ (∀ e, style (f e) = style e) →
  style <$> get_el (Nth Animated i) (alter_el f n d) =
  style <$> get_el (Nth Animated i) d.
Proof.
  intros H. rewrite get_alter_el. case_decide as E; [|done]. subst n.
  destruct H as [H|H]; [done|].
  destruct (get_el (Nth Animated i) d); [|done]. simpl. by rewrite H.
Qed.

Lemma style_get_reset d :
  style <$> get_el (Nth Animated i)
    {| body := body d; root := root d; single := single d;
       multi := alter (fmap (fun e => set_value (defaultValue e) e))
                  Field (multi d);
       errorMessageOf := errorMessageOf d |} =
  style <$> get_el (Nth Animated i) d.
Proof.
  unfold get_el, family; simpl. by rewrite lookup_alter_ne.
Qed.

Ltac track_known H :=
  track H; unfold header, navToggle, navMenu in *; simplify_eq.

Ltac quiet_reveal_leaf :=
  idtac;
  match goal with
  | |- respects (quiet_reveal _) (emit _) =>
      apply quiet_reveal_emit;
      first [ reflexivity
            | simpl; rewrite bool_decide_false by discriminate;
              by rewrite ?andb_false_r ]
  | |- respects (quiet_reveal _) (modify _) =>
      apply quiet_reveal_modify;
      [ intros ?; reflexivity
      | intros ?;
        first [ reflexivity
              | apply style_get_alter_el;
                first [ left; discriminate | right; intros ?; reflexivity ]
              | apply style_get_reset ] ]
  end.

Lemma quiet_reveal_run_handler depth h e :
  respects (quiet_reveal i) (run_handler validity depth h e).
Proof.
  revert h e. induction depth as [|d IH]; intros h e.
  - destruct h; cbn [run_handler];
      respects_walk_with quiet_reveal_leaf track_known.
  - destruct h; cbn [run_handler];
      respects_walk_with quiet_reveal_leaf track_known.
Qed.

Lemma quiet_reveal_react ev :
  (∀ entries, ev ≠ Intersection revealObserver entries) →
  respects (quiet_reveal i) (react validity ev).
Proof.
  pose proof (quiet_reveal_run_handler 1) as H.
  destruct ev as [| | | | | | | | | | | | | |obs entries];
    intros Hev; unfold react, dispatch;
    try (respects_walk_with quiet_reveal_leaf track_known; fail).
  destruct obs; [|by destruct (Hev entries)|];
    unfold run_observer_callback;
    respects_walk_with quiet_reveal_leaf track_known.
Qed.

#[local] Instance no_replay_preorder : PreOrder (no_replay i).
Proof.
  split; [by intros w|].
  intros w1 w2 w3 [A1 A2] [B1 B2]. split.
  - intros H. destruct (A1 H) as (H1 & H2 & H3).
    destruct (B1 H1) as (H4 & H5 & H6). split; [done|].
    split; congruence.
  - intros H. destruct (B2 H) as (H1 & H2).
    destruct (A2 H1) as (H3 & H4). split; [done|congruence].
Qed.

Lemma no_replay_quiet w w' : quiet_reveal i w w' → no_replay i w w'.
Proof.
  intros (H1 & H2 & H3). unfold no_replay. rewrite H1. by repeat split.
Qed.

Lemma step_reveal entries w :
  ∃ w',
    step validity (Intersection revealObserver entries) w = w'
    ∧ forEach_from 0 (delivered entries w)
        (fun entry _ => reveal_entry entry) w = (Ret tt, w').
Proof.
  destruct (reveal_entries_spec i 0 (delivered entries w) w)
    as (w' & E & _).
  exists w'. split; [|exact E].
  unfold step, react. unfold mbind, M_bind. cbn [get].
  rewrite isolated_eq. cbn [snd]. apply exec_ret. exact E.
Qed.

Lemma no_replay_reveal entries w :
  no_replay i w (step validity (Intersection revealObserver entries) w).
Proof.
  destruct (step_reveal entries w) as (w' & -> & E).
  destruct (reveal_entries_spec i 0 (delivered entries w) w)
    as (w'' & E' & A & B & C & D).
  rewrite E in E'. injection E' as <-.
  assert ((Nth Animated i, true) ∉ delivered entries w →
          Nth Animated i ∈ revealTargets (browser (page w')) ↔
          Nth Animated i ∈ revealTargets (browser (page w))) as D2
    by (intros H; by destruct (D H)).
  assert ((Nth Animated i, true) ∉ delivered entries w →
          reveals i (effects w') = reveals i (effects w)) as C2.
  { intros H. rewrite C, filter_none; [simpl; lia|].
    intros en Hen ->. done. }
  split.
  - intros Hn.
    assert ((Nth Animated i, true) ∉ delivered entries w) as Hd.
    { unfold delivered. by intros [? _]%list_elem_of_filter. }
    destruct (D Hd) as [D1 _]. split; [by rewrite D2|].
    split; [by rewrite D1|by apply C2].
  - intros Hn.
    assert ((Nth Animated i, true) ∉ delivered entries w) as Hd.
    { intros Hin. by destruct (B Hin) as [? _]. }
    split; [by apply D2|by apply C2].
Qed.

Lemma no_replay_step ev w : no_replay i w (step validity ev w).
Proof.
  destruct ev as [| | | | | | | | | | | | | |obs entries];
    try (apply no_replay_quiet, quiet_reveal_react; done).
  destruct obs; try (apply no_replay_quiet, quiet_reveal_react; done).
  apply no_replay_reveal.
Qed.

Lemma no_replay_run evs w : no_replay i w (run validity evs w).
Proof.
  revert w. induction evs as [|ev evs IH]; intros w; simpl.
  - reflexivity.
  - etransitivity; [apply (no_replay_step ev)|apply IH].
Qed.

(** *** The two states of an animated element *)

Lemma concealed_ext w w' :
  style <$> get_el (Nth Animated i) (doc (page w')) =
  style <$> get_el (Nth Animated i) (doc (page w)) →
  concealed (Nth Animated i) w → concealed (Nth Animated i) w'.
Proof.
  intros E C e He. rewrite He in E.
  destruct (get_el (Nth Animated i) (doc (page w))) as [e0|] eqn:E0;
    [|done].
  injection E as E. rewrite E. by apply C.
Qed.

Lemma revealed_ext w w' :
  revealTargets (browser (page w')) = revealTargets (browser (page w)) →
  style <$> get_el (Nth Animated i) (doc (page w')) =
  style <$> get_el (Nth Animated i) (doc (page w)) →
  revealed (Nth Animated i) w → revealed (Nth Animated i) w'.
Proof.
  intros T E [R1 R2]. split; [by rewrite T|]. intros e He. rewrite He in E.
  destruct (get_el (Nth Animated i) (doc (page w))) as [e0|] eqn:E0;
    [|done].
  injection E as E. rewrite E. by apply R2.
Qed.

Lemma reveal_state_quiet w w' :
  quiet_reveal i w w' →
  unrevealed i w ∨ revealed (Nth Animated i) w →
  unrevealed i w' ∨ revealed (Nth Animated i) w'.
Proof.
  intros (T & E & C) [(U1 & U2 & U3)|R].
  - left. split; [by rewrite T|]. split; [by apply (concealed_ext w)|].
    by rewrite C.
  - right. by apply (revealed_ext w).
Qed.

Lemma reveal_state_reveal entries w :
  unrevealed i w ∨ revealed (Nth Animated i) w →
  let w' := step validity (Intersection revealObserver entries) w in
  unrevealed i w' ∨ revealed (Nth Animated i) w'.
Proof.
  intros H. cbv zeta.
  destruct (step_reveal entries w) as (w' & -> & E).
  destruct (reveal_entries_spec i 0 (delivered entries w) w)
    as (w'' & E' & A & B & C & D).
  rewrite E in E'. injection E' as <-.
  destruct H as [(U1 & U2 & U3)|R]; [|right; by apply A].
  destruct (decide ((Nth Animated i, true) ∈ delivered entries w))
    as [Hin|Hout]; [right; by apply B|].
  left. destruct (D Hout) as [D1 D2].
  split; [by apply D2|]. split.
  - intros e. rewrite D1. apply U2.
  - rewrite C, U3, filter_none; [done|]. by intros en Hen ->.
Qed.

Lemma reveal_state_step ev w :
  unrevealed i w ∨ revealed (Nth Animated i) w →
  unrevealed i (step validity ev w)
  ∨ revealed (Nth Animated i) (step validity ev w).
Proof.
  destruct ev as [| | | | | | | | | | | | | |obs entries];
    try (apply reveal_state_quiet, quiet_reveal_react; done).
  destruct obs; try (apply reveal_state_quiet, quiet_reveal_react; done).
  apply reveal_state_reveal.
Qed.

Lemma reveal_state_run evs w :
  unrevealed i w ∨ revealed (Nth Animated i) w →
  unrevealed i (run validity evs w)
  ∨ revealed (Nth Animated i) (run validity evs w).
Proof.
  revert w. induction evs as [|ev evs IH]; intros w H; simpl; [done|].
  by apply IH, reveal_state_step.
Qed.

(** *** What the constructor does to the animated elements *)

(** One round of the loop of [setupScrollAnimations]. *)
Lemma conceal_element x k w :
  ∃ w',
    (fun element (_ : nat) =>
       assign_style (Some element) "opacity" (text "0") ;;
       assign_style (Some element) "transform" (text "translateY(30px)") ;;
       assign_style (Some element) "transition"
         (text "opacity 0.6s ease, transform 0.6s ease") ;;
       observe revealObserver element) x k w = (Ret tt, w')
    ∧ doc (page w') =
      alter_el (set_style_property "transition"
                  (text "opacity 0.6s ease, transform 0.6s ease")) x
        (alter_el (set_style_property "transform"
                     (text "translateY(30px)")) x
           (alter_el (set_style_property "opacity" (text "0")) x
              (doc (page w))))
    ∧ revealTargets (browser (page w')) =
      (if bool_decide (x ∈ revealTargets (browser (page w)))
       then revealTargets (browser (page w))
       else revealTargets (browser (page w)) ++ [x]).
Proof.
  unfold assign_style, write, deref, observe. run_m.
  eexists. split; [reflexivity|]. simpl. by split.
Qed.

Lemma concealed_style x d e :
  get_el x
    (alter_el (set_style_property "transition"
                 (text "opacity 0.6s ease, transform 0.6s ease")) x
       (alter_el (set_style_property "transform"
                    (text "translateY(30px)")) x
          (alter_el (set_style_property "opacity" (text "0")) x d))) =
  Some e →
  style e !! "opacity" = Some (text "0")
  ∧ style e !! "transform" = Some (text "translateY(30px)")
  ∧ style e !! "transition" =
    Some (text "opacity 0.6s ease, transform 0.6s ease").
Proof.
  rewrite !get_alter_el_eq. destruct (get_el x d) as [e0|]; [|done].
  intros [= <-]. simpl. split; [|split].
  - rewrite !lookup_insert_ne by done. apply lookup_insert_eq.
  - rewrite lookup_insert_ne by done. apply lookup_insert_eq.
  - apply lookup_insert_eq.
Qed.

Lemma conceal_loop k xs w :
  let n := Nth Animated i in
  ∃ w',
    forEach_from k xs
      (fun element (_ : nat) =>
         assign_style (Some element) "opacity" (text "0") ;;
         assign_style (Some element) "transform"
           (text "translateY(30px)") ;;
         assign_style (Some element) "transition"
           (text "opacity 0.6s ease, transform 0.6s ease") ;;
         observe revealObserver element) w = (Ret tt, w')
    ∧ (n ∈ revealTargets (browser (page w)) ∧ concealed n w →
       n ∈ revealTargets (browser (page w')) ∧ concealed n w')
    ∧ (n ∈ xs →
       n ∈ revealTargets (browser (page w')) ∧ concealed n w').
Proof.
  cbv zeta. revert k w. induction xs as [|x xs IH]; intros k w.
  { exists w. split; [done|]. split; [done|]. by intros ?%elem_of_nil. }
  cbn [forEach_from]. unfold mbind at 1, M_bind at 1.
  destruct (conceal_element x k w) as (w1 & E & D & T). rewrite E.
  destruct (IH (S k) w1) as (w2 & E2 & K2 & N2).
  exists w2. split; [exact E2|].
  assert (x = Nth Animated i →
          Nth Animated i ∈ revealTargets (browser (page w1))
          ∧ concealed (Nth Animated i) w1) as Hnow.
  { intros ->. split.
    - rewrite T. case_bool_decide; [done|].
      apply elem_of_app. right. left.
    - intros e. rewrite D. apply concealed_style. }
  assert (Nth Animated i ∈ revealTargets (browser (page w))
          ∧ concealed (Nth Animated i) w →
          Nth Animated i ∈ revealTargets (browser (page w1))
          ∧ concealed (Nth Animated i) w1) as Hkeep.
  { destruct (decide (x = Nth Animated i)) as [Hx|Hx]; [auto|].
    intros [K1 K3]. split.
    - rewrite T. case_bool_decide; [done|]. apply elem_of_app. by left.
    - intros e. rewrite D, !get_alter_el_ne by done. apply K3. }
  split; [intros K; by apply K2, Hkeep|].
  intros [Hx|Hin]%elem_of_cons; [by apply K2, Hnow|by apply N2].
Qed.

Lemma setupScrollAnimations_conceals w :
  ∃ w',
    setupScrollAnimations w = (Ret tt, w')
    ∧ (is_Some (get_el (Nth Animated i) (doc (page w))) →
       Nth Animated i ∈ revealTargets (browser (page w'))
       ∧ concealed (Nth Animated i) w').
Proof.
  unfold setupScrollAnimations, querySelectorAll, forEach.
  unfold mbind at 1, M_bind at 1. unfold mbind at 1, M_bind at 1.
  cbn [get mret M_ret fst snd].
  destruct (conceal_loop 0
              (select_from Animated sel_all 0 (family Animated (doc (page w))))
              w) as (w' & E & _ & N).
  exists w'. split; [exact E|]. intros [e He]. apply N.
  apply (select_from_all Animated 0 _ i e He).
Qed.

Lemma seq_ret (m1 m2 : M unit) w :
  (m1 w).1 = Ret tt → (m1 ;; m2) w = m2 (m1 w).2.
Proof.
  intros H. unfold mbind, M_bind.
  by destruct (m1 w) as [[[]|?] ?]; simpl in *.
Qed.

Lemma init_eq w :
  init w =
  (setupAccessibility ;; setupImageOptimization)
    (setupScrollAnimations
       (setupParallaxEffect
          (setupFormHandling
             (setupSmoothScrolling
                (setupIntersectionObserver
                   (setupEventListeners w).2).2).2).2).2).2.
Proof.
  unfold init, setup3DAnimations.
  rewrite seq_ret by apply registers_setupEventListeners.
  rewrite seq_ret by apply registers_setupIntersectionObserver.
  rewrite seq_ret by apply registers_setupSmoothScrolling.
  rewrite seq_ret by apply registers_setupFormHandling.
  rewrite (seq_ret (setupParallaxEffect ;; setupScrollAnimations)).
  - rewrite (seq_ret setupParallaxEffect)
      by apply registers_setupParallaxEffect.
    reflexivity.
  - rewrite (seq_ret setupParallaxEffect)
      by apply registers_setupParallaxEffect.
    apply registers_setupScrollAnimations.
Qed.

Ltac quiet_reveal_setup :=
  repeat (respects_walk_with quiet_reveal_leaf track_known;
          try match goal with
              | |- respects _ (match ?x with _ => _ end _) => destruct x
              end).

Lemma quiet_reveal_before_setup w :
  quiet_reveal i w
    (setupParallaxEffect
       (setupFormHandling
          (setupSmoothScrolling
             (setupIntersectionObserver
                (setupEventListeners w).2).2).2).2).2.
Proof.
  assert (respects (quiet_reveal i) setupEventListeners) as H1
    by quiet_reveal_setup.
  assert (respects (quiet_reveal i) setupIntersectionObserver) as H2
    by quiet_reveal_setup.
  assert (respects (quiet_reveal i) setupSmoothScrolling) as H3
    by quiet_reveal_setup.
  assert (respects (quiet_reveal i) setupFormHandling) as H4
    by quiet_reveal_setup.
  assert (respects (quiet_reveal i) setupParallaxEffect) as H5
    by quiet_reveal_setup.
  etransitivity; [apply H1|]. etransitivity; [apply H2|].
  etransitivity; [apply H3|]. etransitivity; [apply H4|]. apply H5.
Qed.

Lemma quiet_reveal_after_setup :
  respects (quiet_reveal i) (setupAccessibility ;; setupImageOptimization).
Proof. quiet_reveal_setup. Qed.

(** The constructor observes every animated element and conceals it. *)
Lemma boot_conceals d win :
  is_Some (family Animated d !! i) →
  Nth Animated i ∈ revealTargets (browser (page (boot d win)))
  ∧ concealed (Nth Animated i) (boot d win).
Proof.
  intros Hi. set (w0 := fresh d win).
  pose proof (quiet_reveal_before_setup w0) as (_ & E1 & _).
  set (w5 := (setupParallaxEffect _).2) in E1.
  destruct (setupScrollAnimations_conceals w5) as (w6 & E & C).
  pose proof (quiet_reveal_after_setup w6) as (T2 & E2 & _).
  assert (page (boot d win) =
          page ((setupAccessibility ;; setupImageOptimization) w6).2) as Hp.
  { change (boot d win) with (exec init w0).
    rewrite page_exec, init_eq. fold w5. by rewrite E. }
  destruct C as [C1 C2].
  { apply (fmap_is_Some style). rewrite E1.
    apply fmap_is_Some. exact Hi. }
  split.
  - rewrite Hp, T2. exact C1.
  - intros e. rewrite Hp. intros He.
    apply (concealed_ext w6 _ E2 C2 e He).
Qed.

End OneShot.

#[export] Instance same_reveals_preorder i : PreOrder (same_reveals i).
Proof.
  split; [by intros w|]. intros w1 w2 w3 H1 H2. unfold same_reveals in *.
  congruence.
Qed.

Lemma same_reveals_emit i e :
  is_reveal i e = false → respects (same_reveals i) (emit e).
Proof.
  intros H w. unfold same_reveals. simpl.
  rewrite reveals_app. unfold reveals at 2. simpl. rewrite H. simpl. lia.
Qed.

Ltac same_reveals_leaf :=
  idtac;
  match goal with
  | |- respects (same_reveals _) (emit _) =>
      apply same_reveals_emit; reflexivity
  | |- respects (same_reveals _) (modify _) => by intros ?
  end.

Lemma same_reveals_init i : respects (same_reveals i) init.
Proof.
  repeat (respects_walk_with same_reveals_leaf forget;
          try match goal with
              | |- respects _ (match ?x with _ => _ end _) => destruct x
              end).
Qed.

Lemma boot_reveals d win i : reveals i (effects (boot d win)) = 0%nat.
Proof.
  assert (respects (same_reveals i) (isolated init)) as H.
  { apply respects_isolated; [typeclasses eauto| |apply same_reveals_init].
    intros e. by apply same_reveals_emit. }
  apply (H (fresh d win)).
Qed.

Section RevealClaim.
Variable validity : Element -> ValidityState.

(** C8. The constructor observes every animated element and conceals it
    (opacity '0', transform 'translateY(30px)', the transition declared).
    After any history of events the [i]-th animated element is in one of
    two states: still observed, concealed and without a reveal write, or
    unobserved with opacity '1' and transform 'translateY(0)'.  While it
    is still observed it has not been revealed; when the observer is
    handed a batch in which it intersects, the element ends unobserved
    with opacity '1' and transform 'translateY(0)', and the reveal writes
    to it number as many as its intersecting entries in the batch (one,
    when the batch has one entry for it); and once it is unobserved, no
    later history of events observes it again, changes its inline style or
    writes a reveal to it. *)
Theorem reveal_is_one_shot d win evs i :
  let n := Nth Animated i in
  let w := run validity evs (boot d win) in
  (is_Some (family Animated d !! i) →
   n ∈ revealTargets (browser (page (boot d win)))
   ∧ concealed n (boot d win))
  ∧ (is_Some (family Animated d !! i) → unrevealed i w ∨ revealed n w)
  ∧ (n ∈ revealTargets (browser (page w)) → reveals i (effects w) = 0%nat)
  ∧ (∀ entries,
       n ∈ revealTargets (browser (page w)) → (n, true) ∈ entries →
       let w' := step validity (Intersection revealObserver entries) w in
       revealed n w'
       ∧ reveals i (effects w') =
         length (filter (fun en => en = (n, true)) entries))
  ∧ (n ∉ revealTargets (browser (page w)) →
     ∀ evs',
       let w' := run validity evs' w in
       (n ∉ revealTargets (browser (page w')))
       ∧ style <$> get_el n (doc (page w')) =
         style <$> get_el n (doc (page w))
       ∧ reveals i (effects w') = reveals i (effects w)
       ∧ (revealed n w → revealed n w')).
Proof.
  intros n w. subst n.
  assert (Nth Animated i ∈ revealTargets (browser (page w)) →
          reveals i (effects w) = 0%nat) as H0.
  { intros Hn. destruct (no_replay_run validity i evs (boot d win))
      as [_ H]. destruct (H Hn) as [_ H1]. fold w in H1. rewrite H1.
    apply boot_reveals. }
  split; [apply boot_conceals|]. split.
  { intros Hi. apply reveal_state_run. left.
    destruct (boot_conceals i d win Hi) as [B1 B2].
    split; [exact B1|]. split; [exact B2|apply boot_reveals]. }
  split; [exact H0|]. split.
  - intros entries Hn Hin. cbv zeta.
    destruct (step_reveal validity i entries w) as (w' & -> & E).
    destruct (reveal_entries_spec i 0 (delivered entries w) w)
      as (w'' & E' & _ & B & C & _).
    rewrite E in E'. injection E' as <-.
    split.
    + apply B. unfold delivered. by apply list_elem_of_filter.
    + rewrite C, (H0 Hn). simpl. f_equal. unfold delivered.
      apply filter_filter_absorb. by intros en _ ->.
  - intros Hn evs'. cbv zeta.
    destruct (no_replay_run validity i evs' w) as [H _].
    destruct (H Hn) as (H1 & H2 & H3).
    split; [exact H1|]. split; [exact H2|]. split; [exact H3|].
    intros [_ R]. split; [exact H1|]. intros e He.
    destruct (get_el (Nth Animated i) (doc (page w))) as [e0|] eqn:E0.
    + rewrite He in H2. injection H2 as ->. by apply R.
    + rewrite He in H2. discriminate.
Qed.

End RevealClaim.

(** The first card of the sample page scrolls into view, then out; the
    second card stays below the fold. *)
Lemma reveal_is_one_shot_witness :
  let n := Nth Animated 0 in
  let w := Sample.world in
  let w1 := step Sample.validity
              (Intersection revealObserver [(n, true)]) w in
  let w2 := run Sample.validity
              [Intersection revealObserver [(n, false)];
               Intersection revealObserver [(n, true)]] w1 in
  (Nth Animated 1 ∈ revealTargets (browser (page w))
   ∧ concealed (Nth Animated 1) w)
  ∧ revealed n w1
  ∧ reveals 0 (effects w1) = 1%nat
  ∧ revealed n w2
  ∧ reveals 0 (effects w2) = 1%nat.
Proof.
  cbv zeta.
  destruct (reveal_is_one_shot Sample.validity Sample.document
              Sample.window [] 1) as (S & _).
  destruct (reveal_is_one_shot Sample.validity Sample.document
              Sample.window [] 0) as (_ & _ & _ & A & _).
  destruct (A [(Nth Animated 0, true)]) as [A1 A2];
    [vm_compute; by left|by left|].
  destruct (reveal_is_one_shot Sample.validity Sample.document
              Sample.window
              [Intersection revealObserver [(Nth Animated 0, true)]] 0)
    as (_ & _ & _ & _ & B).
  destruct (B (proj1 A1)
              [Intersection revealObserver [(Nth Animated 0, false)];
               Intersection revealObserver [(Nth Animated 0, true)]])
    as (_ & _ & B3 & B4).
  split; [apply S; vm_compute; by eexists|].
  split; [exact A1|]. split; [exact A2|]. split; [exact (B4 A1)|].
  etransitivity; [exact B3|exact A2].
Defined.

(** The claim as stated fails when a batch holds more than one
    intersecting entry for an element.  The first card of the sample page
    enters the viewport, leaves it and enters again before the observer
    is notified: the callback runs over the three entries and writes the
    reveal twice. *)
Lemma reveal_repeats_within_batch :
  let n := Nth Animated 0 in
  let w := Sample.world in
  let w' := step Sample.validity
              (Intersection revealObserver
                 [(n, true); (n, false); (n, true)]) w in
  n ∈ revealTargets (browser (page w))
  ∧ reveals 0 (effects w) = 0%nat
  ∧ reveals 0 (effects w') = 2%nat
  ∧ effects w' =
    effects w
    ++ [DomWrite n "style.opacity" (text "1");
        DomWrite n "style.transform" (text "translateY(0)");
        Unobserve revealObserver n;
        DomWrite n "style.opacity" (text "1");
        DomWrite n "style.transform" (text "translateY(0)");
        Unobserve revealObserver n].
Proof.
  cbv zeta. split; [vm_compute; by left|].
  repeat split; vm_compute; reflexivity.
Qed.

(** * Further properties of the controller *)

(** ** The constructor *)

Section Constructor.
Variable validity : Element -> ValidityState.

(** X1. [init] returns normally from every world, whichever elements the
    document lacks, and appends to the registered listeners exactly
    [wiring d] for the document [d] it starts from; it creates and removes
    no element the setups look up.  On a page with none of the elements
    the script looks for, three listeners remain: the window's load and
    resize listeners and the document's keydown listener. *)
Theorem constructor_registers_wiring w :
  let r := init w in
  r.1 = Ret tt
  ∧ listeners (browser (page r.2)) =
    listeners (browser (page w)) ++ wiring (doc (page w))
  ∧ (∀ s, has s (doc (page r.2)) = has s (doc (page w)))
  ∧ ((∀ s, has s (doc (page w)) = false) →
     family Link (doc (page w)) = [] →
     wiring (doc (page w)) =
     [L WindowT load onLoad; L WindowT resize onResize;
      L DocumentT keydown onDocumentKeydown]).
Proof.
  cbv zeta. destruct (registers_init w) as (E1 & E2 & (K & _)).
  split; [exact E1|]. split; [exact E2|]. split; [exact K|].
  intros Hs Hl. unfold wiring, nav_links, hash_anchors.
  rewrite !Hs, Hl. reflexivity.
Qed.

(** X2. After the constructor, no event changes the registered listeners
    or the set of elements: after any history of events the listeners are
    those the constructor registered, in the same order, and a node
    denotes an element exactly when it did after construction. *)
Theorem listeners_and_elements_fixed d win evs :
  let w := run validity evs (boot d win) in
  listeners (browser (page w)) = wiring d
  ∧ (∀ s, has s (doc (page w)) = has s d)
  ∧ (∀ n, is_Some (get_el n (doc (page w))) ↔
          is_Some (get_el n (doc (page (boot d win))))).
Proof.
  cbv zeta. split; [apply run_boot_listeners|].
  split; [intros s; apply run_boot_has_eq|].
  apply (stable_run validity evs (boot d win)).
Qed.

End Constructor.

(** ** Timers *)

Lemma tidy_ext w w' :
  timer_state (page w') = timer_state (page w) → tidy w → tidy w'.
Proof.
  unfold timer_state, tidy. intros [= E1 E2 E3]. cbv zeta.
  by rewrite E1, E2, E3.
Qed.

#[export] Instance keeps_tidy_preorder : PreOrder keeps_tidy.
Proof.
  split; [intros w H; exact H|].
  intros w1 w2 w3 H1 H2 H. apply H2, H1, H.
Qed.

Lemma keeps_tidy_emit e : respects keeps_tidy (emit e).
Proof. intros w H. by apply (tidy_ext w). Qed.

Lemma keeps_tidy_modify f :
  (∀ p, timer_state (f p) = timer_state p) →
  respects keeps_tidy (modify f).
Proof. intros H w H0. apply (tidy_ext w); [apply H|exact H0]. Qed.

Lemma resize_timers_snoc ts id cb :
  resize_timers (ts ++ [(id, cb)]) =
  resize_timers ts ++ (if decide (cb = resizeLater) then [(id, cb)] else []).
Proof. unfold resize_timers. rewrite list.filter_app. f_equal. Qed.

(** [setTimeout] of a status timer. *)
Lemma setTimeout_hideStatus_tidy delay w :
  tidy w → tidy (setTimeout (hideStatus (One FormStatus)) delay w).2.
Proof.
  intros (H1 & H2 & H3 & H4 & H5). unfold setTimeout. run_m.
  unfold tidy. simpl. rewrite resize_timers_snoc. simpl.
  rewrite app_nil_r. split; [|split; [|split; [|split]]].
  - intros t [Ht|Ht]%elem_of_app.
    + specialize (H1 t Ht). lia.
    + apply list_elem_of_singleton in Ht as ->. simpl. lia.
  - intros id Hid. specialize (H2 id Hid). lia.
  - intros id cb [Ht|Ht]%elem_of_app; [by apply H3|].
    apply list_elem_of_singleton in Ht as [= -> ->].
    split; [discriminate|]. intros Hid. specialize (H2 _ Hid). lia.
  - exact H4.
  - intros id el [Ht|Ht]%elem_of_app; [by eapply H5|].
    by apply list_elem_of_singleton in Ht as [= _ ->].
Qed.

Lemma keeps_tidy_showFormStatus el message type :
  el = None ∨ el = Some (One FormStatus) →
  respects keeps_tidy (showFormStatus el message type).
Proof.
  intros [->| ->] w H; [exact H|].
  unfold showFormStatus.
  unfold assign_textContent, assign_className, write, deref.
  destruct (String.eqb type "success"); run_m.
  - apply (setTimeout_hideStatus_tidy 5000
             {| page := with_doc
                  (alter_el (set_classList ["form-status"; type])
                     (One FormStatus))
                  (with_doc (alter_el (set_textContent message)
                               (One FormStatus)) (page w));
                effects := (effects w
                  ++ [DomWrite (One FormStatus) "textContent"
                        (text message)])
                  ++ [DomWrite (One FormStatus) "className"
                        (text (String.concat " " ["form-status"; type]))]
             |}).
    by apply (tidy_ext w).
  - by apply (tidy_ext w).
Qed.

Lemma filter_ext_in {A} (P Q : A → Prop)
  `{∀ x, Decision (P x)} `{∀ x, Decision (Q x)} (l : list A) :
  (∀ x, x ∈ l → P x ↔ Q x) → filter P l = filter Q l.
Proof.
  induction l as [|x l IH]; intros HPQ; [done|].
  rewrite !filter_cons, IH by (intros y Hy; apply HPQ; by right).
  destruct (decide (P x)) as [p|p], (decide (Q x)) as [q|q]; try done.
  - destruct q. by apply (HPQ x); [left|].
  - destruct p. by apply (HPQ x); [left|].
Qed.

Lemma filter_id {A} (P : A → Prop) `{∀ x, Decision (P x)} (l : list A) :
  (∀ x, x ∈ l → P x) → filter P l = l.
Proof.
  induction l as [|x l IH]; intros HP; [done|].
  rewrite filter_cons, decide_True by (apply HP; left).
  f_equal. apply IH. intros y Hy. apply HP. by right.
Qed.

Lemma length_filter_filter {A} (P Q : A → Prop)
  `{∀ x, Decision (P x)} `{∀ x, Decision (Q x)} (l : list A) :
  (length (filter P (filter Q l)) ≤ length (filter P l))%nat.
Proof.
  induction l as [|x l IH]; [done|].
  rewrite (filter_cons Q). destruct (decide (Q x)).
  - rewrite !filter_cons. destruct (decide (P x)); simpl; lia.
  - rewrite filter_cons. destruct (decide (P x)); simpl; lia.
Qed.

(** The resize listener: the pending [handleResize] timer, if any, is
    replaced by a new one. *)
Lemma resize_listener_spec w :
  tidy w →
  ∃ w',
    resize_listener w = (Ret tt, w')
    ∧ tidy w'
    ∧ timers (browser (page w')) =
      filter (fun t => t.2 ≠ resizeLater) (timers (browser (page w)))
      ++ [(nextTimer (browser (page w)), resizeLater)]
    ∧ nextTimer (browser (page w')) = S (nextTimer (browser (page w)))
    ∧ resizeTimeout (vars (page w')) = Some (nextTimer (browser (page w)))
    ∧ doc (page w') = doc (page w)
    ∧ win (page w') = win (page w)
    ∧ effects w' =
      effects w
      ++ [ClearTimeout (resizeTimeout (vars (page w)));
          SetTimeout (nextTimer (browser (page w))) resizeLater 250].
Proof.
  intros (H1 & H2 & H3 & H4 & H5).
  set (kept := filter (fun t => t.2 ≠ resizeLater)
                 (timers (browser (page w)))).
  assert (match resizeTimeout (vars (page w)) with
          | Some i => filter (fun t => t.1 ≠ i) (timers (browser (page w)))
          | None => timers (browser (page w))
          end = kept) as Hf.
  { destruct (resizeTimeout (vars (page w))) as [i|] eqn:Hr.
    - apply filter_ext_in. intros [id cb] Hin. simpl.
      specialize (H3 id cb Hin). split.
      + intros Hid Hcb. apply H3 in Hcb. congruence.
      + intros Hcb ->. by apply Hcb, H3.
    - symmetry. apply filter_id. intros [id cb] Hin. simpl.
      intros Hcb. by apply (H3 id cb Hin) in Hcb. }
  assert (tidy
    {| page := with_vars
         (set_resizeTimeout (Some (nextTimer (browser (page w)))))
         (with_browser
            (set_timers (kept ++ [(nextTimer (browser (page w)),
                                   resizeLater)])
               (S (nextTimer (browser (page w))))) (page w));
       effects := effects w |}) as Ht.
  { unfold tidy. simpl. rewrite resize_timers_snoc. simpl.
    assert (resize_timers kept = []) as ->.
    { apply filter_none. intros [id cb] [Hcb _]%list_elem_of_filter.
      exact Hcb. }
    split; [|split; [|split; [|split]]].
    - intros t [[_ Hin]%list_elem_of_filter|Hin]%elem_of_app.
      + specialize (H1 t Hin). lia.
      + apply list_elem_of_singleton in Hin as ->. simpl. lia.
    - intros id [= <-]. lia.
    - intros id cb [[Hcb Hin]%list_elem_of_filter|Hin]%elem_of_app.
      + simpl in Hcb. split; [done|]. intros [= <-].
        specialize (H1 _ Hin). simpl in H1. lia.
      + by apply list_elem_of_singleton in Hin as [= -> ->].
    - simpl. lia.
    - intros id el [[_ Hin]%list_elem_of_filter|Hin]%elem_of_app.
      + by eapply H5.
      + by apply list_elem_of_singleton in Hin. }
  unfold resize_listener, clearTimeout, setTimeout. run_m.
  destruct (resizeTimeout (vars (page w))) as [i|]; simpl;
    rewrite ?Hf; (eexists; split; [reflexivity|]); simpl;
    (split; [eapply tidy_ext; [|exact Ht]; reflexivity|]);
    by rewrite <- ?app_assoc.
Qed.

Lemma keeps_tidy_resize_listener : respects keeps_tidy resize_listener.
Proof.
  intros w H. destruct (resize_listener_spec w H) as (w' & -> & T & _).
  exact T.
Qed.

Ltac tidy_leaf :=
  idtac;
  match goal with
  | |- respects keeps_tidy resize_listener =>
      apply keeps_tidy_resize_listener
  | |- respects keeps_tidy (showFormStatus _ _ _) =>
      apply keeps_tidy_showFormStatus; auto
  | |- respects keeps_tidy (emit _) => apply keeps_tidy_emit
  | |- respects keeps_tidy (modify _) =>
      apply keeps_tidy_modify; intros ?; reflexivity
  end.

Section Timers.
Variable validity : Element -> ValidityState.

Lemma keeps_tidy_run_handler depth h e :
  respects keeps_tidy (run_handler validity depth h e).
Proof.
  revert h e. induction depth as [|d IH]; intros h e.
  - destruct h; cbn [run_handler];
      respects_walk_with tidy_leaf track.
  - destruct h; cbn [run_handler];
      respects_walk_with tidy_leaf track.
Qed.

Lemma keeps_tidy_run_timer_callback cb :
  respects keeps_tidy (run_timer_callback cb).
Proof.
  destruct cb; unfold run_timer_callback;
    respects_walk_with tidy_leaf track.
Qed.

Lemma keeps_tidy_resume k o :
  k_formStatus k = None ∨ k_formStatus k = Some (One FormStatus) →
  respects keeps_tidy (handleFormSubmission_resume k o).
Proof.
  intros Hk. unfold handleFormSubmission_resume.
  respects_walk_with tidy_leaf track.
Qed.

Lemma keeps_tidy_react ev :
  match ev with Timeout _ | FetchSettled _ => False | _ => True end →
  respects keeps_tidy (react validity ev).
Proof.
  pose proof (keeps_tidy_run_handler 1) as H.
  destruct ev; intros Hev; try done; unfold react, dispatch;
    respects_walk_with tidy_leaf track.
Qed.

Lemma tidy_step ev w :
  in_flight_sound w → tidy w → tidy (step validity ev w).
Proof.
  intros Hs Ht.
  destruct ev as [| | | | id | | | | | | o | | | |obs entries];
    try (by apply keeps_tidy_react).
  - (* Timeout *)
    unfold step, react. unfold mbind at 1, M_bind at 1. cbn [get].
    destruct (filter (λ t, t.1 = id) (timers (browser (page w))))
      as [|t ts] eqn:E; [exact Ht|].
    unfold mbind, M_bind, modify.
    set (w1 := {| page := with_browser _ (page w); effects := effects w |}).
    assert (tidy w1) as Ht1.
    { destruct Ht as (H1 & H2 & H3 & H4 & H5). unfold tidy. simpl.
      split; [|split; [|split; [|split]]].
      - intros x [_ Hx]%list_elem_of_filter. by apply H1.
      - exact H2.
      - intros i cb [_ Hx]%list_elem_of_filter. by apply H3.
      - etransitivity; [|exact H4]. apply length_filter_filter.
      - intros i el [_ Hx]%list_elem_of_filter. by eapply H5. }
    revert Ht1. generalize w1.
    change (respects keeps_tidy (isolated (run_timer_callback t.2))).
    apply respects_isolated; [typeclasses eauto|intros ?; apply keeps_tidy_emit|].
    apply keeps_tidy_run_timer_callback.
  - (* FetchSettled *)
    unfold step, react. unfold mbind at 1, M_bind at 1. cbn [get].
    destruct (pending (browser (page w))) as [|k rest] eqn:E; [exact Ht|].
    unfold mbind, M_bind, modify.
    set (w1 := {| page := with_browser _ (page w); effects := effects w |}).
    assert (tidy w1) as Ht1 by (by apply (tidy_ext w)).
    revert Ht1. generalize w1.
    change (respects keeps_tidy
              (isolated (handleFormSubmission_resume k o))).
    apply respects_isolated; [typeclasses eauto|intros ?; apply keeps_tidy_emit|].
    apply keeps_tidy_resume.
    destruct (Hs k) as (_ & _ & _ & Hk); [rewrite E; left|].
    rewrite Hk. destruct (has FormStatus _); auto.
Qed.

End Timers.

#[export] Instance same_timers_preorder : PreOrder same_timers.
Proof.
  split; [by intros w|]. intros w1 w2 w3 H1 H2. unfold same_timers in *.
  congruence.
Qed.

Ltac same_timers_leaf :=
  idtac;
  match goal with
  | |- respects same_timers (emit _) => by intros ?
  | |- respects same_timers (modify _) => by intros ?
  end.

Lemma same_timers_init : respects same_timers init.
Proof.
  repeat (respects_walk_with same_timers_leaf forget;
          try match goal with
              | |- respects _ (match ?x with _ => _ end _) => destruct x
              end).
Qed.

Lemma boot_tidy d win : tidy (boot d win).
Proof.
  assert (respects same_timers (isolated init)) as H.
  { apply respects_isolated; [typeclasses eauto| |apply same_timers_init].
    intros e. by intros ?. }
  specialize (H (fresh d win)). fold (boot d win) in H.
  apply (tidy_ext (fresh d win)); [exact H|].
  unfold tidy. simpl.
  split; [by intros t ?%elem_of_nil|]. split; [done|].
  split; [by intros id cb ?%elem_of_nil|]. split; [lia|].
  by intros id el ?%elem_of_nil.
Qed.

Lemma resize_listeners d t :
  listeners_on t resize (wiring d) =
  if bool_decide (t = WindowT) then [onResize] else [].
Proof.
  unfold wiring. rewrite !listeners_on_app.
  pose proof (listeners_on_nodes t resize (hash_anchors d)
                (fun x => [(click, onAnchorClick x)])) as E1.
  pose proof (listeners_on_nodes t resize (required_fields d)
                (fun x => [(blur, onBlur x); (input, onInput x)])) as E2.
  pose proof (listeners_on_nodes t resize (nav_links d)
                (fun x => [(click, onNavLinkClick)])) as E3.
  specialize (E1 ltac:(by intros x th [->|?%elem_of_nil]%elem_of_cons)).
  specialize (E2 ltac:(by intros x th
    [->|[->|?%elem_of_nil]%elem_of_cons]%elem_of_cons)).
  specialize (E3 ltac:(by intros x th [->|?%elem_of_nil]%elem_of_cons)).
  simpl in E1, E2, E3. unfold L in *.
  destruct (has NavToggle d && has NavMenu d), (has SiteHeader d),
    (has ContactForm d), (has Hero d);
    rewrite ?listeners_on_app, ?E1, ?E2, ?E3;
    repeat first
      [ rewrite listeners_on_cons_ne by discriminate
      | rewrite listeners_on_cons_eq ];
    rewrite ?listeners_on_nil, ?app_nil_r; reflexivity.
Qed.

Section Resizing.
Variable validity : Element -> ValidityState.

Lemma run_snoc evs ev w :
  run validity (evs ++ [ev]) w = step validity ev (run validity evs w).
Proof. unfold run. by rewrite foldl_app. Qed.

Lemma run_boot_tidy d win evs : tidy (run validity evs (boot d win)).
Proof.
  induction evs as [|ev evs IH] using rev_ind; [apply boot_tidy|].
  rewrite run_snoc. apply tidy_step; [apply run_boot_in_flight|exact IH].
Qed.

(** A resize event runs the resize listener, once, after the window has
    its new width. *)
Lemma step_resize d width w :
  listeners (browser (page w)) = wiring d →
  step validity (Resize width) w =
  leaving w
    (exec resize_listener
       (entering {| page := with_win (set_innerWidth width) (page w);
                    effects := effects w |})).
Proof.
  intros Hl. unfold step, react. unfold mbind, M_bind, modify.
  set (w1 := {| page := with_win (set_innerWidth width) (page w);
                effects := effects w |}).
  change (leaving w ?x) with (leaving w1 x).
  apply (dispatch_single validity d resize WindowT onResize
           (plain_event [] "") [] w1 Hl).
  - intros t'. rewrite resize_listeners.
    by destruct t'; repeat case_bool_decide.
  - by intros ?%elem_of_nil.
Qed.

(** X3. Resize events are debounced.  After any history of events at most
    one [handleResize] timer is pending.  A resize event cancels the
    pending one, if any, and leaves exactly one pending, with a new id and
    a delay of 250 ms, which it stores in [resizeTimeout]; the timers that
    hide the status message are kept, and the event itself writes nothing
    to the document. *)
Theorem resize_is_debounced d win0 evs width :
  let w := run validity evs (boot d win0) in
  let w' := step validity (Resize width) w in
  let id := nextTimer (browser (page w)) in
  (length (resize_timers (timers (browser (page w)))) ≤ 1)%nat
  ∧ resize_timers (timers (browser (page w'))) = [(id, resizeLater)]
  ∧ resizeTimeout (vars (page w')) = Some id
  ∧ filter (fun t => t.2 ≠ resizeLater) (timers (browser (page w'))) =
    filter (fun t => t.2 ≠ resizeLater) (timers (browser (page w)))
  ∧ doc (page w') = doc (page w)
  ∧ innerWidth (win (page w')) = width
  ∧ effects w' =
    effects w
    ++ [ClearTimeout (resizeTimeout (vars (page w)));
        SetTimeout id resizeLater 250].
Proof.
  intros w w' id. subst w' id.
  pose proof (run_boot_tidy d win0 evs) as Ht. fold w in Ht.
  split; [apply Ht|].
  rewrite (step_resize d) by apply run_boot_listeners.
  set (w1 := entering _).
  assert (tidy w1) as Ht1 by (by apply (tidy_ext w)).
  destruct (resize_listener_spec w1 Ht1)
    as (w2 & E & _ & F1 & F2 & F3 & F4 & F5 & F6).
  rewrite (exec_ret _ _ _ E).
  cbn [leaving page browser vars doc win with_browser set_stopped timers
       effects].
  rewrite F1, F3, F4, F5, F6. subst w1. simpl.
  unfold resize_timers. rewrite !list.filter_app.
  rewrite (filter_none (λ t, t.2 = resizeLater))
    by (by intros [? ?] [? _]%list_elem_of_filter).
  rewrite (filter_id (λ t, t.2 ≠ resizeLater) (filter _ _))
    by (by intros [? ?] [? _]%list_elem_of_filter).
  repeat split.
  rewrite filter_cons, decide_False by (simpl; tauto).
  by rewrite filter_nil, app_nil_r.
Qed.

End Resizing.

Section TimerFires.
Variable validity : Element -> ValidityState.

Lemma step_timeout id t ts w :
  filter (fun t => t.1 = id) (timers (browser (page w))) = t :: ts →
  step validity (Timeout id) w =
  exec (run_timer_callback t.2) (timer_taken id w).
Proof.
  intros E. unfold step, react. unfold mbind at 1, M_bind at 1. cbn [get].
  rewrite E. unfold mbind, M_bind, modify. by rewrite isolated_eq.
Qed.

(** Which callback runs for the id of a pending timer. *)
Lemma pending_timer id cb w :
  tidy w → (id, cb) ∈ timers (browser (page w)) →
  ∃ t ts,
    filter (fun t => t.1 = id) (timers (browser (page w))) = t :: ts
    ∧ match cb with
      | resizeLater => t.2 = resizeLater
      | hideStatus el =>
          el = One FormStatus ∧ t.2 = hideStatus (One FormStatus)
      end.
Proof.
  intros (H1 & H2 & H3 & H4 & H5) Hin.
  assert ((id, cb) ∈ filter (fun t => t.1 = id) (timers (browser (page w))))
    as Hf by (by apply list_elem_of_filter).
  destruct (filter _ (timers (browser (page w)))) as [|[i c] ts] eqn:E;
    [by apply elem_of_nil in Hf|].
  assert ((i, c) ∈ filter (fun t => t.1 = id) (timers (browser (page w))))
    as [Hi Ht]%list_elem_of_filter by (rewrite E; left).
  simpl in Hi. subst i. exists (id, c), ts. split; [done|].
  pose proof (H3 id cb Hin) as Hcb. pose proof (H3 id c Ht) as Hc.
  destruct cb as [|el]; simpl.
  - apply Hc, Hcb. done.
  - split; [by eapply H5|]. destruct c as [|el'].
    + assert (hideStatus el = resizeLater) as [=]. by apply Hcb, Hc.
    + by rewrite (H5 id el' Ht).
Qed.

Lemma handleResize_eq w :
  handleResize w =
  if Z.ltb 768 (innerWidth (win (page w))) then
    if has NavMenu (doc (page w)) then
      closeMobileMenu
        (if has NavToggle (doc (page w)) then Some (One NavToggle)
         else None)
        (Some (One NavMenu)) w
    else (Ret tt, w)
  else (Ret tt, w).
Proof.
  unfold handleResize.
  unfold mbind at 1, M_bind at 1. rewrite query_eq.
  unfold mbind at 1, M_bind at 1. rewrite query_eq.
  unfold mbind at 1, M_bind at 1. cbn [get].
  destruct (Z.ltb 768 _); [|done]. by destruct (has NavMenu _).
Qed.

(** X4. When the pending [handleResize] timer fires it leaves the queue
    and [handleResize] runs on the window's current width.  Up to 768
    pixels, or without the menu element, nothing is written.  Above 768
    with toggle and menu the menu is closed.  Above 768 with the menu but
    without the toggle, [closeMobileMenu] dereferences the missing toggle:
    a TypeError reaches the platform and nothing is written. *)
Theorem resize_timer_closes_menu d win0 evs id :
  let w := run validity evs (boot d win0) in
  (id, resizeLater) ∈ timers (browser (page w)) →
  let w' := step validity (Timeout id) w in
  timers (browser (page w')) =
    filter (fun t => t.1 ≠ id) (timers (browser (page w)))
  ∧ ((innerWidth (win (page w)) ≤ 768)%Z ∨ has NavMenu d = false →
     doc (page w') = doc (page w) ∧ effects w' = effects w)
  ∧ ((768 < innerWidth (win (page w)))%Z → has NavMenu d = true →
     has NavToggle d = true →
     doc (page w') = closed_doc (doc (page w)) ∧ closed (doc (page w')))
  ∧ ((768 < innerWidth (win (page w)))%Z → has NavMenu d = true →
     has NavToggle d = false →
     doc (page w') = doc (page w)
     ∧ effects w' = effects w ++ [Uncaught (TypeError "aria-expanded")]).
Proof.
  intros w Hin w'. subst w'.
  destruct (pending_timer id resizeLater w) as (t & ts & E & Ht);
    [apply run_boot_tidy|exact Hin|].
  rewrite (step_timeout id t ts w E), Ht. cbn [run_timer_callback].
  assert (∀ s, has s (doc (page (timer_taken id w))) = has s d) as Hs
    by (intros s; apply run_boot_has_eq).
  unfold exec, isolated. rewrite handleResize_eq, !Hs.
  change (innerWidth (win (page (timer_taken id w))))
    with (innerWidth (win (page w))).
  destruct (Z.ltb_spec 768 (innerWidth (win (page w)))) as [Hw|Hw].
  - destruct (has NavMenu d) eqn:Hm; [destruct (has NavToggle d) eqn:Hg|].
    + rewrite closeMobileMenu_eq. cbn [snd page browser timers effects].
      split; [done|]. split; [intros [?|?]; [lia|done]|].
      split; [|done]. intros _ _ _. split; [done|].
      apply closed_closed_doc; by rewrite Hs.
    + unfold closeMobileMenu, setAttribute, write, deref. run_m.
      split; [done|]. split; [intros [?|?]; [lia|done]|].
      split; [done|]. by intros _ _ _.
    + cbn [mret M_ret snd]. split; [done|]. split; [done|].
      split; by intros _ [=].
  - cbn [mret M_ret snd]. split; [done|]. split; [done|].
    split; intros; lia.
Qed.

End TimerFires.

Lemma resize_timer_closes_menu_witness :
  let w := run Sample.validity resized Sample.world in
  menu_active (doc (page w))
  ∧ closed (doc (page (step Sample.validity (Timeout 1) w))).
Proof.
  cbv zeta. split.
  - eexists. split; vm_compute; reflexivity.
  - destruct (resize_timer_closes_menu Sample.validity Sample.document
                Sample.window resized 1%nat) as (_ & _ & H & _).
    + vm_compute. left.
    + apply H; vm_compute; reflexivity.
Defined.

(** ** The status message *)

Lemma resume_timers k n b o w :
  k_form k = Some n → k_submitBtn k = Some b →
  k_formStatus k = Some (One FormStatus) →
  let w' := (handleFormSubmission_resume k o w).2 in
  timers (browser (page w')) =
    timers (browser (page w))
    ++ (if succeeded o
        then [(nextTimer (browser (page w)), hideStatus (One FormStatus))]
        else [])
  ∧ (succeeded o = true →
     SetTimeout (nextTimer (browser (page w)))
       (hideStatus (One FormStatus)) 5000 ∈ effects w').
Proof.
  intros Kf Kb Ks. cbv zeta.
  unfold handleFormSubmission_resume, try_catch_finally.
  rewrite Kf, Kb, Ks.
  unfold showFormStatus, form_reset, setFormLoading, assign_textContent,
    assign_className, assign_disabled, classList_remove, write, deref,
    setTimeout.
  destruct o as [status|]; [destruct (response_ok status) eqn:Hok|];
    cbn [succeeded]; rewrite ?Hok; run_m.
  - split; [done|]. intros _. set_solver.
  - by rewrite app_nil_r.
  - by rewrite app_nil_r.
Qed.

Section StatusTimer.

Variable validity : Element -> ValidityState.

(** X5. Only a success message hides itself.  When a request settles on a
    page with the status region, a 2xx response schedules exactly one
    timer, 5000 ms, for the callback that resets the region's class; any
    other response and a rejected request schedule none.  When that timer
    fires it leaves the queue and the region's class list becomes
    ['form-status'], with one write and nothing else touched (the text
    stays). *)
Theorem success_status_hides_itself d win0 evs :
  let w := run validity evs (boot d win0) in
  (∀ o, pending (browser (page w)) ≠ [] → has FormStatus d = true →
     let w' := step validity (FetchSettled o) w in
     timers (browser (page w')) =
       timers (browser (page w))
       ++ (if succeeded o
           then [(nextTimer (browser (page w)),
                  hideStatus (One FormStatus))]
           else [])
     ∧ (succeeded o = true →
        SetTimeout (nextTimer (browser (page w)))
          (hideStatus (One FormStatus)) 5000 ∈ effects w'))
  ∧ (∀ id el, (id, hideStatus el) ∈ timers (browser (page w)) →
     let w' := step validity (Timeout id) w in
     el = One FormStatus
     ∧ timers (browser (page w')) =
         filter (fun t => t.1 ≠ id) (timers (browser (page w)))
     ∧ doc (page w') =
         alter_el (set_classList ["form-status"]) (One FormStatus)
           (doc (page w))
     ∧ effects w' =
         effects w
         ++ [DomWrite (One FormStatus) "className" (text "form-status")]).
Proof.
  intros w. split.
  - intros o Hp Hs w'. subst w'.
    pose proof (run_boot_in_flight validity d win0 evs) as I. fold w in I.
    destruct (pending (browser (page w))) as [|k rest] eqn:E; [done|].
    destruct (I k) as (Kf & Kb & Hb & Ks); [rewrite E; by left|].
    assert (has FormStatus (doc (page w)) = true) as Hh
      by (unfold w; by rewrite run_boot_has_eq).
    rewrite (step_settled validity o w k rest E).
    set (w1 := {| page := with_browser (set_pending rest) (page w);
                  effects := effects w |}).
    destruct (handleFormSubmission_resume_spec k (One ContactForm) o w1
                Kf Kb Ks Hb) as (R1 & _).
    assert (k_formStatus k = Some (One FormStatus)) as Ks'
      by (by rewrite Ks, Hh).
    destruct (resume_timers k _ _ o w1 Kf Kb Ks') as [T1 T2].
    unfold exec, isolated.
    destruct (handleFormSubmission_resume k o w1) as [r w2].
    cbn [fst snd] in *. subst r. cbn [snd]. done.
  - intros id el Hin w'. subst w'.
    pose proof (run_boot_tidy validity d win0 evs) as T. fold w in T.
    destruct (pending_timer id _ w T Hin) as (t & ts & E & -> & Ht).
    split; [done|].
    rewrite (step_timeout validity id t ts w E), Ht.
    unfold exec, isolated, run_timer_callback, assign_className, write,
      deref. run_m. done.
Qed.

End StatusTimer.

Lemma success_status_hides_itself_witness :
  let w := run Sample.validity (filled ++ [Submit]) Sample.world in
  let w1 := step Sample.validity (FetchSettled (Resolved 200)) w in
  timers (browser (page w1)) = [(1%nat, hideStatus (One FormStatus))]
  ∧ doc (page (step Sample.validity (Timeout 1) w1)) =
      alter_el (set_classList ["form-status"]) (One FormStatus)
        (doc (page w1)).
Proof.
  cbv zeta. split.
  - destruct (success_status_hides_itself Sample.validity Sample.document
                Sample.window (filled ++ [Submit])) as [H _].
    destruct (H (Resolved 200)) as [T _]; [by vm_compute|reflexivity|].
    exact T.
  - destruct (success_status_hides_itself Sample.validity Sample.document
                Sample.window
                (filled ++ [Submit; FetchSettled (Resolved 200)]))
      as [_ H].
    destruct (H 1%nat (One FormStatus)) as (_ & _ & D & _);
      [vm_compute; left|].
    exact D.
Defined.

(** ** The state of the mobile menu *)

#[export] Instance keeps_menu_preorder : PreOrder keeps_menu.
Proof.
  split; [intros w H; exact H|].
  intros w1 w2 w3 H1 H2 H. apply H2, H1, H.
Qed.

Lemma keeps_menu_emit e : respects keeps_menu (emit e).
Proof. intros w H. exact H. Qed.

Lemma keeps_menu_same_doc f :
  (∀ p, doc (f p) = doc p) → respects keeps_menu (modify f).
Proof. intros E w. unfold keeps_menu. cbn [modify snd page]. by rewrite E. Qed.

Lemma has_class_remove_ne c c' l :
  c ≠ c' → has_class c (remove_class c' l) = has_class c l.
Proof.
  intros Hc. unfold has_class, remove_class.
  induction l as [|x l IH]; [done|].
  rewrite filter_cons. case_decide as E; simpl; rewrite IH; [done|].
  assert (x = c') as -> by (destruct (decide (x = c')); [done|by destruct E]).
  by rewrite (proj2 (String.eqb_neq c c')).
Qed.

Lemma has_class_add_ne c c' l :
  c ≠ c' → has_class c (add_class c' l) = has_class c l.
Proof.
  intros Hc. unfold add_class. destruct (has_class c' l); [done|].
  unfold has_class. rewrite existsb_app. simpl.
  by rewrite (proj2 (String.eqb_neq c c')), !orb_false_r.
Qed.

Lemma keeps_menu_modify f n :
  (n ≠ One NavToggle
   ∨ ∀ e, attrs (f e) !! "aria-expanded" = attrs e !! "aria-expanded") →
  (n ≠ One NavMenu
   ∨ ∀ e, has_class "active" (classList (f e))
          = has_class "active" (classList e)) →
  (n ≠ Body ∨ ∀ e, style (f e) !! "overflow" = style e !! "overflow") →
  respects keeps_menu (modify (with_doc (alter_el f n))).
Proof.
  intros Ht Hm Hb w. unfold keeps_menu, menu_ready, menu_consistent.
  cbn [modify snd page doc with_doc]. rewrite !has_alter_el.
  assert (menu_expanded (alter_el f n (doc (page w)))
          = menu_expanded (doc (page w))) as ->.
  { unfold menu_expanded. rewrite get_alter_el. case_decide as E; [|done].
    destruct Ht as [Ht|Ht]; [done|]. subst n.
    destruct (get_el (One NavToggle) (doc (page w))); [|done].
    simpl. by rewrite Ht. }
  assert (menu_shown (alter_el f n (doc (page w)))
          = menu_shown (doc (page w))) as ->.
  { unfold menu_shown. rewrite get_alter_el. case_decide as E; [|done].
    destruct Hm as [Hm|Hm]; [done|]. subst n.
    destruct (get_el (One NavMenu) (doc (page w))); [|done].
    simpl. by rewrite Hm. }
  assert (scroll_locked (alter_el f n (doc (page w)))
          = scroll_locked (doc (page w))) as ->; [|done].
  unfold scroll_locked. destruct n; try done.
  destruct Hb as [Hb|Hb]; [done|]. simpl. by rewrite Hb.
Qed.

Lemma keeps_menu_close :
  respects keeps_menu (closeMobileMenu navToggle navMenu).
Proof.
  intros w [[Ht Hm] _]. rewrite closeMobileMenu_eq. cbn [snd page].
  unfold closed_page, closed_doc, close_doc, with_doc. cbn [doc].
  unfold menu_ready, menu_consistent. rewrite !has_alter_el.
  split; [done|].
  unfold has in Ht, Hm.
  destruct (single (doc (page w)) !! NavToggle) as [t|] eqn:Et; [|done].
  destruct (single (doc (page w)) !! NavMenu) as [m|] eqn:Em; [|done].
  unfold menu_expanded, menu_shown, scroll_locked.
  rewrite !get_alter_el. simpl.
  change (get_el (One ?s) (doc (page w))) with (single (doc (page w)) !! s).
  rewrite Et, Em. simpl. rewrite !lookup_insert_eq.
  by rewrite has_class_remove.
Qed.

Lemma keeps_menu_close_null menu :
  respects keeps_menu (closeMobileMenu None menu).
Proof. intros w H. exact H. Qed.

Lemma has_class_toggle c l :
  has_class c (toggle_class c l) = negb (has_class c l).
Proof.
  unfold toggle_class. destruct (has_class c l) eqn:E.
  - apply has_class_remove.
  - unfold has_class in *. rewrite existsb_app, E. simpl.
    by rewrite String.eqb_refl.
Qed.

(** What [toggleMobileMenu] does on a page with toggle and menu. *)
Lemma toggleMobileMenu_spec w :
  menu_ready (doc (page w)) →
  ∃ w',
    toggleMobileMenu navToggle navMenu w = (Ret tt, w')
    ∧ menu_ready (doc (page w'))
    ∧ menu_expanded (doc (page w')) = negb (menu_expanded (doc (page w)))
    ∧ menu_shown (doc (page w')) = negb (menu_shown (doc (page w)))
    ∧ scroll_locked (doc (page w')) = menu_shown (doc (page w'))
    ∧ browser (page w') = browser (page w)
    ∧ effects w' =
        effects w
        ++ [DomWrite (One NavToggle) "aria-expanded"
              (text (if menu_expanded (doc (page w)) then "false"
                     else "true"));
            DomWrite (One NavMenu) "classList.toggle" (text "active");
            DomWrite Body "style.overflow"
              (text (if menu_shown (doc (page w)) then "" else "hidden"))].
Proof.
  intros [Ht Hm]. unfold has in Ht, Hm.
  destruct (single (doc (page w)) !! NavToggle) as [t|] eqn:Et; [|done].
  destruct (single (doc (page w)) !! NavMenu) as [m|] eqn:Em; [|done].
  eexists. split.
  - unfold toggleMobileMenu, getAttribute, setAttribute, classList_toggle,
      classList_contains, assign_style, element, write, navToggle, navMenu,
      deref.
    run_m. unfold get_el. rewrite ?Et, ?Em. simpl. reflexivity.
  - unfold menu_ready, menu_expanded, menu_shown, scroll_locked, has,
      get_el.
    simpl.
    rewrite ?lookup_alter_eq, ?(lookup_alter_ne _ _ NavToggle NavMenu),
      ?(lookup_alter_ne _ _ NavMenu NavToggle), ?lookup_alter_eq by done.
    rewrite ?Et, ?Em. simpl. rewrite ?lookup_insert_eq, ?has_class_toggle.
    rewrite <- !app_assoc. simpl.
    destruct (bool_decide (attrs t !! "aria-expanded" = Some "true"));
      destruct (has_class "active" (classList m)); simpl; done.
Qed.

Lemma keeps_menu_toggle :
  respects keeps_menu (toggleMobileMenu navToggle navMenu).
Proof.
  intros w [R [C1 C2]].
  destruct (toggleMobileMenu_spec w R) as (w' & -> & R' & E1 & E2 & E3 & _).
  cbn [snd]. split; [done|]. split; [|done]. by rewrite E1, E2, C1.
Qed.

Lemma keeps_menu_families g :
  respects keeps_menu
    (modify (with_doc (fun d =>
       {| body := body d; root := root d; single := single d;
          multi := g (multi d); errorMessageOf := errorMessageOf d |}))).
Proof. intros w H. exact H. Qed.

Ltac keeps_menu_leaf :=
  idtac;
  match goal with
  | |- respects keeps_menu (emit _) => apply keeps_menu_emit
  | |- respects keeps_menu (closeMobileMenu None _) =>
      apply keeps_menu_close_null
  | |- respects keeps_menu (closeMobileMenu _ _) => apply keeps_menu_close
  | |- respects keeps_menu (toggleMobileMenu _ _) => apply keeps_menu_toggle
  | |- respects keeps_menu (modify (with_doc (alter_el _ _))) =>
      apply keeps_menu_modify;
      first [ left; discriminate
            | right; intros ?; reflexivity
            | right; intros ?; simpl; by rewrite lookup_insert_ne
            | right; intros ?; simpl; by apply has_class_remove_ne
            | right; intros ?; simpl; by apply has_class_add_ne ]
  | |- respects keeps_menu (modify _) =>
      first [ apply keeps_menu_same_doc; intros ?; reflexivity
            | apply keeps_menu_families ]
  end.

Ltac track_targets H :=
  track_refs H; unfold header, navToggle, navMenu in *; simplify_eq.

Section MenuState.
Variable validity : Element -> ValidityState.

Lemma keeps_menu_run_handler depth h e :
  respects keeps_menu (run_handler validity depth h e).
Proof.
  revert h e. induction depth as [|d IH]; intros h e.
  - destruct h; cbn [run_handler];
      respects_walk_with keeps_menu_leaf track_targets.
  - destruct h; cbn [run_handler];
      respects_walk_with keeps_menu_leaf track_targets.
Qed.

Lemma keeps_menu_run_timer_callback cb :
  match cb with
  | hideStatus el => el = One FormStatus
  | resizeLater => True
  end →
  respects keeps_menu (run_timer_callback cb).
Proof.
  destruct cb as [|el]; [intros _|intros ->]; unfold run_timer_callback;
    respects_walk_with keeps_menu_leaf track_targets.
Qed.

Lemma keeps_menu_resume k o :
  k_form k = Some (One ContactForm) →
  k_submitBtn k = Some (One SubmitBtn) →
  k_formStatus k = None ∨ k_formStatus k = Some (One FormStatus) →
  respects keeps_menu (handleFormSubmission_resume k o).
Proof.
  intros Kf Kb Ks. unfold handleFormSubmission_resume.
  rewrite Kf, Kb. destruct Ks as [-> | ->];
    respects_walk_with keeps_menu_leaf track_targets.
Qed.

Lemma keeps_menu_react ev :
  match ev with Timeout _ | FetchSettled _ => False | _ => True end →
  respects keeps_menu (react validity ev).
Proof.
  pose proof (keeps_menu_run_handler 1) as H.
  destruct ev; intros Hev; try done; unfold react, dispatch;
    respects_walk_with keeps_menu_leaf track_targets.
Qed.

Lemma keeps_menu_step ev w :
  in_flight_sound w → tidy w → keeps_menu w (step validity ev w).
Proof.
  intros Hs Ht.
  destruct ev as [| | | | id | | | | | | o | | | |obs entries];
    try (by apply keeps_menu_react).
  - (* Timeout *)
    unfold step, react. unfold mbind at 1, M_bind at 1. cbn [get].
    destruct (filter (λ t, t.1 = id) (timers (browser (page w))))
      as [|t ts] eqn:E; [reflexivity|].
    unfold mbind, M_bind, modify.
    set (w1 := {| page := with_browser _ (page w); effects := effects w |}).
    change (keeps_menu w1 (isolated (run_timer_callback t.2) w1).2).
    apply respects_isolated;
      [typeclasses eauto|intros ?; apply keeps_menu_emit|].
    apply keeps_menu_run_timer_callback.
    assert (t ∈ timers (browser (page w))) as Hin.
    { assert (t ∈ filter (λ t, t.1 = id) (timers (browser (page w))))
        as [_ ?]%list_elem_of_filter by (rewrite E; left).
      done. }
    destruct t as [i [|el]]; [done|]. simpl.
    destruct Ht as (_ & _ & _ & _ & H5). by eapply H5.
  - (* FetchSettled *)
    unfold step, react. unfold mbind at 1, M_bind at 1. cbn [get].
    destruct (pending (browser (page w))) as [|k rest] eqn:E; [reflexivity|].
    unfold mbind, M_bind, modify.
    set (w1 := {| page := with_browser _ (page w); effects := effects w |}).
    change (keeps_menu w1 (isolated (handleFormSubmission_resume k o) w1).2).
    destruct (Hs k) as (Kf & Kb & _ & Ks); [rewrite E; left|].
    apply respects_isolated;
      [typeclasses eauto|intros ?; apply keeps_menu_emit|].
    apply keeps_menu_resume; [done|done|].
    rewrite Ks. destruct (has FormStatus _); auto.
Qed.

Lemma keeps_menu_init : respects keeps_menu init.
Proof.
  repeat (respects_walk_with keeps_menu_leaf track_targets;
          try match goal with
              | |- respects _ (match ?x with _ => _ end _) => destruct x
              end).
Qed.

End MenuState.

(** ** Clicks and key presses on the toggle *)

Lemma listeners_on_elsewhere t ty (xs : list Node)
  (mk : Node -> list (EventType * Handler)) :
  (∀ x, x ∈ xs → NodeT x ≠ t) →
  listeners_on t ty
    (xs ≫= fun x => (fun th => L (NodeT x) th.1 th.2) <$> mk x) = [].
Proof.
  intros H. induction xs as [|x xs IH]; [done|].
  change ((x :: xs) ≫= ?f) with (f x ++ (xs ≫= f)).
  rewrite listeners_on_app, IH, app_nil_r by (intros; apply H; by right).
  assert (NodeT x ≠ t) as Hx by (apply H; left).
  induction (mk x) as [|th l IHl]; [done|].
  unfold listeners_on in *. rewrite fmap_cons, filter_cons.
  rewrite decide_False; [apply IHl|]. by intros [E _].
Qed.

Lemma toggle_listeners d ty :
  menu_ready d →
  listeners_on (NodeT (One NavToggle)) ty (wiring d) =
  match ty with
  | click => [onToggleClick]
  | keydown => [onToggleKeydown]
  | _ => []
  end.
Proof.
  intros [Ht Hm]. unfold wiring. rewrite Ht, Hm. simpl andb. cbv iota.
  rewrite !listeners_on_app.
  pose proof (listeners_on_elsewhere (NodeT (One NavToggle)) ty
                (hash_anchors d)
                (fun x => [(click, onAnchorClick x)])) as E1.
  pose proof (listeners_on_elsewhere (NodeT (One NavToggle)) ty
                (required_fields d)
                (fun x => [(blur, onBlur x); (input, onInput x)])) as E2.
  pose proof (listeners_on_elsewhere (NodeT (One NavToggle)) ty
                (nav_links d)
                (fun x => [(click, onNavLinkClick)])) as E3.
  specialize (E1 ltac:(by intros x [j ->]%select_from_kind)).
  specialize (E2 ltac:(by intros x [j ->]%select_from_kind)).
  specialize (E3 ltac:(by intros x [j ->]%select_from_kind)).
  simpl in E1, E2, E3. unfold L in *.
  destruct ty, (has SiteHeader d), (has ContactForm d), (has Hero d);
    rewrite ?listeners_on_app, ?E1, ?E2, ?E3;
    repeat first
      [ rewrite listeners_on_cons_ne by discriminate
      | rewrite listeners_on_cons_eq ];
    rewrite ?listeners_on_nil, ?app_nil_r; reflexivity.
Qed.

Lemma toggleMobileMenu_eq w :
  menu_ready (doc (page w)) →
  toggleMobileMenu navToggle navMenu w =
  (Ret tt,
   {| page := with_doc toggled_doc (page w);
      effects := effects w ++ toggle_writes (doc (page w)) |}).
Proof.
  intros [Ht Hm]. unfold has in Ht, Hm.
  destruct w as [[d wn vs br] fx]. cbn [doc page] in Ht, Hm.
  destruct (single d !! NavToggle) as [t|] eqn:Et; [|done].
  destruct (single d !! NavMenu) as [m|] eqn:Em; [|done].
  unfold toggleMobileMenu, getAttribute, setAttribute, classList_toggle,
    classList_contains, assign_style, element, write, navToggle, navMenu,
    deref, toggled_doc, toggle_writes, menu_expanded, menu_shown.
  run_m. unfold with_doc, get_el. simpl.
  rewrite ?lookup_alter_eq, ?(lookup_alter_ne _ _ NavToggle NavMenu),
    ?(lookup_alter_ne _ _ NavMenu NavToggle), ?lookup_alter_eq by done.
  rewrite ?Et, ?Em. simpl. rewrite ?has_class_toggle.
  rewrite <- !app_assoc. simpl.
  destruct (bool_decide (attrs t !! "aria-expanded" = Some "true"));
    destruct (has_class "active" (classList m)); simpl; reflexivity.
Qed.

Section ToggleEvents.
Variable validity : Element -> ValidityState.

(** A listener that stops the propagation is the last one to run. *)
Lemma dispatch_with_stopping depth d ty t h e rest w :
  listeners (browser (page w)) = wiring d →
  listeners_on t ty (wiring d) = [h] →
  stopped (browser (page
    (exec (run_handler validity depth h e) (entering w)))) = true →
  dispatch_with (run_handler validity depth) ty (t :: rest) e w =
  (Ret tt, leaving w (exec (run_handler validity depth h e) (entering w))).
Proof.
  intros Hl Hon Hs.
  set (run := fun h => run_handler validity depth h e).
  set (w1 := exec (run_handler validity depth h e) (entering w)) in *.
  assert (foldl (deliver run ty) (entering w) (t :: rest) = w1) as Hd.
  { cbn [foldl].
    assert (deliver run ty (entering w) t = w1) as ->;
      [|by apply deliver_stopped].
    unfold deliver.
    change (stopped (browser (page (entering w)))) with false. cbv iota.
    change (listeners (browser (page (entering w))))
      with (listeners (browser (page w))).
    by rewrite Hl, Hon. }
  unfold dispatch_with.
  unfold mbind, M_bind, get, modify.
  cbn [fst snd]. rewrite propagate_eq. cbn [fst snd page effects].
  fold (entering w). fold run. by rewrite Hd.
Qed.

Lemma toggle_click_eq w :
  menu_ready (doc (page w)) →
  toggle_click w =
  (Ret tt,
   {| page := with_doc toggled_doc (with_browser (set_stopped true) (page w));
      effects :=
        effects w ++ StopPropagation :: toggle_writes (doc (page w)) |}).
Proof.
  intros R. unfold toggle_click, stopPropagation.
  unfold mbind, M_bind, emit, modify. cbn [fst snd].
  rewrite toggleMobileMenu_eq by exact R. cbn [page effects doc with_browser].
  by rewrite <- app_assoc.
Qed.

Lemma toggled_doc_spec w :
  menu_ready (doc (page w)) →
  menu_ready (toggled_doc (doc (page w)))
  ∧ menu_expanded (toggled_doc (doc (page w)))
    = negb (menu_expanded (doc (page w)))
  ∧ menu_shown (toggled_doc (doc (page w)))
    = negb (menu_shown (doc (page w)))
  ∧ scroll_locked (toggled_doc (doc (page w)))
    = menu_shown (toggled_doc (doc (page w))).
Proof.
  intros R.
  destruct (toggleMobileMenu_spec w R) as (w' & E & R' & E1 & E2 & E3 & _).
  rewrite (toggleMobileMenu_eq w R) in E. injection E as <-. done.
Qed.

(** X6. On a page with the toggle and the menu whose markup starts
    consistent, the three places that hold the menu's state never
    disagree, whatever events arrive: the toggle reads
    aria-expanded='true' exactly when the panel has the class 'active',
    and the body's inline overflow is 'hidden' exactly then. *)
Theorem menu_state_stays_consistent d win0 evs :
  has NavToggle d = true → has NavMenu d = true →
  menu_consistent d →
  menu_consistent (doc (page (run validity evs (boot d win0)))).
Proof.
  intros Ht Hm Hc.
  assert (menu_ready (doc (page (run validity evs (boot d win0))))
          ∧ menu_consistent (doc (page (run validity evs (boot d win0)))))
    as [_ H]; [|exact H].
  induction evs as [|ev evs IH] using rev_ind.
  - assert (respects keeps_menu (isolated init)) as H.
    { apply respects_isolated;
        [typeclasses eauto|intros ?; apply keeps_menu_emit|].
      apply keeps_menu_init. }
    apply (H (fresh d win0)). by split.
  - rewrite run_snoc.
    apply (keeps_menu_step validity ev);
      [apply run_boot_in_flight|apply run_boot_tidy|exact IH].
Qed.

(** X7. A click that starts on the toggle runs the toggle's listener and
    nothing else: the listener stops the propagation, so no listener of an
    ancestor or of the document sees the event.  The panel's 'active'
    class and the toggle's aria-expanded flip, the body's overflow follows
    the panel, and exactly three writes are made. *)
Theorem toggle_click_flips_menu d win0 evs rest :
  has NavToggle d = true → has NavMenu d = true →
  let w := run validity evs (boot d win0) in
  let w' := step validity (Click (One NavToggle :: rest)) w in
  menu_shown (doc (page w')) = negb (menu_shown (doc (page w)))
  ∧ menu_expanded (doc (page w')) = negb (menu_expanded (doc (page w)))
  ∧ scroll_locked (doc (page w')) = menu_shown (doc (page w'))
  ∧ effects w' =
      effects w ++ StopPropagation :: toggle_writes (doc (page w)).
Proof.
  intros Ht Hm w w'. subst w'.
  assert (menu_ready (doc (page w))) as R.
  { unfold w. split; by rewrite run_boot_has_eq. }
  assert (listeners (browser (page w)) = wiring d) as Hl
    by apply run_boot_listeners.
  unfold step, react, dispatch. cbn [bubble fmap list_fmap app].
  rewrite (dispatch_with_stopping 1 d click (NodeT (One NavToggle))
             onToggleClick _ _ w Hl).
  - cbn [run_handler]. unfold exec. rewrite isolated_eq. cbn [snd].
    unfold exec, isolated. rewrite toggle_click_eq by exact R.
    cbn [snd leaving page effects with_browser with_doc doc entering].
    destruct (toggled_doc_spec w R) as (_ & E1 & E2 & E3).
    done.
  - apply toggle_listeners. by split.
  - cbn [run_handler]. unfold exec, isolated.
    by rewrite toggle_click_eq by exact R.
Qed.

End ToggleEvents.

Lemma menu_state_stays_consistent_witness :
  menu_consistent
    (doc (page (run Sample.validity
                  [Click [One NavToggle]; Keydown "Escape" []; Resize 1024]
                  Sample.world))).
Proof.
  apply (menu_state_stays_consistent Sample.validity Sample.document
           Sample.window); by vm_compute.
Defined.

Lemma toggle_click_flips_menu_witness :
  menu_shown
    (doc (page (step Sample.validity (Click [One NavToggle]) Sample.world)))
  = true.
Proof.
  apply (toggle_click_flips_menu Sample.validity Sample.document
           Sample.window [] []); reflexivity.
Defined.

Lemma keydown_listeners d t :
  menu_ready d →
  listeners_on t keydown (wiring d) =
  (if bool_decide (t = DocumentT) then [onEscape] else [])
  ++ (if bool_decide (t = NodeT (One NavToggle)) then [onToggleKeydown]
      else [])
  ++ (if bool_decide (t = DocumentT) then [onDocumentKeydown] else []).
Proof.
  intros [Ht Hm]. unfold wiring. rewrite Ht, Hm. simpl andb. cbv iota.
  rewrite !listeners_on_app.
  pose proof (listeners_on_nodes t keydown (hash_anchors d)
                (fun x => [(click, onAnchorClick x)])) as E1.
  pose proof (listeners_on_nodes t keydown (required_fields d)
                (fun x => [(blur, onBlur x); (input, onInput x)])) as E2.
  pose proof (listeners_on_nodes t keydown (nav_links d)
                (fun x => [(click, onNavLinkClick)])) as E3.
  specialize (E1 ltac:(by intros x th [->|?%elem_of_nil]%elem_of_cons)).
  specialize (E2 ltac:(by intros x th
    [->|[->|?%elem_of_nil]%elem_of_cons]%elem_of_cons)).
  specialize (E3 ltac:(by intros x th [->|?%elem_of_nil]%elem_of_cons)).
  simpl in E1, E2, E3. unfold L in *.
  destruct (has SiteHeader d), (has ContactForm d), (has Hero d);
    rewrite ?listeners_on_app, ?E1, ?E2, ?E3;
    repeat first
      [ rewrite listeners_on_cons_ne by discriminate
      | rewrite listeners_on_cons_eq ];
    rewrite ?listeners_on_nil, ?app_nil_r; simpl; reflexivity.
Qed.

Section ToggleKeys.
Variable validity : Element -> ValidityState.

(** X8. Pressing Enter or Space on the toggle does what a click on it
    does: the default action of the key is prevented, [navToggle.click()]
    runs the toggle's click listener, and the page ends exactly as after
    a click.  The writes are those of the click, after the
    [preventDefault]. *)
Theorem toggle_keys_act_as_click d win0 evs k rest :
  has NavToggle d = true → has NavMenu d = true →
  One NavToggle ∉ rest →
  k = "Enter" ∨ k = " " →
  let w := run validity evs (boot d win0) in
  let chain := One NavToggle :: rest in
  page (step validity (Keydown k chain) w)
    = page (step validity (Click chain) w)
  ∧ effects (step validity (Keydown k chain) w) =
      effects w
      ++ PreventDefault :: StopPropagation :: toggle_writes (doc (page w)).
Proof.
  intros Ht Hm Hrest Hk w chain.
  assert (menu_ready d) as Rd by done.
  assert (menu_ready (doc (page w))) as R.
  { unfold w. split; by rewrite run_boot_has_eq. }
  assert (listeners (browser (page w)) = wiring d) as Hl
    by apply run_boot_listeners.
  (* the click *)
  assert (step validity (Click chain) w =
          leaving w (exec toggle_click (entering w))) as Ec.
  { unfold step, react, dispatch, chain. cbn [bubble fmap list_fmap app].
    rewrite (dispatch_with_stopping validity 1 d click
               (NodeT (One NavToggle)) onToggleClick _ _ w Hl).
    - reflexivity.
    - by apply toggle_listeners.
    - cbn [run_handler]. unfold exec, isolated.
      by rewrite toggle_click_eq by exact R. }
  (* the key press *)
  set (e := plain_event chain k).
  set (w1 := exec (run_handler validity 1 onToggleKeydown e) (entering w)).
  assert (w1 =
          {| page := with_browser (set_stopped false)
                       (with_doc toggled_doc (page w));
             effects := effects w ++ PreventDefault :: StopPropagation
                          :: toggle_writes (doc (page w)) |}) as E1.
  { subst w1.
    change (run_handler validity 1 onToggleKeydown e)
      with (if String.eqb (key e) "Enter" || String.eqb (key e) " "
            then preventDefault ;;
                 element_click (run_handler validity 0) navToggle e
            else mret tt).
    set (run0 := run_handler validity 0).
    subst e. cbn [key plain_event].
    assert (String.eqb k "Enter" || String.eqb k " " = true) as ->
      by (by destruct Hk as [-> | ->]).
    unfold exec, isolated, preventDefault, element_click, navToggle, deref.
    unfold mbind at 1, M_bind at 1. cbn [emit fst snd].
    unfold mbind at 1, M_bind at 1. cbn [mret M_ret fst snd].
    cbn [path plain_event heroRect]. unfold chain at 1 2.
    cbn [chain_from]. rewrite bool_decide_true by done.
    cbn [bubble fmap list_fmap app]. subst run0.
    set (wp := {| page := page (entering w);
                  effects := effects (entering w) ++ [PreventDefault] |}).
    assert (listeners (browser (page wp)) = wiring d) as Hlp by exact Hl.
    rewrite (dispatch_with_stopping validity 0 d click
               (NodeT (One NavToggle)) onToggleClick _ _ wp Hlp).
    - cbn [run_handler fst snd]. unfold exec, isolated.
      rewrite toggle_click_eq by exact R.
      cbn [snd leaving page effects entering]. subst wp.
      cbn [page effects entering]. rewrite <- app_assoc. reflexivity.
    - by apply toggle_listeners.
    - cbn [run_handler]. unfold exec, isolated.
      by rewrite toggle_click_eq by exact R. }
  assert (step validity (Keydown k chain) w = leaving w w1) as Ek.
  { set (run := fun h => run_handler validity 1 h e).
    assert (stopped (browser (page w1)) = false) as Hs1 by (by rewrite E1).
    assert (listeners (browser (page w1)) = wiring d) as Hl1
      by (by rewrite E1).
    assert (∀ h, h = onEscape ∨ h = onDocumentKeydown →
                 exec (run h) w1 = w1) as Hno.
    { intros h Hh. unfold exec. rewrite isolated_eq. cbn [snd].
      unfold exec, isolated, run.
      assert (String.eqb k "Escape" = false) as Hk'
        by (by destruct Hk as [-> | ->]).
      destruct Hh as [-> | ->]; cbn [run_handler];
        unfold escape_keydown, document_keydown; subst e;
        cbn [key plain_event]; by rewrite Hk'. }
    assert (foldl (deliver run keydown) w1
              ((NodeT <$> rest) ++ [DocumentT; WindowT]) = w1) as Hn.
    { apply foldl_fixed. intros t' Ht'. unfold deliver.
      rewrite Hs1, Hl1, (keydown_listeners d t' Rd).
      apply elem_of_app in Ht' as [Ht'|Ht'].
      - apply list_elem_of_fmap in Ht' as (x & -> & Hx).
        rewrite bool_decide_false by done.
        rewrite (bool_decide_false (NodeT x = NodeT (One NavToggle)));
          [done|].
        intros [= ->]. done.
      - apply elem_of_cons in Ht' as [->|Ht'].
        + rewrite bool_decide_true by done.
          rewrite bool_decide_false by done. simpl.
          rewrite !Hno by auto. done.
        + apply elem_of_cons in Ht' as [->|Ht']; [|by apply elem_of_nil in Ht'].
          by rewrite !bool_decide_false by done. }
    unfold step, react, dispatch, dispatch_with.
    unfold mbind, M_bind, get, modify.
    cbn [fst snd]. rewrite propagate_eq. cbn [fst snd page effects].
    fold (entering w). fold e. fold run.
    unfold chain. cbn [bubble fmap list_fmap app foldl].
    assert (deliver run keydown (entering w) (NodeT (One NavToggle)) = w1)
      as ->.
    { unfold deliver.
      change (stopped (browser (page (entering w)))) with false. cbv iota.
      change (listeners (browser (page (entering w))))
        with (listeners (browser (page w))).
      rewrite Hl, (keydown_listeners d _ Rd).
      rewrite bool_decide_false by done.
      by rewrite bool_decide_true by done. }
    by rewrite Hn. }
  rewrite Ek, Ec. unfold exec, isolated.
  rewrite toggle_click_eq by exact R. rewrite E1. done.
Qed.

End ToggleKeys.

Lemma toggle_keys_act_as_click_witness :
  page (step Sample.validity (Keydown "Enter" [One NavToggle]) Sample.world)
  = page (step Sample.validity (Click [One NavToggle]) Sample.world).
Proof.
  apply (toggle_keys_act_as_click Sample.validity Sample.document
           Sample.window [] "Enter" []);
    [reflexivity|reflexivity|by intros ?%elem_of_nil|by left].
Defined.

(** ** When the controller calls fetch *)

Lemma sends_offline n w w' : offline w w' → sends n w w'.
Proof. intros H. exists []. rewrite app_nil_r. split; [exact H|simpl; lia]. Qed.

Lemma sends_zero w w' : sends 0 w w' → offline w w'.
Proof.
  intros (rs & E & L). destruct rs; [|simpl in L; lia].
  by rewrite app_nil_r in E.
Qed.

Lemma sends_trans a b w1 w2 w3 :
  sends a w1 w2 → sends b w2 w3 → sends (a + b) w1 w3.
Proof.
  intros (r1 & E1 & L1) (r2 & E2 & L2). exists (r1 ++ r2).
  rewrite E2, E1, <- app_assoc. split; [done|]. rewrite length_app. lia.
Qed.

Lemma sends_bind {A B} a b (m : M A) (k : A -> M B) :
  respects (sends a) m → (∀ x, respects (sends b) (k x)) →
  respects (sends (a + b)) (m ≫= k).
Proof.
  intros Hm Hk w. unfold mbind, M_bind.
  specialize (Hm w). destruct (m w) as [[x|e] w1]; simpl in *.
  - eapply sends_trans; [exact Hm|apply Hk].
  - destruct Hm as (rs & E & L). exists rs. split; [done|lia].
Qed.

Lemma sends_respects_offline {A} n (m : M A) :
  respects offline m → respects (sends n) m.
Proof. intros H w. apply sends_offline, H. Qed.

Section Requests.
Variable validity : Element -> ValidityState.

Lemma sends_fetch r : respects (sends 1) (emit (Fetch r)).
Proof.
  intros w. exists [r]. simpl. by rewrite fetches_app.
Qed.

Ltac offline_prefix :=
  repeat (apply (sends_bind 0 1);
          [solve [apply sends_respects_offline;
                  respects_walk_with ltac:(offline_leaf) forget]
          |intros ?]).

Lemma sends_handleFormSubmission form :
  respects (sends 1) (handleFormSubmission validity form).
Proof.
  unfold handleFormSubmission. offline_prefix.
  match goal with |- context [negb ?b] => destruct b end; cbn [negb].
  - offline_prefix. apply (sends_bind 1 0); [apply sends_fetch|].
    intros ?. apply sends_respects_offline, respects_ret. typeclasses eauto.
  - apply sends_respects_offline.
    respects_walk_with ltac:(offline_leaf) forget.
Qed.

Lemma sends_submit_listener :
  respects (sends 1) (submit_listener validity).
Proof.
  unfold submit_listener. offline_prefix.
  apply (sends_bind 1 0); [apply sends_handleFormSubmission|].
  intros [k|]; apply sends_respects_offline;
    respects_walk_with ltac:(offline_leaf) forget.
Qed.

Lemma sends_exec n m w : respects (sends n) m → sends n w (exec m w).
Proof.
  intros H. unfold exec, isolated. specialize (H w).
  destruct (m w) as [[[]|e] w1]; cbn [fst snd] in *; [done|].
  destruct H as (rs & E & L). exists rs. split; [|done].
  cbn [emit snd effects]. rewrite fetches_app. simpl fetches at 2.
  by rewrite app_nil_r.
Qed.

(** The listeners other than the submit listener send nothing, in a world
    with the listeners of the constructor. *)
Lemma offline_dispatch_with d0 run ty targets e w :
  listeners (browser (page w)) = wiring d0 →
  (∀ h, respects stable (run h e)) →
  (∀ t h w', L t ty h ∈ wiring d0 →
             listeners (browser (page w')) = wiring d0 →
             offline w' (run h e w').2) →
  offline w (dispatch_with run ty targets e w).2.
Proof.
  intros Hl Hst Hoff.
  unfold dispatch_with, mbind, M_bind, get, modify.
  cbn [fst snd]. rewrite propagate_eq. cbn [fst snd page effects].
  fold (entering w).
  assert (∀ w0, listeners (browser (page w0)) = wiring d0 →
     listeners (browser (page
       (foldl (deliver (fun h => run h e) ty) w0 targets))) = wiring d0
     ∧ offline w0 (foldl (deliver (fun h => run h e) ty) w0 targets))
    as H; [|by apply (H (entering w))].
  induction targets as [|t rest IH]; intros w0 Hl0; simpl; [done|].
  assert (listeners (browser (page
            (deliver (fun h => run h e) ty w0 t))) = wiring d0
          ∧ offline w0 (deliver (fun h => run h e) ty w0 t)) as [L1 O1].
  { unfold deliver. destruct (stopped (browser (page w0))); [done|].
    rewrite Hl0.
    assert (∀ h, h ∈ listeners_on t ty (wiring d0) → L t ty h ∈ wiring d0)
      as Hin by (intros h; apply elem_of_listeners_on).
    revert Hin. generalize (listeners_on t ty (wiring d0)).
    intros hs. revert w0 Hl0.
    induction hs as [|h hs IHh]; intros w0 Hl0 Hin; simpl; [done|].
    assert (listeners (browser (page (exec (run h e) w0))) = wiring d0
            ∧ offline w0 (exec (run h e) w0)) as [L2 O2].
    { split.
      - rewrite page_exec. destruct (Hst h w0) as [-> _]. exact Hl0.
      - unfold exec, isolated. pose proof (Hoff t h w0) as O.
        destruct (run h e w0) as [[[]|x] w1]; cbn [fst snd] in *.
        + apply O; [apply Hin; left|done].
        + unfold offline in *. cbn [emit snd effects].
          rewrite fetches_app. simpl fetches at 2. rewrite app_nil_r.
          apply O; [apply Hin; left|done]. }
    destruct (IHh _ L2) as [L3 O3]; [intros; apply Hin; by right|].
    split; [done|]. unfold offline in *. congruence. }
  destruct (IH _ L1) as [L2 O2]. split; [done|].
  unfold offline in *. congruence.
Qed.

Lemma wiring_submit d t ty : L t ty onSubmit ∈ wiring d → ty = submit.
Proof.
  intros Hl. apply elem_of_wiring in Hl. unfold L in Hl.
  destruct_or?; destruct_and?; destruct_or?;
    repeat match goal with H : ∃ _, _ |- _ => destruct H as (? & ? & ?) end;
    destruct_or?; simplify_eq; reflexivity.
Qed.

Lemma offline_run_handler_0 h e :
  h ≠ onSubmit → respects offline (run_handler validity 0 h e).
Proof.
  intros Hh. destruct h; try done; cbn [run_handler];
    respects_walk_with ltac:(offline_leaf) forget.
Qed.

Lemma offline_toggle_keydown d0 e w :
  listeners (browser (page w)) = wiring d0 →
  offline w (run_handler validity 1 onToggleKeydown e w).2.
Proof.
  intros Hl.
  change (run_handler validity 1 onToggleKeydown e)
    with (if String.eqb (key e) "Enter" || String.eqb (key e) " "
          then preventDefault ;;
               element_click (run_handler validity 0) navToggle e
          else mret tt).
  destruct (_ || _); [|done].
  unfold preventDefault, element_click, navToggle, deref.
  unfold mbind at 1, M_bind at 1. cbn [emit fst snd].
  unfold mbind at 1, M_bind at 1. cbn [mret M_ret fst snd].
  set (wp := {| page := page w; effects := effects w ++ [PreventDefault] |}).
  transitivity wp.
  { unfold offline. subst wp. cbn [effects]. rewrite fetches_app.
    simpl fetches at 2. by rewrite app_nil_r. }
  apply (offline_dispatch_with d0); [exact Hl| |].
  - intros h. apply stable_run_handler.
  - intros t h w' Hin _. apply offline_run_handler_0.
    intros ->. by apply wiring_submit in Hin.
Qed.

Lemma offline_run_handler_1 d0 h e w :
  h ≠ onSubmit → listeners (browser (page w)) = wiring d0 →
  offline w (run_handler validity 1 h e w).2.
Proof.
  intros Hh Hl.
  destruct h; try done; try (by apply (offline_toggle_keydown d0));
    match goal with
    | |- offline _ (?m _).2 => assert (respects offline m) as H; [|apply H]
    end;
    cbn [run_handler]; respects_walk_with ltac:(offline_leaf) forget.
Qed.

Lemma offline_dispatch d0 ty targets e w :
  ty ≠ submit → listeners (browser (page w)) = wiring d0 →
  offline w (dispatch validity ty targets e w).2.
Proof.
  intros Hty Hl. apply (offline_dispatch_with d0); [exact Hl| |].
  - intros h. apply stable_run_handler.
  - intros t h w' Hin Hl'. apply (offline_run_handler_1 d0); [|exact Hl'].
    intros ->. by apply wiring_submit in Hin.
Qed.

Lemma offline_step d0 ev w :
  ev ≠ Submit → listeners (browser (page w)) = wiring d0 →
  offline w (step validity ev w).
Proof.
  intros Hev Hl. unfold step.
  destruct ev; try done; unfold react;
    try (by apply (offline_dispatch d0));
    try (unfold mbind at 1, M_bind at 1; cbn [modify fst snd];
         match goal with
         | |- offline _ (dispatch _ ?ty ?ts ?e ?w1).2 =>
             by apply (offline_dispatch d0 ty ts e w1)
         end);
    try (revert w Hl; intros w _; revert w;
         match goal with
         | |- ∀ w, offline w (?m w).2 => change (respects offline m)
         end;
         respects_walk_with ltac:(offline_leaf) forget).
Qed.

Lemma sends_step d0 ev w :
  listeners (browser (page w)) = wiring d0 →
  sends (if is_submit ev then 1 else 0) w (step validity ev w).
Proof.
  intros Hl. destruct (is_submit ev) eqn:E.
  - destruct ev; try discriminate.
    destruct (has ContactForm d0) eqn:Hf.
    + rewrite (step_submit validity d0 w Hl Hf).
      destruct (sends_exec 1 (submit_listener validity) (entering w)
                  sends_submit_listener) as (rs & E1 & L1).
      exists rs. split; [exact E1|exact L1].
    + apply sends_offline. unfold step, react.
      apply (offline_dispatch_with d0); [exact Hl| |].
      * intros h. apply stable_run_handler.
      * intros t h w' Hin _. exfalso.
        apply elem_of_wiring in Hin. unfold L in Hin.
        destruct_or?; destruct_and?; destruct_or?;
          repeat match goal with
                 | H : ∃ _, _ |- _ => destruct H as (? & ? & ?) end;
          destruct_or?; simplify_eq. congruence.
  - apply sends_offline, (offline_step d0); [|exact Hl].
    intros ->. discriminate.
Qed.

Lemma boot_offline d win : fetches (effects (boot d win)) = [].
Proof.
  assert (respects offline (isolated init)) as H.
  { apply respects_isolated; [typeclasses eauto| |].
    - intros e. apply offline_emit. intros; discriminate.
    - repeat (respects_walk_with ltac:(offline_leaf) forget;
              try match goal with
                  | |- respects _ (match ?x with _ => _ end _) => destruct x
                  end). }
  apply (H (fresh d win)).
Qed.

(** X9. The controller calls [fetch] only while it handles a submit
    event, and at most once per submit event.  The constructor does not
    call it; no click, key press, scroll, resize, timer, animation frame,
    observer batch or settled request does.  So after any history the
    number of [fetch] calls is at most the number of submit events.  This
    counts the calls of [fetch] alone: the load the browser starts when
    the image observer assigns [img.src] is a write to the document, and
    the registration of the service worker, which the script requests
    outside the controller, is not counted either. *)
Theorem requests_only_on_submit d win0 evs :
  let w := run validity evs (boot d win0) in
  (∀ ev, ev ≠ Submit →
     fetches (effects (step validity ev w)) = fetches (effects w))
  ∧ (∃ rs, fetches (effects (step validity Submit w)) =
             fetches (effects w) ++ rs
           ∧ (length rs ≤ 1)%nat)
  ∧ (length (fetches (effects w)) ≤ submits evs)%nat.
Proof.
  intros w. split; [|split].
  - intros ev Hev. apply (offline_step d); [exact Hev|].
    apply run_boot_listeners.
  - apply (sends_step d Submit w). apply run_boot_listeners.
  - subst w. induction evs as [|ev evs IH] using rev_ind.
    + simpl. rewrite boot_offline. simpl. lia.
    + rewrite run_snoc.
      destruct (sends_step d ev (run validity evs (boot d win0)))
        as (rs & E & L); [apply run_boot_listeners|].
      rewrite E, length_app. unfold submits in *.
      rewrite List.filter_app, length_app. simpl.
      destruct (is_submit ev); simpl in *; lia.
Qed.

End Requests.

(** ** The header after an animation frame *)

#[export] Instance keeps_header_preorder : PreOrder keeps_header.
Proof.
  split; [by intros w|]. intros w1 w2 w3 H1 H2. unfold keeps_header in *.
  congruence.
Qed.

Lemma keeps_header_modify f n :
  n ≠ One SiteHeader →
  respects keeps_header (modify (with_doc (alter_el f n))).
Proof.
  intros Hn w. unfold keeps_header, header_view.
  cbn [modify snd page doc with_doc win vars].
  by rewrite get_alter_el_ne.
Qed.

Ltac keeps_header_leaf :=
  idtac;
  match goal with
  | |- respects keeps_header (emit _) => by intros ?
  | |- respects keeps_header (modify (with_doc (alter_el _ _))) =>
      apply keeps_header_modify; discriminate
  | |- respects keeps_header (modify _) => by intros ?
  end.

Lemma keeps_header_updateParallax :
  respects keeps_header run_updateParallax.
Proof. respects_walk_with keeps_header_leaf track. Qed.

Lemma run_updateHeader_result w :
  let w' := (run_updateHeader w).2 in
  let y := scrollY (win (page w)) in
  (run_updateHeader w).1 = Ret tt
  ∧ get_el (One SiteHeader) (doc (page w')) =
      updated_header y (lastScrollY (vars (page w)))
        <$> get_el (One SiteHeader) (doc (page w))
  ∧ win (page w') = win (page w)
  ∧ lastScrollY (vars (page w')) = y
  ∧ ticking (vars (page w')) = false.
Proof.
  cbv zeta. unfold run_updateHeader, header, classList_add,
    classList_remove, assign_style, write, deref.
  destruct (PrimFloat.ltb 100 (scrollY (win (page w)))) eqn:E1;
    destruct (PrimFloat.ltb (lastScrollY (vars (page w)))
                (scrollY (win (page w)))) eqn:E2;
    run_m; rewrite ?E1, ?E2; simpl; rewrite ?E1, ?E2; simpl;
    rewrite !get_alter_el_eq;
    destruct (get_el (One SiteHeader) (doc (page w))); simpl;
    unfold updated_header; rewrite ?E1, ?E2; done.
Qed.

Lemma filter_single {A} (P : A → Prop) `{∀ x, Decision (P x)} (l : list A) :
  length (filter P l) = 1%nat →
  ∃ l1 x l2, l = l1 ++ x :: l2 ∧ P x
             ∧ Forall (fun y => ¬ P y) l1 ∧ Forall (fun y => ¬ P y) l2.
Proof.
  induction l as [|a l IH]; [done|]. rewrite filter_cons.
  destruct (decide (P a)) as [Ha|Ha]; simpl; intros Hl.
  - exists [], a, l. split; [done|]. split; [done|]. split; [constructor|].
    apply list.Forall_forall. intros y Hy Py.
    assert (y ∈ filter P l) as Hin by (by apply list_elem_of_filter).
    destruct (filter P l); [by apply elem_of_nil in Hin|].
    simpl in Hl. lia.
  - destruct (IH Hl) as (l1 & x & l2 & -> & Px & F1 & F2).
    exists (a :: l1), x, l2. split; [done|]. split; [done|].
    split; [by constructor|done].
Qed.

Lemma keeps_header_frames (fs : list (nat * FrameCallback)) w :
  Forall (fun f => ¬ f.2 = updateHeader) fs →
  keeps_header w (foldl (fun w f => exec (run_frame_callback f.2) w) w fs).
Proof.
  revert w. induction fs as [|[id cb] fs IH]; intros w Hfs; [done|].
  inversion Hfs as [|? ? Hcb Hfs']; subst. simpl in *.
  etransitivity; [|by apply IH].
  destruct cb; [done|]. unfold exec.
  apply (respects_isolated keeps_header); [by intros ? ?|].
  apply keeps_header_updateParallax.
Qed.

Section HeaderFrame.
Variable validity : Element -> ValidityState.

(** X10. When an animation frame arrives while a header update is
    outstanding, the header is brought up to date with the scroll position
    the window has at that moment, whatever positions the scroll events in
    between went through: it has the class 'scrolled' exactly above 100
    pixels, it is moved out of view exactly when the page was scrolled down
    since the previous update and is above 100 pixels, the position is
    remembered for the next update, and the guard is cleared. *)
Theorem header_follows_scroll d win0 evs :
  let w := run validity evs (boot d win0) in
  ticking (vars (page w)) = true →
  let w' := step validity AnimationFrame w in
  let y := scrollY (win (page w)) in
  (∀ h, get_el (One SiteHeader) (doc (page w)) = Some h →
     ∃ h', get_el (One SiteHeader) (doc (page w')) = Some h'
       ∧ has_class "scrolled" (classList h') = PrimFloat.ltb 100 y
       ∧ style h' !! "transform" =
           Some (text (if PrimFloat.ltb (lastScrollY (vars (page w))) y
                          && PrimFloat.ltb 100 y
                       then "translateY(-100%)" else "translateY(0)")))
  ∧ lastScrollY (vars (page w')) = y
  ∧ ticking (vars (page w')) = false.
Proof.
  intros w T w' y. subst w'.
  assert (scheduled [] w) as (_ & H2 & _)
    by apply scheduled_run, boot_scheduled.
  simpl in H2. rewrite T in H2.
  destruct (filter_single _ _ H2) as (l1 & [id cb] & l2 & E & Px & F1 & F2).
  simpl in Px. subst cb.
  rewrite step_animation_frame, E, foldl_app. cbn [foldl snd].
  set (f := fun w (f : nat * FrameCallback) =>
              exec (run_frame_callback f.2) w).
  set (w1 := foldl f (frame_start w) l1).
  assert (header_view w1 = header_view w) as V1.
  { transitivity (header_view (frame_start w)); [|done].
    by apply keeps_header_frames. }
  set (w2 := exec run_updateHeader w1).
  pose proof (keeps_header_frames l2 w2 F2) as V2. fold f in V2.
  unfold keeps_header in V2.
  destruct (run_updateHeader_result w1) as (R & G & W & Ly & Tk).
  assert (w2 = (run_updateHeader w1).2) as E2.
  { subst w2. unfold exec, isolated.
    destruct (run_updateHeader w1) as [[[]|?] ?]; [done|discriminate]. }
  rewrite <- E2 in G, W, Ly, Tk.
  unfold header_view in V1, V2.
  injection V1 as A1 A2 A3 A4. injection V2 as B1 B2 B3 B4.
  change (exec (run_frame_callback updateHeader) w1) with w2.
  rewrite B1, B3, B4, G, Ly, Tk, A1, A2, A3. subst y.
  split; [|done].
  intros h Hh. rewrite Hh. simpl.
  eexists. split; [reflexivity|]. unfold updated_header. simpl.
  rewrite lookup_insert_eq. split; [|done].
  destruct (PrimFloat.ltb 100 _);
    [apply has_class_add|apply has_class_remove].
Qed.

End HeaderFrame.

Lemma header_follows_scroll_witness :
  let w := run Sample.validity [Scroll 50; Scroll 400] Sample.world in
  lastScrollY (vars (page (step Sample.validity AnimationFrame w)))
  = scrollY (win (page w)).
Proof.
  apply (header_follows_scroll Sample.validity Sample.document Sample.window
           [Scroll 50; Scroll 400]).
  reflexivity.
Defined.

(** ** Instances of the properties above *)

Lemma constructor_registers_wiring_witness :
  wiring bare =
  [L WindowT load onLoad; L WindowT resize onResize;
   L DocumentT keydown onDocumentKeydown].
Proof.
  destruct (constructor_registers_wiring (fresh bare Sample.window))
    as (_ & _ & _ & H).
  apply H; [|reflexivity].
  intros s. unfold has. simpl. by rewrite lookup_empty.
Defined.

Lemma requests_only_on_submit_witness :
  fetches (effects (step Sample.validity (Click [One NavToggle])
                      Sample.world))
  = fetches (effects Sample.world).
Proof.
  destruct (requests_only_on_submit Sample.validity Sample.document
              Sample.window []) as [H _].
  apply (H (Click [One NavToggle])). discriminate.
Defined.
